(** * FoodieSpot: the tool agent and the restaurant tools

    A shallow embedding of [tool_pattern/tool_agent.py] and
    [intent_restaurant_booking.py], with the properties of the
    specification stated and proved over it.

    Layout:
    - [Py]: the fragment of Python the two files rely on (strings, JSON-like
      values, truthiness, [int()], [repr()], [list.sort]);
    - [ToolAgent]: [ToolAgent.process_tool_calls] and [ToolAgent.run];
    - [Foodie]: the catalog, the database and the tools of
      [intent_restaurant_booking.py]. *)

From Stdlib Require Import ZArith List String Ascii Bool Arith Lia.
From Stdlib Require Import Sorting.Sorted Sorting.Permutation.
From Stdlib Require DecimalString.
Import ListNotations.

Local Open Scope string_scope.
Local Open Scope list_scope.
Local Open Scope nat_scope.

Set Warnings "-register-all".

(* ===================================================================== *)
(** * The Python fragment *)
(* ===================================================================== *)

Module Py.

(** ** Strings

    A [str] is the sequence of its code points; the model covers code points
    below 256, one [ascii] each. *)

Definition code (c : ascii) : nat := nat_of_ascii c.

(** [str.lower] on one code point: A-Z and the upper-case letters of the
    Latin-1 block (0xC0-0xDE, the multiplication sign 0xD7 apart). *)
Definition lower_char (c : ascii) : ascii :=
  let n := code c in
  if ((65 <=? n) && (n <=? 90)) || ((192 <=? n) && (n <=? 222) && negb (n =? 215))
  then ascii_of_nat (n + 32) else c.

Fixpoint lower (s : string) : string :=
  match s with
  | EmptyString => EmptyString
  | String c t => String (lower_char c) (lower t)
  end.

(** [needle in hay] on strings. *)
Fixpoint contains (needle hay : string) : bool :=
  String.prefix needle hay
  || match hay with
     | EmptyString => false
     | String _ t => contains needle t
     end.

(** [x in l] on a list of strings. *)
Definition str_in (x : string) (l : list string) : bool :=
  existsb (String.eqb x) l.

(** Truth value of a string: empty is false. *)
Definition str_truthy (s : string) : bool :=
  match s with EmptyString => false | _ => true end.

(** Truth value of an optional string ([None] or a [str]). *)
Definition opt_truthy (o : option string) : bool :=
  match o with Some s => str_truthy s | None => false end.

(** ** Values

    What [json.loads] produces and what the tools exchange: [None], [bool],
    [int], [str], [list] and [dict] with string keys. A [dict] keeps its
    insertion order. *)
Inductive pyval : Type :=
| PNone
| PBool (b : bool)
| PInt (z : Z)
| PStr (s : string)
| PList (l : list pyval)
| PDict (d : list (string * pyval)).

(** A dictionary is the list of its items in insertion order. *)
Section Dict.
Context {K V : Type} (eqb : K -> K -> bool).

(** [d.get(k)], and [k in d] when only presence is asked. *)
Fixpoint get (k : K) (d : list (K * V)) : option V :=
  match d with
  | [] => None
  | (k', v) :: t => if eqb k k' then Some v else get k t
  end.

(** [d[k] = v]: an existing key keeps its place, a new one goes last. *)
Fixpoint set (k : K) (v : V) (d : list (K * V)) : list (K * V) :=
  match d with
  | [] => [(k, v)]
  | (k', v') :: t =>
      if eqb k k' then (k, v) :: t else (k', v') :: set k v t
  end.
End Dict.

Definition dict := list (string * pyval).
Definition dict_get {V : Type} := @get string V String.eqb.
Definition dict_set {V : Type} := @set string V String.eqb.

(** [bool(v)]. *)
Definition truthy (v : pyval) : bool :=
  match v with
  | PNone => false
  | PBool b => b
  | PInt z => negb (Z.eqb z 0)
  | PStr s => str_truthy s
  | PList l => match l with [] => false | _ => true end
  | PDict d => match d with [] => false | _ => true end
  end.

(** [v == s] for a string [s]. *)
Definition eq_str (v : pyval) (s : string) : bool :=
  match v with PStr s' => String.eqb s' s | _ => false end.

(** ** [int(v)]

    [None] stands for the [ValueError] or [TypeError] that [int] raises. *)

(** Whitespace that [int] strips around the digits: the six of ASCII, and
    the two of the Latin-1 block. The separators U+001C to U+001F, which
    [str.strip] takes off, are not among them. *)
Definition is_space (c : ascii) : bool :=
  let n := code c in
  ((9 <=? n) && (n <=? 13)) || (n =? 32) || (n =? 133) || (n =? 160).

Fixpoint lstrip (s : string) : string :=
  match s with
  | String c t => if is_space c then lstrip t else s
  | EmptyString => EmptyString
  end.

Fixpoint rev_string (acc s : string) : string :=
  match s with
  | EmptyString => acc
  | String c t => rev_string (String c acc) t
  end.

Definition strip (s : string) : string :=
  rev_string "" (lstrip (rev_string "" (lstrip s))).

Definition digit (c : ascii) : option Z :=
  let n := code c in
  if (48 <=? n) && (n <=? 57) then Some (Z.of_nat (n - 48)) else None.

(** Digits with single underscores between them. [prev] tells whether the
    previous character was a digit. *)
Fixpoint digits (acc : Z) (prev : bool) (s : string) : option Z :=
  match s with
  | EmptyString => if prev then Some acc else None
  | String c t =>
      match digit c with
      | Some d => digits (acc * 10 + d) true t
      | None =>
          if (code c =? 95) && prev then digits acc false t else None
      end
  end.

(** The limit of [int] on the number of digits of a text
    ([sys.int_max_str_digits]): past it [int] raises a [ValueError]. *)
Definition int_max_str_digits : nat := 4300.

Fixpoint count_digits (s : string) : nat :=
  match s with
  | EmptyString => 0
  | String c t =>
      match digit c with
      | Some _ => S (count_digits t)
      | None => count_digits t
      end
  end.

Definition int_of_digits (t : string) : option Z :=
  if count_digits t <=? int_max_str_digits then digits 0 false t else None.

Definition int_of_str (s : string) : option Z :=
  match strip s with
  | String "-" t => option_map Z.opp (int_of_digits t)
  | String "+" t => int_of_digits t
  | t => int_of_digits t
  end.

Definition int (v : pyval) : option Z :=
  match v with
  | PInt z => Some z
  | PBool b => Some (if b then 1 else 0)%Z
  | PStr s => int_of_str s
  | PNone | PList _ | PDict _ => None
  end.

(** [isinstance(v, int)]: [bool] is a subclass of [int]. *)
Definition is_int (v : pyval) : bool :=
  match v with PInt _ | PBool _ => true | _ => false end.

(** ** [repr] of what can be a dictionary key *)

Definition hex_digit (n : nat) : ascii :=
  if n <? 10 then ascii_of_nat (48 + n) else ascii_of_nat (87 + n).

Definition printable (n : nat) : bool :=
  ((32 <=? n) && (n <=? 126)) || ((161 <=? n) && negb (n =? 173)).

(** One character of [repr(s)], inside the quote character [q]. *)
Definition repr_char (q : ascii) (c : ascii) : string :=
  let n := code c in
  if Ascii.eqb c q || (n =? 92) then String "\" (String c "")
  else if n =? 9 then "\t"
  else if n =? 10 then "\n"
  else if n =? 13 then "\r"
  else if printable n then String c ""
  else String "\" (String "x" (String (hex_digit (n / 16))
                                  (String (hex_digit (n mod 16)) ""))).

Fixpoint has_char (q : ascii) (s : string) : bool :=
  match s with
  | EmptyString => false
  | String c t => Ascii.eqb c q || has_char q t
  end.

Fixpoint repr_body (q : ascii) (s : string) : string :=
  match s with
  | EmptyString => ""
  | String c t => (repr_char q c ++ repr_body q t)%string
  end.

Definition squote : ascii := ascii_of_nat 39.
Definition dquote : ascii := ascii_of_nat 34.

(** [repr(s)]: single quotes, unless [s] has a single quote and no double
    quote. *)
Definition repr_str (s : string) : string :=
  let q := if has_char squote s && negb (has_char dquote s)
           then dquote else squote in
  String q (repr_body q s ++ String q "")%string.

Definition str_of_Z (z : Z) : string :=
  DecimalString.NilZero.string_of_int (Z.to_int z).

(** ** Exceptions

    A handler looks at an exception in two ways only: whether it is a
    [KeyError], and its [str()]. *)
Record exn : Type := Exn { is_KeyError : bool; exn_str : string }.

(** [KeyError(k)] for a string key: its [str()] is [repr(k)]. *)
Definition KeyError (k : string) : exn := Exn true (repr_str k).
Definition TypeError (msg : string) : exn := Exn false msg.
Definition ValueError (msg : string) : exn := Exn false msg.

(** What a [try] block yields: a value, or the exception it raised. *)
Inductive result (A : Type) : Type :=
| Ok (a : A)
| Raise (e : exn).
Arguments Ok {A} a.
Arguments Raise {A} e.

(** ** [list.sort(key=..., reverse=True)]

    The sort is stable and a stable sort has one possible result, so
    insertion sort computes it. Keys are numbers; a [bool] key counts as 0
    or 1, as it does when Python compares it. *)
Section Sort.
Context {A : Type} (key : A -> nat).

Fixpoint insert_desc (x : A) (l : list A) : list A :=
  match l with
  | [] => [x]
  | y :: t => if key x <? key y then y :: insert_desc x t else x :: y :: t
  end.

Definition sort_desc (l : list A) : list A :=
  fold_right insert_desc [] l.

(** The order "larger key first, then [R]". *)
Definition lex (R : A -> A -> Prop) (x y : A) : Prop :=
  key x > key y \/ (key x = key y /\ R x y).
End Sort.

(** [sorted(l)] on strings: ascending code-point order. *)
Fixpoint insert_str (x : string) (l : list string) : list string :=
  match l with
  | [] => [x]
  | y :: t => if String.ltb y x then y :: insert_str x t else x :: y :: t
  end.

Definition sorted (l : list string) : list string :=
  fold_right insert_str [] l.

End Py.

(* ===================================================================== *)
(** * tool_pattern/tool_agent.py *)
(* ===================================================================== *)

Module ToolAgent.
Import Py.

(** One declared parameter of a tool, and the compiled signature
    ([tool.fn_signature], read back with [json.loads]). *)
Record param : Type := Param {
  p_name : string;
  p_type : string;
  p_required : bool
}.

Record signature : Type := Signature {
  sig_name : string;
  sig_description : string;
  sig_params : list param
}.

(** Modelled from the spec: the [ToolCall] of the data model, which
    [validate_arguments] of [tool_pattern/tool.py] returns; that file is
    not one of the two embedded here. *)
Record ToolCall : Type := MkToolCall {
  tc_id : nat;
  tc_name : string;
  tc_arguments : dict
}.

(** Keys of the observations of a turn: a call id, or one of the literal
    keys ["error"] and ["reminder"]. *)
Inductive okey : Type :=
| KId (n : nat)
| KStr (s : string).

Definition okey_eqb (a b : okey) : bool :=
  match a, b with
  | KId n, KId m => n =? m
  | KStr s, KStr t => String.eqb s t
  | _, _ => false
  end.

Definition observations := list (okey * pyval).
Definition obs_set : okey -> pyval -> observations -> observations :=
  set okey_eqb.
Definition obs_get : okey -> observations -> option pyval :=
  get okey_eqb.

(** A raw call block, as [json.loads] sees it: the text of the
    [JSONDecodeError] when it is not JSON, the value otherwise. *)
Inductive block : Type :=
| Malformed (msg : string)
| Parsed (v : pyval).

(** [tool_call["name"]]. *)
Definition subscript_name (tool_call : pyval) : result pyval :=
  match tool_call with
  | PDict d =>
      match dict_get "name" d with
      | Some v => Ok v
      | None => Raise (KeyError "name")
      end
  | PList _ => Raise (TypeError "list indices must be integers or slices, not str")
  | PStr _ => Raise (TypeError "string indices must be integers, not 'str'")
  | PInt _ => Raise (TypeError "'int' object is not subscriptable")
  | PBool _ => Raise (TypeError "'bool' object is not subscriptable")
  | PNone => Raise (TypeError "'NoneType' object is not subscriptable")
  end.

(** The type-check loop of [process_tool_calls]: [group_size], when not
    [None], becomes [int(value)] unless [int] raises. *)
Definition coerce_group_size (args : dict) : dict :=
  map (fun kv : string * pyval =>
         let (key, value) := kv in
         if String.eqb key "group_size" then
           match value with
           | PNone => kv
           | _ => match int value with
                  | Some z => (key, PInt z)
                  | None => kv
                  end
           end
         else kv) args.

Section Agent.
(** The world the tools act on (the database behind them). *)
Context {W : Type}.

(** [validate_arguments] of [tool_pattern/tool.py]. That file is not one of
    the two embedded here, so the function is taken as the loop calls it:
    on the call and on the signature read back from the tool, and on
    nothing else. It returns a [ToolCall] or raises. *)
Variable validate_arguments : pyval -> signature -> result ToolCall.

(** A registered tool: its name, its signature, and [tool.run] on the arguments,
    which returns or raises and may change the world either way. *)
Record Tool : Type := MkTool {
  name : string;
  fn_signature : signature;
  run_tool : dict -> W -> result pyval * W
}.

(** [{tool.name: tool for tool in self.tools}]: a later tool of the same
    name replaces an earlier one. *)
Definition tools_dict (tools : list Tool) : list (string * Tool) :=
  fold_left (fun d t => dict_set (name t) t d) tools [].

(** [if tool_name not in self.tools_dict: raise KeyError(tool_name)] then
    [self.tools_dict[tool_name]]. The registry has string keys, so no
    other value is found in it; a list or a dict cannot be hashed. *)
Definition resolve (td : list (string * Tool)) (tool_name : pyval)
  : result Tool :=
  match tool_name with
  | PStr s =>
      match dict_get s td with
      | Some t => Ok t
      | None => Raise (KeyError s)
      end
  | PInt z => Raise (Exn true (str_of_Z z))
  | PBool b => Raise (Exn true (if b then "True" else "False"))
  | PNone => Raise (Exn true "None")
  | PList _ => Raise (TypeError "unhashable type: 'list'")
  | PDict _ => Raise (TypeError "unhashable type: 'dict'")
  end.

(** The state one turn threads through its calls: the observations, the
    validated calls in the order they were printed, and the world. *)
Record turn : Type := MkTurn {
  obs : observations;
  validated : list ToolCall;
  world : W
}.

(** The two handlers of the loop body. *)
Definition tool_not_found (e : exn) : pyval :=
  PStr ("Tool '" ++ exn_str e ++ "' not found").
Definition error_message (e : exn) : pyval :=
  PStr ("Error: " ++ exn_str e).

Definition handle (e : exn) (t : turn) : turn :=
  MkTurn (obs_set (KStr "error")
                  (if is_KeyError e then tool_not_found e else error_message e)
                  (obs t))
         (validated t) (world t).

(** The body of the [for] loop of [process_tool_calls] for one block. The
    result is stored under the [id] of the validated call. *)
Definition process_tool_call (td : list (string * Tool)) (b : block)
    (t : turn) : turn :=
  match b with
  | Malformed msg => handle (ValueError msg) t
  | Parsed tool_call =>
      match subscript_name tool_call with
      | Raise e => handle e t
      | Ok tool_name =>
          match resolve td tool_name with
          | Raise e => handle e t
          | Ok tool =>
              match validate_arguments tool_call (fn_signature tool) with
              | Raise e => handle e t
              | Ok validated_tool_call =>
                  let printed := validated t ++ [validated_tool_call] in
                  let args := coerce_group_size
                                (tc_arguments validated_tool_call) in
                  match run_tool tool args (world t) with
                  | (Raise e, w) => handle e (MkTurn (obs t) printed w)
                  | (Ok r, w) =>
                      MkTurn (obs_set (KId (tc_id validated_tool_call)) r
                                      (obs t))
                             printed w
                  end
              end
          end
      end
  end.

Definition process_from (tools : list Tool) (tool_calls_content : list block)
    (t : turn) : turn :=
  fold_left (fun t b => process_tool_call (tools_dict tools) b t)
            tool_calls_content t.

(** [process_tool_calls]: the observations start empty. *)
Definition process_tool_calls (tools : list Tool)
    (tool_calls_content : list block) (w : W) : turn :=
  process_from tools tool_calls_content (MkTurn [] [] w).

(** The scan of [run] over the observations. *)
Definition reminder : pyval :=
  PDict [("message",
          PStr "IMPORTANT: No restaurants found matching these criteria. Do NOT make up restaurant information. Only suggest options based on available data in fallback_suggestions if present.")].

Definition no_results_empty (r : pyval) : bool :=
  match r with
  | PDict d =>
      match dict_get "status" d with
      | Some v => eq_str v "no_results"
      | None => false
      end
      && match dict_get "data" d with
         | Some v => negb (truthy v)
         | None => false
         end
  | _ => false
  end.

Fixpoint scan (items : observations) (o : observations) : observations :=
  match items with
  | [] => o
  | (_, r) :: rest =>
      if no_results_empty r then obs_set (KStr "reminder") reminder o
      else scan rest o
  end.

Definition add_reminder (o : observations) : observations := scan o o.

(** ** The conversation and one turn *)

Record ChatMessage : Type := Message { role : string; content : string }.

Record TagContentResult : Type := TagContent {
  tag_content : list string;
  found : bool
}.

(** The collaborators of [run]: the completion provider, the extractor of
    [utils.extraction], and the [json] library. *)
Record Env : Type := MkEnv {
  completions_create : list ChatMessage -> string;
  extract_tag_content : string -> TagContentResult;
  json_loads : string -> block;
  json_dumps : observations -> string
}.

(** The agent. [agent_tool_call_id] is [self.tool_call_id], which
    [__init__] and [run] set to 0; nothing else writes it and nothing
    reads it. *)
Record Agent : Type := MkAgent {
  tools : list Tool;
  tool_chat_history : list ChatMessage;
  agent_chat_history : list ChatMessage;
  agent_tool_call_id : nat
}.

(** The observations of a turn, once the reminder is in. *)
Definition observe (a : Agent) (content : list block) (w : W) : turn :=
  let t := process_tool_calls (tools a) content w in
  MkTurn (add_reminder (obs t)) (validated t) (world t).

(** [run(user_msg)]. [process_tool_calls] handles every exception itself
    and every value of the model can be serialised, so the [except] branch
    of [run] is not taken. *)
Definition run (env : Env) (a : Agent) (user_msg : string) (w : W)
  : string * Agent * W :=
  let tool_call_id := 0 in
  let user_prompt := Message "user" user_msg in
  let th := tool_chat_history a ++ [user_prompt] in
  let ah := agent_chat_history a ++ [user_prompt] in
  let tool_call_response := completions_create env th in
  let th := th ++ [Message "assistant" tool_call_response] in
  let tool_calls := extract_tag_content env tool_call_response in
  let '(ah, w) :=
    if found tool_calls then
      let t := observe a (map (json_loads env) (tag_content tool_calls)) w in
      (ah ++ [Message "user" ("Observation: " ++ json_dumps env (obs t))],
       world t)
    else (ah, w) in
  let response := completions_create env ah in
  (response,
   MkAgent (tools a) th (ah ++ [Message "assistant" response]) tool_call_id,
   w).
End Agent.

Arguments Tool W : clear implicits.
Arguments turn W : clear implicits.
Arguments Agent W : clear implicits.

End ToolAgent.

(* ===================================================================== *)
(** * intent_restaurant_booking.py *)
(* ===================================================================== *)

Module Foodie.
Import Py.

(** ** The database *)

(** A row of [restaurants]. *)
Module Row.
Record t : Type := Make {
  id : Z;
  name : string;
  city : string;
  address : string;
  cuisine : string;
  seating_capacity : Z;
  available_capacity : Z;
  available_reservations : list string;
  mood : string
}.
End Row.

(** A row of [reservations] (the two columns filled by the clock are left
    out). *)
Record reservation : Type := Reservation {
  reservation_id : Z;
  restaurant_id : Z;
  customer_name : string;
  contact_number : string;
  party_size : Z;
  reservation_time : string
}.

(** The conditions [get_recommendations] appends to its query, each with one
    [%s]. *)
Inductive clause : Type :=
| Capacity   (* AND available_capacity >= %s *)
| City       (* AND LOWER(city) = LOWER(%s) *)
| Cuisine    (* AND LOWER(cuisine) = LOWER(%s) *)
| Mood.      (* AND LOWER(mood) = LOWER(%s) *)

Definition clause_eqb (a b : clause) : bool :=
  match a, b with
  | Capacity, Capacity | City, City | Cuisine, Cuisine | Mood, Mood => true
  | _, _ => false
  end.

(** The statements the tools execute, with their parameters. *)
Inductive statement : Type :=
| Select (where_ : list clause) (params : list pyval)
| SelectByName (pattern : string) (city : option string)
| InsertReservation (restaurant_id : Z) (customer_name contact_number : string)
                    (party_size : Z) (reservation_time : string)
| UpdateRestaurant (new_capacity : Z) (available_reservations : list string)
                   (id : Z).

Record database : Type := Database {
  restaurants : list Row.t;
  reservations : list reservation;
  reservations_id_seq : Z
}.

(** The world of the tools: whether [get_db_connection] gives a connection
    (every statement sent over a connection then reaches the server), the
    tables, and the statements executed so far, oldest first. The
    connection commits each statement as it is run. *)
Record world : Type := World {
  connected : bool;
  db : database;
  executed : list statement
}.

(** The globals filled by [initialize_db_metadata]. A set is the list of
    its elements in iteration order; [CITY_MAPPINGS] is a dict. *)
Record catalog : Type := Catalog {
  AVAILABLE_CITIES : list string;
  AVAILABLE_CUISINES : list string;
  AVAILABLE_MOODS : list string;
  CITY_MAPPINGS : list (string * string)
}.

(** Code that runs against the connection: it returns or raises, and
    changes the world either way. *)
Definition M (A : Type) : Type := world -> result A * world.

Definition ret {A : Type} (a : A) : M A := fun w => (Ok a, w).

Definition bind {A B : Type} (m : M A) (k : A -> M B) : M B :=
  fun w => match m w with
           | (Ok a, w') => k a w'
           | (Raise e, w') => (Raise e, w')
           end.

Notation "x <- m ;; k" := (bind m (fun x => k))
  (at level 61, m at next level, right associativity).

(** Does the parameter have the type the clause compares with? The server
    rejects the statement otherwise. *)
Definition well_typed (c : clause) (p : pyval) : bool :=
  match c, p with
  | Capacity, PInt _ => true
  | (City | Cuisine | Mood), PStr _ => true
  | _, _ => false
  end.

(** Does the row pass the clause? [LOWER] is taken to agree with
    [str.lower]. *)
Definition holds (r : Row.t) (cp : clause * pyval) : bool :=
  match cp with
  | (Capacity, PInt g) => (g <=? Row.available_capacity r)%Z
  | (City, PStr s) => String.eqb (lower (Row.city r)) (lower s)
  | (Cuisine, PStr s) => String.eqb (lower (Row.cuisine r)) (lower s)
  | (Mood, PStr s) => String.eqb (lower (Row.mood r)) (lower s)
  | _ => false
  end.

(** [LOWER(name) LIKE LOWER(pattern)] on lowered strings: [%] is any run of
    characters, [_] any one character, a backslash takes the next character
    literally. *)
Fixpoint like (pattern : string) : string -> bool :=
  match pattern with
  | EmptyString => fun text => match text with EmptyString => true | _ => false end
  | String c rest =>
      if Ascii.eqb c "%" then
        fix any (text : string) : bool :=
          like rest text
          || match text with
             | EmptyString => false
             | String _ text' => any text'
             end
      else if Ascii.eqb c "_" then
        fun text => match text with
                    | EmptyString => false
                    | String _ text' => like rest text'
                    end
      else if Ascii.eqb c "\" then
        match rest with
        | EmptyString => fun _ => false
        | String c' rest' =>
            fun text => match text with
                        | EmptyString => false
                        | String a text' => Ascii.eqb a c' && like rest' text'
                        end
        end
      else
        fun text => match text with
                    | EmptyString => false
                    | String a text' => Ascii.eqb a c && like rest text'
                    end
  end.

Definition driver_error : exn := Exn false "database error".

(** The driver refuses a text that holds the character NUL: [cur.execute]
    raises a [ValueError] when it adapts the parameters, before it fills
    the [%s] and before anything reaches the server. *)
Definition nul_free (s : string) : bool := negb (has_char zero s).

Definition sendable (p : pyval) : bool :=
  match p with
  | PStr s => nul_free s
  | _ => true
  end.

Definition nul_error : exn :=
  ValueError "A string literal cannot contain NUL (0x00) characters.".

(** [cur.execute(...)] followed by [cur.fetchall()], rows in table order.
    A statement with a parameter the driver refuses raises; so does one
    whose parameters do not fill its [%s] one for one, or have the wrong
    type. *)
Definition select_rows (where_ : list clause) (params : list pyval)
    (d : database) : result (list Row.t) :=
  if negb (forallb sendable params) then Raise nul_error
  else if (List.length where_ =? List.length params)
          && forallb (fun cp => well_typed (fst cp) (snd cp))
                     (combine where_ params)
  then Ok (filter (fun r => forallb (holds r) (combine where_ params))
                  (restaurants d))
  else Raise driver_error.

Definition log (s : statement) (w : world) : world :=
  World (connected w) (db w) (executed w ++ [s]).

Definition execute_select (where_ : list clause) (params : list pyval)
  : M (list Row.t) :=
  fun w => (select_rows where_ params (db w), log (Select where_ params) w).

(** The lookup of [book_restaurant] and [get_restaurant_details], followed
    by [cur.fetchone()]. *)
Definition name_matches (pattern : string) (city : option string) (r : Row.t)
  : bool :=
  like (lower pattern) (lower (Row.name r))
  && match city with
     | Some c => String.eqb (lower (Row.city r)) (lower c)
     | None => true
     end.

Definition execute_select_by_name (pattern : string) (city : option string)
  : M (option Row.t) :=
  fun w =>
    (if nul_free pattern
        && match city with Some c => nul_free c | None => true end
     then Ok (find (name_matches pattern city) (restaurants (db w)))
     else Raise nul_error,
     log (SelectByName pattern city) w).

(** The column types of the two tables: an [INTEGER] holds 32 bits; a
    [VARCHAR(n)] takes a longer text only when what exceeds [n] characters
    is spaces, which it cuts off. *)
Definition int4 (z : Z) : bool :=
  (-2147483648 <=? z)%Z && (z <=? 2147483647)%Z.

Fixpoint spaces (s : string) : bool :=
  match s with
  | EmptyString => true
  | String c t => Ascii.eqb c " " && spaces t
  end.

Definition varchar (n : nat) (s : string) : option string :=
  if String.length s <=? n then Some s
  else if spaces (String.substring n (String.length s - n) s)
       then Some (String.substring 0 n s)
       else None.

(** [INSERT INTO reservations ... RETURNING id]; the driver refuses a text
    with a NUL, and the statement fails when a value does not fit its
    column. *)
Definition execute_insert (restaurant_id : Z) (customer_name contact_number : string)
    (party_size : Z) (reservation_time : string) : M Z :=
  fun w =>
    let d := db w in
    let new_id := reservations_id_seq d in
    let w' := log (InsertReservation restaurant_id customer_name
                                     contact_number party_size
                                     reservation_time) w in
    if negb (nul_free customer_name && nul_free contact_number
             && nul_free reservation_time)
    then (Raise nul_error, w')
    else
      match varchar 255 customer_name, varchar 20 contact_number,
            varchar 20 reservation_time, int4 party_size with
      | Some customer, Some contact, Some time, true =>
          (Ok new_id,
           World (connected w')
                 (Database (restaurants d)
                           (reservations d
                            ++ [Reservation new_id restaurant_id customer
                                            contact party_size time])
                           (new_id + 1))
                 (executed w'))
      | _, _, _, _ => (Raise driver_error, w')
      end.

(** [UPDATE restaurants SET available_capacity = %s,
    available_reservations = %s WHERE id = %s]. *)
Definition update_row (new_capacity : Z) (slots : list string) (id : Z)
    (r : Row.t) : Row.t :=
  if (Row.id r =? id)%Z then
    Row.Make (Row.id r) (Row.name r) (Row.city r) (Row.address r)
             (Row.cuisine r) (Row.seating_capacity r) new_capacity slots
             (Row.mood r)
  else r.

(** The table after the update. The server writes the new version of a
    row behind the rows of the table, and a query without [ORDER BY], as
    all the queries of the tools are, reads the rows in that order: the
    rows that stay as they are keep their order, the updated ones follow.
    The slots sent are texts read from the table, which holds no NUL. *)
Definition update_table (new_capacity : Z) (slots : list string) (id : Z)
    (rows : list Row.t) : list Row.t :=
  filter (fun r => negb (Row.id r =? id)%Z) rows
  ++ map (update_row new_capacity slots id)
         (filter (fun r => (Row.id r =? id)%Z) rows).

Definition execute_update (new_capacity : Z) (slots : list string) (id : Z)
  : M unit :=
  fun w =>
    let d := db w in
    let w' := log (UpdateRestaurant new_capacity slots id) w in
    if int4 new_capacity then
      (Ok tt,
       World (connected w')
             (Database (update_table new_capacity slots id (restaurants d))
                       (reservations d) (reservations_id_seq d))
             (executed w'))
    else (Raise driver_error, w').

(** ** Normalisation against the catalog *)

Definition normalize_city (cat : catalog) (city : option string)
  : option string :=
  match city with
  | None => None
  | Some c =>
      if negb (str_truthy c) then None
      else
        let city_lower := lower c in
        match dict_get city_lower (CITY_MAPPINGS cat) with
        | Some mapped => Some mapped
        | None =>
            match find (fun vm : string * string =>
                          contains (fst vm) city_lower
                          || contains city_lower (fst vm))
                       (CITY_MAPPINGS cat) with
            | Some (_, mapped_city) => Some mapped_city
            | None => Some c
            end
        end
  end.

Definition normalize_cuisine (cat : catalog) (cuisine : option string)
  : option string :=
  match cuisine with
  | None => None
  | Some c =>
      if negb (str_truthy c) then None
      else
        let cuisine_lower := lower c in
        if str_in cuisine_lower (AVAILABLE_CUISINES cat) then Some cuisine_lower
        else
          match find (fun db_cuisine =>
                        contains cuisine_lower db_cuisine
                        || contains db_cuisine cuisine_lower)
                     (AVAILABLE_CUISINES cat) with
          | Some db_cuisine => Some db_cuisine
          | None => Some c
          end
  end.

(** ** get_recommendations *)

Definition mood_mapping : list (string * string) :=
  [("date", "romantic");
   ("business", "sophisticated");
   ("family", "casual");
   ("friends", "casual");
   ("celebration", "lively")].

(** The loop over [mood_mapping.items()], with its [break]. *)
Definition derive_mood (occasion : option string) : option string :=
  match occasion with
  | None => None
  | Some o =>
      if negb (str_truthy o) then None
      else option_map snd
             (find (fun kv : string * string => contains (fst kv) (lower o))
                   mood_mapping)
  end.

(** Why a tool answers with status [error]. *)
Inductive failure : Type :=
| ConnectionError
| InvalidGroupSize (group_size : pyval)
| Exception (e : exn).

Record query_params : Type := QueryParams {
  qp_city : option string;
  qp_normalized_city : option string;
  qp_occasion : option string;
  qp_derived_mood : option string;
  qp_cuisine_preference : option string;
  qp_normalized_cuisine : option string;
  qp_group_size : pyval
}.

(** [normalization_info]: the (original, normalized) pair of the city and
    of the cuisine, when normalisation changed them; the source turns an
    empty dict into [None]. *)
Record normalization : Type := Normalization {
  norm_city : option (string * string);
  norm_cuisine : option (string * string)
}.

Record fallback : Type := Fallback {
  available_cuisines : list string;
  city_restaurant_count : nat
}.

(** The three shapes of dict [get_recommendations] returns. *)
Inductive recommendation : Type :=
| RecError (f : failure)
| InsufficientInfo (available_cities : list string)
| Recommendations (status : string) (count : nat) (qp : query_params)
                  (normalization_info : normalization)
                  (fallback_suggestions : option fallback)
                  (data : list Row.t).

Definition rec_status (r : recommendation) : string :=
  match r with
  | RecError _ => "error"
  | InsufficientInfo _ => "insufficient_info"
  | Recommendations status _ _ _ _ _ => status
  end.

(** The conversion at the head of the [try] block; [None] when [int]
    raises. *)
Definition coerce_group_size (group_size : pyval) : option pyval :=
  match group_size with
  | PNone => Some PNone
  | _ => if is_int group_size then Some group_size
         else option_map PInt (int group_size)
  end.

Definition is_None (v : pyval) : bool :=
  match v with PNone => true | _ => false end.

Definition opt_clause (c : clause) (o : option string) : list clause :=
  if opt_truthy o then [c] else [].

Definition opt_param (o : option string) : list pyval :=
  match o with
  | Some s => if str_truthy s then [PStr s] else []
  | None => []
  end.

(** [p != s], for a string [s] that is set; nothing is dropped when it is
    not. *)
Definition differs (o : option string) (p : pyval) : bool :=
  match o with
  | Some s => negb (eq_str p s)
  | None => true
  end.

Definition drop_clause (c : clause) (query : list clause) : list clause :=
  filter (fun c' => negb (clause_eqb c' c)) query.

Definition empty {A : Type} (l : list A) : bool :=
  match l with [] => true | _ => false end.

(** The three sorts that close the search. *)
Definition slots (x : Row.t) : nat := List.length (Row.available_reservations x).

Definition mood_matches (mood : string) (x : Row.t) : bool :=
  String.eqb (lower (Row.mood x)) (lower mood).

Definition cuisine_matches (cuisine : string) (x : Row.t) : bool :=
  String.eqb (lower (Row.cuisine x)) (lower cuisine).

Definition rank (mood normalized_cuisine : option string)
    (result_data : list Row.t) : list Row.t :=
  if empty result_data then result_data
  else
    let d := sort_desc slots result_data in
    let d := match mood with
             | Some m => if str_truthy m
                         then sort_desc (fun x => Nat.b2n (mood_matches m x)) d
                         else d
             | None => d
             end in
    match normalized_cuisine with
    | Some c => if str_truthy c
                then sort_desc (fun x => Nat.b2n (cuisine_matches c x)) d
                else d
    | None => d
    end.

(** [sorted(list(available_city_cuisines))]. *)
Definition city_cuisines (city_restaurants : list Row.t) : list string :=
  sorted (nodup string_dec
            (map (fun r => lower (Row.cuisine r))
                 (filter (fun r => str_truthy (Row.cuisine r)) city_restaurants))).

Definition normalization_of (city normalized_city cuisine normalized_cuisine
                             : option string) : normalization :=
  let changed (original normalized : option string) :=
    match original, normalized with
    | Some o, Some n =>
        if str_truthy o && str_truthy n && negb (String.eqb (lower o) n)
        then Some (o, n) else None
    | _, _ => None
    end in
  Normalization (changed city normalized_city)
                (changed cuisine normalized_cuisine).

(** The part of the [try] block that talks to the database. *)
Definition search (city occasion cuisine_preference : option string)
    (group_size : pyval) (normalized_city normalized_cuisine : option string)
  : M recommendation :=
  let mood := derive_mood occasion in
  let query :=
    (if is_None group_size then [] else [Capacity])
    ++ opt_clause City normalized_city
    ++ opt_clause Cuisine normalized_cuisine
    ++ opt_clause Mood mood in
  let params :=
    (if is_None group_size then [] else [group_size])
    ++ opt_param normalized_city
    ++ opt_param normalized_cuisine
    ++ opt_param mood in
  restaurants <- execute_select query params ;;
  restaurants <-
    (if empty restaurants && opt_truthy mood then
       execute_select (drop_clause Mood query) (filter (differs mood) params)
     else ret restaurants) ;;
  restaurants <-
    (if empty restaurants && opt_truthy normalized_cuisine then
       if opt_truthy mood then
         execute_select (drop_clause Mood (drop_clause Cuisine query))
                        (filter (fun p => differs mood p
                                          && differs normalized_cuisine p)
                                params)
       else
         execute_select (drop_clause Cuisine query)
                        (filter (differs normalized_cuisine) params)
     else ret restaurants) ;;
  fallback_suggestions <-
    (if empty restaurants && opt_truthy normalized_city then
       city_restaurants <- execute_select [City] (opt_param normalized_city) ;;
       ret (Some (Fallback (city_cuisines city_restaurants)
                           (List.length city_restaurants)))
     else ret None) ;;
  let result_data := rank mood normalized_cuisine restaurants in
  ret (Recommendations
         (if empty result_data then "no_results" else "success")
         (List.length result_data)
         (QueryParams city normalized_city occasion mood cuisine_preference
                      normalized_cuisine group_size)
         (normalization_of city normalized_city
                           cuisine_preference normalized_cuisine)
         fallback_suggestions
         (firstn 5 result_data)).

Definition get_recommendations (cat : catalog)
    (city occasion cuisine_preference : option string) (group_size : pyval)
    (w : world) : recommendation * world :=
  if negb (connected w) then (RecError ConnectionError, w)
  else
    match coerce_group_size group_size with
    | None => (RecError (InvalidGroupSize group_size), w)
    | Some group_size =>
        let normalized_city :=
          if opt_truthy city then normalize_city cat city else None in
        let normalized_cuisine :=
          if opt_truthy cuisine_preference
          then normalize_cuisine cat cuisine_preference else None in
        if negb (opt_truthy normalized_city) then
          (InsufficientInfo (firstn 10 (sorted (AVAILABLE_CITIES cat))), w)
        else
          match search city occasion cuisine_preference group_size
                       normalized_city normalized_cuisine w with
          | (Ok r, w') => (r, w')
          | (Raise e, w') => (RecError (Exception e), w')
          end
    end.

(** ** book_restaurant *)

(** [l.remove(x)]: the first occurrence goes. The source calls it only
    after [x in l] held. *)
Fixpoint remove_first (x : string) (l : list string) : list string :=
  match l with
  | [] => []
  | y :: t => if String.eqb y x then t else y :: remove_first x t
  end.

Record confirmation : Type := Confirmation {
  confirmation_id : Z;
  conf_restaurant_id : Z;
  conf_restaurant_name : string;
  conf_address : string;
  conf_city : string;
  conf_time : string;
  conf_party_size : Z;
  conf_customer_name : string;
  conf_contact_number : string
}.

(** The shapes of dict [book_restaurant] returns (the date of the
    confirmation, read from the clock, is left out). *)
Inductive booking : Type :=
| Incomplete (missing_fields : list string)
| BookingError (f : failure)
| NotFound
| UnavailableTime (available_times : list string)
| InsufficientCapacity (available_capacity requested_size : Z)
| Success (data : confirmation).

Definition booking_status (b : booking) : string :=
  match b with
  | Incomplete _ => "incomplete"
  | BookingError _ => "error"
  | NotFound => "not_found"
  | UnavailableTime _ => "unavailable_time"
  | InsufficientCapacity _ _ => "insufficient_capacity"
  | Success _ => "success"
  end.

Definition when (b : bool) (field : string) : list string :=
  if b then [field] else [].

Definition text (o : option string) : string :=
  match o with Some s => s | None => "" end.

(** The checks at the head of [book_restaurant]. *)
Definition booking_missing_fields (restaurant_name reservation_time : option string)
    (party_size : pyval) (customer_name contact_number : option string)
  : list string :=
  when (negb (opt_truthy restaurant_name)) "restaurant name"
  ++ when (negb (opt_truthy reservation_time)) "reservation time"
  ++ when (negb (truthy party_size)) "party size"
  ++ when (match int party_size with Some _ => false | None => true end)
          "valid party size (must be a number)"
  ++ when (negb (opt_truthy customer_name)) "customer name"
  ++ when (negb (opt_truthy contact_number)) "contact number".

(** The [try] block of [book_restaurant], once the fields are there. *)
Definition book (cat : catalog) (restaurant_name reservation_time : string)
    (party_size : Z) (customer_name contact_number : string)
    (city : option string) : M booking :=
  let normalized_city :=
    if opt_truthy city then normalize_city cat city else None in
  restaurant <-
    execute_select_by_name ("%" ++ restaurant_name ++ "%")%string
                           (if opt_truthy normalized_city
                            then normalized_city else None) ;;
  match restaurant with
  | None => ret NotFound
  | Some restaurant =>
      if negb (str_in reservation_time (Row.available_reservations restaurant))
      then ret (UnavailableTime (Row.available_reservations restaurant))
      else if (Row.available_capacity restaurant <? party_size)%Z
      then ret (InsufficientCapacity (Row.available_capacity restaurant)
                                     party_size)
      else
        reservation_id <-
          execute_insert (Row.id restaurant) customer_name contact_number
                         party_size reservation_time ;;
        let new_capacity := (Row.available_capacity restaurant - party_size)%Z in
        let available_reservations :=
          remove_first reservation_time
                       (Row.available_reservations restaurant) in
        _ <- execute_update new_capacity available_reservations
                            (Row.id restaurant) ;;
        ret (Success (Confirmation reservation_id (Row.id restaurant)
                        (Row.name restaurant) (Row.address restaurant)
                        (Row.city restaurant) reservation_time party_size
                        customer_name contact_number))
  end.

Definition book_restaurant (cat : catalog)
    (restaurant_name reservation_time : option string) (party_size : pyval)
    (customer_name contact_number city : option string) (w : world)
  : booking * world :=
  match booking_missing_fields restaurant_name reservation_time party_size
                               customer_name contact_number,
        int party_size with
  | [], Some party_size =>
      if negb (connected w) then (BookingError ConnectionError, w)
      else
        match book cat (text restaurant_name) (text reservation_time)
                   party_size (text customer_name) (text contact_number)
                   city w with
        | (Ok b, w') => (b, w')
        | (Raise e, w') => (BookingError (Exception e), w')
        end
  | missing_fields, _ => (Incomplete missing_fields, w)
  end.

(** ** validate_booking_info *)

Record validation : Type := Validation {
  v_status : string;
  v_missing_fields : list string;
  v_provided_fields : dict
}.

(** [party_size] as it stands after the check: converted when it is set and
    [int] accepts it, [None] when it is set and [int] raises, untouched when
    it is not set. *)
Definition checked_party_size (party_size : pyval) : pyval :=
  if truthy party_size then
    match int party_size with
    | Some z => PInt z
    | None => PNone
    end
  else party_size.

Definition of_opt (o : option string) : pyval :=
  match o with Some s => PStr s | None => PNone end.

Definition validate_booking_info
    (restaurant_name reservation_time : option string) (party_size : pyval)
    (customer_name contact_number city : option string) : validation :=
  let missing_fields :=
    when (negb (opt_truthy restaurant_name)) "restaurant_name"
    ++ when (negb (opt_truthy reservation_time)) "reservation_time"
    ++ (if negb (truthy party_size) then ["party_size"]
        else when (match int party_size with Some _ => false | None => true end)
                  "valid_party_size")
    ++ when (negb (opt_truthy customer_name)) "customer_name"
    ++ when (negb (opt_truthy contact_number)) "contact_number"
    ++ when (negb (opt_truthy city)) "city" in
  let provided_fields :=
    [("restaurant_name", of_opt restaurant_name);
     ("reservation_time", of_opt reservation_time);
     ("party_size", checked_party_size party_size);
     ("customer_name", of_opt customer_name);
     ("contact_number", of_opt contact_number);
     ("city", of_opt city)] in
  Validation (if empty missing_fields then "complete" else "missing_fields")
             missing_fields
             (filter (fun kv => negb (is_None (snd kv))) provided_fields).

(** The tool as the agent runs it, in a world it neither reads nor
    changes. *)
Definition validate_booking_info_tool
    (restaurant_name reservation_time : option string) (party_size : pyval)
    (customer_name contact_number city : option string) (w : world)
  : validation * world :=
  (validate_booking_info restaurant_name reservation_time party_size
                         customer_name contact_number city, w).

(** ** search_restaurants *)

Record search_params : Type := SearchParams {
  sp_city : option string;
  sp_normalized_city : option string;
  sp_cuisine : option string;
  sp_normalized_cuisine : option string;
  sp_mood : option string
}.

(** The two shapes of dict [search_restaurants] returns. *)
Inductive search_answer : Type :=
| SearchError (f : failure)
| Found (count : nat) (qp : search_params)
        (normalization_info : normalization) (data : list Row.t).

Definition search_status (a : search_answer) : string :=
  match a with
  | SearchError _ => "error"
  | Found _ _ _ _ => "success"
  end.

Definition search_restaurants (cat : catalog)
    (city cuisine mood : option string) (w : world) : search_answer * world :=
  if negb (connected w) then (SearchError ConnectionError, w)
  else
    let normalized_city :=
      if opt_truthy city then normalize_city cat city else None in
    let normalized_cuisine :=
      if opt_truthy cuisine then normalize_cuisine cat cuisine else None in
    let query :=
      opt_clause City normalized_city
      ++ opt_clause Cuisine normalized_cuisine
      ++ opt_clause Mood mood in
    let params :=
      opt_param normalized_city
      ++ opt_param normalized_cuisine
      ++ opt_param mood in
    match execute_select query params w with
    | (Ok result_data, w') =>
        (Found (List.length result_data)
               (SearchParams city normalized_city cuisine normalized_cuisine
                             mood)
               (normalization_of city normalized_city
                                 cuisine normalized_cuisine)
               result_data,
         w')
    | (Raise e, w') => (SearchError (Exception e), w')
    end.

(** ** get_restaurant_details *)

(** A value inside an f-string: [None] prints as its name. *)
Definition fstr (o : option string) : string :=
  match o with Some s => s | None => "None" end.

Inductive details_answer : Type :=
| DetailsError (f : failure)
| DetailsNotFound (restaurant_name city normalized_city : option string)
| Details (restaurant_name city normalized_city : option string)
          (data : Row.t).

Definition details_status (a : details_answer) : string :=
  match a with
  | DetailsError _ => "error"
  | DetailsNotFound _ _ _ => "not_found"
  | Details _ _ _ _ => "success"
  end.

Definition get_restaurant_details (cat : catalog)
    (restaurant_name city : option string) (w : world)
  : details_answer * world :=
  if negb (connected w) then (DetailsError ConnectionError, w)
  else
    let normalized_city :=
      if opt_truthy city then normalize_city cat city else None in
    match execute_select_by_name
            ("%" ++ fstr restaurant_name ++ "%")%string
            (if opt_truthy normalized_city then normalized_city else None)
            w with
    | (Ok None, w') =>
        (DetailsNotFound restaurant_name city normalized_city, w')
    | (Ok (Some restaurant), w') =>
        (Details restaurant_name city normalized_city restaurant, w')
    | (Raise e, w') => (DetailsError (Exception e), w')
    end.

(** ** check_reservation *)

(** A row of the join of [reservations] with [restaurants] (the time of
    creation, read from the clock, is left out). *)
Record reservation_details : Type := ReservationDetails {
  rd_id : Z;
  rd_customer_name : string;
  rd_contact_number : string;
  rd_party_size : Z;
  rd_reservation_time : string;
  rd_restaurant_name : string;
  rd_address : string;
  rd_city : string
}.

Inductive check_answer : Type :=
| CheckError (f : failure)
| ReservationNotFound (confirmation_number : Z)
| ReservationFound (data : reservation_details).

Definition check_status (a : check_answer) : string :=
  match a with
  | CheckError _ => "error"
  | ReservationNotFound _ => "not_found"
  | ReservationFound _ => "success"
  end.

(** [reservations r JOIN restaurants res ON r.restaurant_id = res.id]. *)
Definition joined (d : database) : list (reservation * Row.t) :=
  flat_map (fun r => map (pair r)
                         (filter (fun res => (Row.id res =? restaurant_id r)%Z)
                                 (restaurants d)))
           (reservations d).

(** [check_reservation], for a confirmation number that is an [int], as it
    is declared. The tool reads and writes nothing; its query, a join, is
    not one the statement log keeps. *)
Definition check_reservation (confirmation_number : Z) (w : world)
  : check_answer :=
  if negb (connected w) then CheckError ConnectionError
  else
    match find (fun rr : reservation * Row.t =>
                  (reservation_id (fst rr) =? confirmation_number)%Z)
               (joined (db w)) with
    | None => ReservationNotFound confirmation_number
    | Some (r, res) =>
        ReservationFound
          (ReservationDetails (reservation_id r) (customer_name r)
                              (contact_number r) (party_size r)
                              (reservation_time r) (Row.name res)
                              (Row.address res) (Row.city res))
    end.

(** ** progressive_restaurant_inquiry *)

Record inquiry : Type := Inquiry {
  inq_query : string;
  inq_known_info : dict;
  missing_info : list string;
  is_booking_intent : bool;
  next_field_to_ask : option string;
  can_recommend : bool
}.

Definition known (k : string) (known_info : dict) : bool :=
  match dict_get k known_info with Some _ => true | None => false end.

Definition progressive_restaurant_inquiry (query : string)
    (known_info : option dict) : inquiry :=
  let known_info :=
    match known_info with
    | Some (kv :: rest) => kv :: rest
    | _ => []
    end in
  let booking :=
    contains "book" (lower query) || contains "reservation" (lower query) in
  let missing_info :=
    when (negb (known "city" known_info)) "city"
    ++ when (negb (known "party_size" known_info) && booking) "party_size"
    ++ when (negb (known "cuisine" known_info)) "cuisine"
    ++ when (negb (known "time" known_info) && booking) "time" in
  Inquiry query known_info missing_info booking
          (match missing_info with f :: _ => Some f | [] => None end)
          (known "city" known_info).

(** ** get_available_options *)

Record options : Type := Options {
  opt_cities : list string;
  opt_cuisines : list string;
  opt_moods : list string
}.

Definition get_available_options (cat : catalog) : options :=
  Options (sorted (AVAILABLE_CITIES cat)) (sorted (AVAILABLE_CUISINES cat))
          (sorted (AVAILABLE_MOODS cat)).

(** ** initialize_db_metadata *)

Definition city_variations : list (string * list string) :=
  [("new york", ["nyc"; "new york city"; "manhattan"]);
   ("los angeles", ["la"; "l.a."; "lax"]);
   ("san francisco", ["sf"; "san fran"]);
   ("las vegas", ["vegas"]);
   ("washington dc", ["washington d.c."; "dc"; "d.c."])].

(** [SELECT DISTINCT column FROM restaurants], lower-cased row by row. *)
Definition distinct_lower (column : Row.t -> string) (d : database)
  : list string :=
  map lower (nodup string_dec (map column (restaurants d))).

(** The two loops that fill [CITY_MAPPINGS]: every available city maps to
    itself, then the variations of the cities that are available. *)
Definition fill_city_mappings (cities : list string)
    (mappings : list (string * string)) : list (string * string) :=
  let mappings :=
    fold_left (fun m city => dict_set city city m) cities mappings in
  fold_left
    (fun m cv =>
       if str_in (fst cv) cities
       then fold_left (fun m variation => dict_set variation (fst cv) m)
                      (snd cv) m
       else m)
    city_variations mappings.

(** [initialize_db_metadata]. [set_of] gives a set as the list of its
    elements in iteration order, an order Python does not promise. Without
    a connection the globals stay as they were; [CITY_MAPPINGS] is updated
    in place. The two tables of the model exist, so the
    [CREATE TABLE IF NOT EXISTS] of [initialize_database_tables], called
    first, changes nothing. *)
Definition initialize_db_metadata (set_of : list string -> list string)
    (cat : catalog) (w : world) : catalog :=
  if negb (connected w) then cat
  else
    let cities := set_of (distinct_lower Row.city (db w)) in
    Catalog cities
            (set_of (distinct_lower Row.cuisine (db w)))
            (set_of (distinct_lower Row.mood (db w)))
            (fill_city_mappings cities (CITY_MAPPINGS cat)).

End Foodie.

(* ===================================================================== *)
(** * The read loop of main *)
(* ===================================================================== *)

Module Main.
Import Py ToolAgent.

Section Loop.
Context {W : Type}.
Variable validate_arguments : pyval -> signature -> result ToolCall.

(** The [while True] loop of [main] over the lines typed: it stops at the
    first line that is [exit] or [quit] in any letter case, and answers
    every line before it with [agent.run]. What it gives back is the
    answers printed, the agent and the world at the end. The provider of
    the model answers every request, so [run] does not raise and the
    [except] branch of the loop is not taken. *)
Fixpoint main_loop (env : Env) (a : Agent W) (lines : list string) (w : W)
  : list string * Agent W * W :=
  match lines with
  | [] => ([], a, w)
  | user_input :: rest =>
      if str_in (lower user_input) ["exit"; "quit"] then ([], a, w)
      else
        let '(response, a', w') := run validate_arguments env a user_input w in
        let '(printed, a'', w'') := main_loop env a' rest w' in
        (response :: printed, a'', w'')
  end.
End Loop.

End Main.

(* ===================================================================== *)
(** * The specification's wording, and sample data *)
(* ===================================================================== *)

Module Spec.
Import Py Foodie.

(** The mood derivation as the specification words it: the keys of the
    table are tried longest first. To be compared with
    [Foodie.derive_mood]. *)
Definition longest_first : list (string * string) :=
  sort_desc (fun kv : string * string => String.length (fst kv))
            mood_mapping.

Definition derive_mood_longest_first (occasion : option string)
  : option string :=
  match occasion with
  | None => None
  | Some o =>
      if negb (str_truthy o) then None
      else option_map snd
             (find (fun kv : string * string => contains (fst kv) (lower o))
                   longest_first)
  end.

(** The flags the ranking law speaks of: whether a row has the requested
    mood, the requested cuisine; false when none was requested. *)
Definition mood_flag (mood : option string) (x : Row.t) : bool :=
  match mood with
  | Some m => str_truthy m && mood_matches m x
  | None => false
  end.

Definition cuisine_flag (cuisine : option string) (x : Row.t) : bool :=
  match cuisine with
  | Some c => str_truthy c && cuisine_matches c x
  | None => false
  end.

(** The city the tools work with, and whether it is usable. *)
Definition resolved_city (cat : catalog) (city : option string)
  : option string :=
  if opt_truthy city then normalize_city cat city else None.

Definition usable_city (cat : catalog) (city : option string) : bool :=
  opt_truthy (resolved_city cat city).

Definition resolved_cuisine (cat : catalog) (cuisine : option string)
  : option string :=
  if opt_truthy cuisine then normalize_cuisine cat cuisine else None.

(** The city [book_restaurant] adds to its lookup, when one is usable. *)
Definition lookup_city (cat : catalog) (city : option string)
  : option string :=
  if usable_city cat city then resolved_city cat city else None.

(** The restaurant [book_restaurant] fetches: the first row whose name
    contains the given one, in the given city when one is usable. *)
Definition fetched (cat : catalog) (restaurant_name city : option string)
    (d : database) : option Row.t :=
  find (name_matches ("%" ++ text restaurant_name ++ "%")%string
                     (lookup_city cat city))
       (restaurants d).

(** Does the driver send the values of a booking, and do they fit the
    columns they go to? *)
Definition storable (customer_name contact_number reservation_time : string)
    (party_size new_capacity : Z) : bool :=
  nul_free customer_name && nul_free contact_number
  && nul_free reservation_time
  && match varchar 255 customer_name, varchar 20 contact_number,
           varchar 20 reservation_time with
     | Some _, Some _, Some _ => int4 party_size && int4 new_capacity
     | _, _, _ => false
     end.

(** Does the driver send the lookup of a restaurant by name, in the city
    when one is usable? *)
Definition sendable_lookup (cat : catalog) (restaurant_name : string)
    (city : option string) : bool :=
  nul_free restaurant_name
  && match lookup_city cat city with
     | Some c => nul_free c
     | None => true
     end.

(** ** The relaxation of the search, level by level

    A constraint is a clause with the value it compares with. *)
Definition constraint : Type := (clause * pyval)%type.

Definition capacity_constraint (group_size : pyval) : list constraint :=
  match group_size with
  | PNone => []
  | g => [(Capacity, g)]
  end.

(** The constraint on a column, when a value is set for it. *)
Definition constraint_on (c : clause) (o : option string) : list constraint :=
  match o with
  | Some s => if str_truthy s then [(c, PStr s)] else []
  | None => []
  end.

(** The rows that satisfy every constraint, and the query that asks for
    them. *)
Definition matching (d : database) (cs : list constraint) : list Row.t :=
  filter (fun r => forallb (holds r) cs) (restaurants d).

Definition query_of (cs : list constraint) : statement :=
  Select (map fst cs) (map snd cs).

(** What a search does, as the specification tells it: the queries run, in
    order; the level that produced the rows (0 full, 1 without the mood,
    2 without cuisine and mood, 3 city only); the rows returned; and the
    rows of the city, when the city-only level was reached. *)
Record relaxation : Type := Relaxation {
  trace : list statement;
  level : nat;
  produced : list Row.t;
  city_rows : option (list Row.t)
}.

Definition relax (d : database) (capacity city cuisine mood : list constraint)
  : relaxation :=
  let full := capacity ++ city ++ cuisine ++ mood in
  let no_mood := capacity ++ city ++ cuisine in
  let no_cuisine := capacity ++ city in
  if negb (empty (matching d full)) then
    Relaxation [query_of full] 0 (matching d full) None
  else
    let t1 := if empty mood then [] else [query_of no_mood] in
    let r1 := if empty mood then [] else matching d no_mood in
    if negb (empty r1) then
      Relaxation ([query_of full] ++ t1) 1 r1 None
    else
      let t2 := if empty cuisine then [] else [query_of no_cuisine] in
      let r2 := if empty cuisine then [] else matching d no_cuisine in
      if negb (empty r2) then
        Relaxation ([query_of full] ++ t1 ++ t2) 2 r2 None
      else
        Relaxation ([query_of full] ++ t1 ++ t2 ++ [query_of city]) 3 []
                   (Some (matching d city)).

(** The values compared as strings are all different: the city, the
    cuisine and the mood that are set. *)
Fixpoint all_different (l : list string) : bool :=
  match l with
  | [] => true
  | x :: t => negb (str_in x t) && all_different t
  end.

Definition present (o : option string) : list string :=
  match o with
  | Some s => if str_truthy s then [s] else []
  | None => []
  end.

Definition distinct_values (city : string) (cuisine mood : option string)
  : bool :=
  all_different ([city] ++ present cuisine ++ present mood).

(** The city and the cuisine that is set are texts the driver sends. *)
Definition texts_sendable (city : string) (cuisine : option string) : bool :=
  forallb nul_free ([city] ++ present cuisine).

(** Ascending order on strings. *)
Definition str_le (a b : string) : Prop := String.leb a b = true.

(** [x] may stand before [y]: a cuisine match first, then a mood match,
    then the larger number of open slots. *)
Definition ranked_before (mood cuisine : option string) (x y : Row.t) : Prop :=
  Nat.b2n (cuisine_flag cuisine x) > Nat.b2n (cuisine_flag cuisine y)
  \/ (Nat.b2n (cuisine_flag cuisine x) = Nat.b2n (cuisine_flag cuisine y)
      /\ (Nat.b2n (mood_flag mood x) > Nat.b2n (mood_flag mood y)
          \/ (Nat.b2n (mood_flag mood x) = Nat.b2n (mood_flag mood y)
              /\ slots x >= slots y))).

End Spec.

Module Demo.
Import Py Foodie.

Definition row (id : Z) (name city cuisine : string) (capacity : Z)
    (times : list string) (mood : string) : Row.t :=
  Row.Make id name city "1 Main St" cuisine 50 capacity times mood.

(** Three rows of one city: 2, 5 and 3 open slots; only the second is
    romantic, only the first is Italian. *)
Definition trattoria : Row.t :=
  row 1 "Trattoria" "Chicago" "Italian" 20 ["6:00 PM"; "8:00 PM"] "casual".
Definition chandelier : Row.t :=
  row 2 "Chandelier" "Chicago" "French" 10
      ["5:00 PM"; "6:00 PM"; "7:00 PM"; "8:00 PM"; "9:00 PM"] "romantic".
Definition cantina : Row.t :=
  row 3 "Cantina" "Chicago" "Mexican" 30
      ["6:00 PM"; "7:00 PM"; "7:00 PM"] "lively".

Definition chicago : database :=
  Database [trattoria; chandelier; cantina] [] 100.

(** The same city with the romantic restaurant alone, and with the casual
    one alone. *)
Definition romantic_only : database := Database [chandelier] [] 100.
Definition casual_only : database := Database [trattoria] [] 100.

Definition cat : catalog :=
  Catalog ["chicago"] ["french"; "italian"; "mexican"]
          ["casual"; "lively"; "romantic"] [("chicago", "chicago")].

Definition online (d : database) : world := World true d [].

End Demo.

Module AgentSpec.
Import Py ToolAgent.


(** How many entries a key has. *)
Definition count_key (k : okey) (o : observations) : nat :=
  List.length (filter (fun kv => okey_eqb k (fst kv)) o).



Section Blocks.
Context {W : Type}.
Variable validate_arguments : pyval -> signature -> result ToolCall.
Variable tools : list (Tool W).

(** What a block comes to before its tool runs: the tool it names and the
    call the validator makes of it, when it parses, names a registered
    tool and validates. *)
Definition checked (b : block) : option (Tool W * ToolCall) :=
  match b with
  | Malformed _ => None
  | Parsed tool_call =>
      match subscript_name tool_call with
      | Raise _ => None
      | Ok tool_name =>
          match resolve (tools_dict tools) tool_name with
          | Raise _ => None
          | Ok tool =>
              match validate_arguments tool_call (fn_signature tool) with
              | Ok v => Some (tool, v)
              | Raise _ => None
              end
          end
      end
  end.

(** The validated calls of a list of blocks: those of each block, wherever
    the block stands. *)
Definition validated_calls (content : list block) : list ToolCall :=
  flat_map (fun b => match checked b with
                     | Some (_, v) => [v]
                     | None => []
                     end) content.

(** The block, reached in the world [w], validates to a call and its tool
    returns: the call and the result. *)
Definition answer (b : block) (w : W) : option (ToolCall * pyval) :=
  match checked b with
  | Some (tool, v) =>
      match run_tool tool (coerce_group_size (tc_arguments v)) w with
      | (Ok r, _) => Some (v, r)
      | (Raise _, _) => None
      end
  | None => None
  end.

(** The world a block is reached in: the one the blocks before it leave. *)
Definition reached (pre : list block) (w : W) : W :=
  world (process_tool_calls validate_arguments tools pre w).

(** The call and the result of the block [b] that stands after the blocks
    [pre], in a turn that starts in the world [w]. *)
Definition result_of (pre : list block) (b : block) (w : W)
  : option (ToolCall * pyval) :=
  answer b (reached pre w).

(** No block of the list validates to a call with the id [k]. *)
Definition id_free (k : nat) (content : list block) : Prop :=
  Forall (fun b => forall tool v, checked b = Some (tool, v) -> tc_id v <> k)
         content.
End Blocks.

(** ** A validator for the samples *)

(** The numeric coercion section 4.3 of the specification describes: a
    string given for a parameter declared [int] is converted, and left as
    it is when the conversion fails. *)
Definition coerce_numeric (sig : signature) (args : dict) : dict :=
  map (fun kv : string * pyval =>
         let (key, value) := kv in
         if existsb (fun p => String.eqb (p_name p) key
                              && String.eqb (p_type p) "int") (sig_params sig)
         then match value with
              | PStr s => match int_of_str s with
                          | Some z => (key, PInt z)
                          | None => kv
                          end
              | _ => kv
              end
         else kv) args.

(** A validator as the loop can call one, on the call and the signature:
    the block must be an object with a string [name] and an object
    [arguments]; every required parameter must be present; numeric
    parameters are coerced; the [id] is the one the block carries, 0 when it
    carries none that is a number from 0 on. *)
Definition keeps_id (tool_call : pyval) (sig : signature) : result ToolCall :=
  match tool_call with
  | PDict d =>
      match dict_get "name" d, dict_get "arguments" d with
      | Some (PStr n), Some (PDict args) =>
          match find (fun p => p_required p
                               && match dict_get (p_name p) args with
                                  | Some _ => false
                                  | None => true
                                  end) (sig_params sig) with
          | Some p => Raise (Exn false ("Missing required argument: " ++ p_name p))
          | None =>
              Ok (MkToolCall match dict_get "id" d with
                             | Some (PInt i) => Z.to_nat i
                             | _ => 0
                             end n (coerce_numeric sig args))
          end
      | _, _ => Raise (Exn false "Malformed tool call")
      end
  | _ => Raise (Exn false "Malformed tool call")
  end.

(** ** Sample tools, on a world with nothing in it *)

Definition no_params (n : string) : signature := Signature n "" [].

(** A search that finds nothing. *)
Definition get_recommendations : Tool unit :=
  MkTool "get_recommendations" (no_params "get_recommendations")
         (fun _ w => (Ok (PDict [("status", PStr "no_results");
                                 ("count", PInt 0);
                                 ("data", PList [])]), w)).

(** A tool that answers. *)
Definition get_available_options : Tool unit :=
  MkTool "get_available_options" (no_params "get_available_options")
         (fun _ w => (Ok (PDict [("status", PStr "success");
                                 ("data", PDict [("cities", PList [])])]), w)).

(** A tool that looks a key up in a dict that lacks it. *)
Definition get_menu : Tool unit :=
  MkTool "get_menu" (no_params "get_menu")
         (fun _ w => (Raise (KeyError "menu"), w)).

Definition registry : list (Tool unit) :=
  [get_recommendations; get_available_options; get_menu].

(** The block [{name: n, arguments: {}, id: i}]. *)
Definition call (n : string) (i : Z) : block :=
  Parsed (PDict [("name", PStr n); ("arguments", PDict []); ("id", PInt i)]).

End AgentSpec.

(* ===================================================================== *)
(** * Invariants and frames of the tools *)
(* ===================================================================== *)

Module Laws.
Import Py Foodie Spec.

(** A row of the table, in the city [c], with room for the group [g] when
    that is a number. *)
Definition in_city (d : database) (c : string) (g : pyval) (r : Row.t) : Prop :=
  In r (restaurants d)
  /\ lower (Row.city r) = lower c
  /\ (forall z, g = PInt z -> (z <= Row.available_capacity r)%Z).

Definition is_select (s : statement) : Prop :=
  match s with Select _ _ | SelectByName _ _ => True | _ => False end.

(** The world [w'] is [w] after at most [at_most] statements, all of which
    only read. *)
Definition only_read (w w' : world) (at_most : nat) : Prop :=
  db w' = db w
  /\ connected w' = connected w
  /\ exists new, executed w' = executed w ++ new
                 /\ List.length new <= at_most
                 /\ Forall is_select new.

(** No character of the text is one [LIKE] reads as a wildcard or as its
    escape. *)
Definition plain_char (c : ascii) : bool :=
  negb (Ascii.eqb c "%") && negb (Ascii.eqb c "_") && negb (Ascii.eqb c "\").

Fixpoint plain (s : string) : bool :=
  match s with
  | EmptyString => true
  | String c t => plain_char c && plain t
  end.

(** The name of the row contains [n], letter case apart, and the row lies
    in the city, when one is given. *)
Definition named (n : string) (city : option string) (r : Row.t) : bool :=
  contains (lower n) (lower (Row.name r))
  && match city with
     | Some c => String.eqb (lower (Row.city r)) (lower c)
     | None => true
     end.

(** The row has the value in the column, letter case apart, when a value
    is set. *)
Definition agrees (column : Row.t -> string) (o : option string) (r : Row.t)
  : Prop :=
  forall s, o = Some s -> str_truthy s = true -> lower (column r) = lower s.

(** The texts a search sends: the city, the cuisine and the mood that are
    set. *)
Definition sent (city cuisine mood : option string) : list string :=
  present city ++ present cuisine ++ present mood.

(** The seats reserved at a restaurant, and the seats it accounts for: the
    free ones and the reserved ones. *)
Definition reserved (d : database) (id : Z) : Z :=
  fold_right (fun x acc => if (restaurant_id x =? id)%Z
                           then (party_size x + acc)%Z else acc)
             0%Z (reservations d).

Definition seats (d : database) (r : Row.t) : Z :=
  (Row.available_capacity r + reserved d (Row.id r))%Z.

(** The lookup of [book_restaurant] matches the restaurant [r] and no
    other. *)
Definition only_named (cat : catalog) (restaurant_name city : option string)
    (d : database) (r : Row.t) : Prop :=
  forall x,
    In x (restaurants d) ->
    name_matches ("%" ++ text restaurant_name ++ "%")%string
                 (lookup_city cat city) x = true ->
    Row.id x = Row.id r.

(** The two keys are primary keys: the ids of the restaurants differ, and
    every reservation has an id the sequence has passed. *)
Definition unique_ids (d : database) : Prop :=
  NoDup (map Row.id (restaurants d)).

Definition ids_issued (d : database) : Prop :=
  Forall (fun x => (reservation_id x < reservations_id_seq d)%Z)
         (reservations d).

(** A set has the elements of the list it is built from, in some order. *)
Definition keeps_elements (set_of : list string -> list string) : Prop :=
  forall l x, In x (set_of l) <-> In x l.

(** Every value of the mapping is one of the cities. *)
Definition maps_into (cities : list string) (m : list (string * string))
  : Prop :=
  Forall (fun kv => In (snd kv) cities) m.

End Laws.

Module TurnLaws.
Import Py ToolAgent.

(** What the type-check loop of [process_tool_calls] makes of a value of
    [group_size]. *)
Definition as_group_size (v : pyval) : pyval :=
  match v with
  | PNone => PNone
  | _ => match int v with Some z => PInt z | None => v end
  end.

(** The lines [main] answers: those before the first [exit] or [quit]. *)
Fixpoint processed (lines : list string) : list string :=
  match lines with
  | [] => []
  | user_input :: rest =>
      if str_in (lower user_input) ["exit"; "quit"] then []
      else user_input :: processed rest
  end.

(** A line and the reply to it, as the tool history keeps them. *)
Definition exchange (p : string * string) : list ChatMessage :=
  [Message "user" (fst p); Message "assistant" (snd p)].

(** The replies of the provider to the lines, one after the other, on the
    tool history [th]. *)
Fixpoint tool_replies (env : Env) (th : list ChatMessage)
    (lines : list string) : list string :=
  match lines with
  | [] => []
  | l :: rest =>
      let reply := completions_create env (th ++ [Message "user" l]) in
      reply :: tool_replies env (th ++ exchange (l, reply)) rest
  end.

Definition assistant (m : ChatMessage) : bool := String.eqb (role m) "assistant".

Section Session.
Context {W : Type}.
Variable validate_arguments : pyval -> signature -> result ToolCall.

(** One [run] for each line, each from where the one before left off: the
    answers, and the agent and the world at the end. *)
Fixpoint session (env : Env) (a : Agent W) (lines : list string) (w : W)
  : list string * Agent W * W :=
  match lines with
  | [] => ([], a, w)
  | l :: rest =>
      let '(response, a', w') := run validate_arguments env a l w in
      let '(printed, a'', w'') := session env a' rest w' in
      (response :: printed, a'', w'')
  end.
End Session.

End TurnLaws.

Module Samples.
Import Py ToolAgent.

(** The globals as the module sets them at import, and a set that iterates
    in the order of the list. *)
Definition at_import : Foodie.catalog := Foodie.Catalog [] [] [] [].

Definition in_order (l : list string) : list string := l.

(** A tool over the database: [search_restaurants] without arguments,
    answering with its status. *)
Definition count_rows : Tool Foodie.world :=
  MkTool "search_restaurants" (AgentSpec.no_params "search_restaurants")
         (fun _ w =>
            let (a, w') :=
              Foodie.search_restaurants Demo.cat None None None w in
            (Ok (PDict [("status", PStr (Foodie.search_status a))]), w')).

(** A provider whose every reply holds one call of that tool, and an agent
    that has it. *)
Definition scripted : Env :=
  MkEnv (fun _ => "<tool_call>search_restaurants</tool_call>")
        (fun _ => TagContent ["search_restaurants"] true)
        (fun s => AgentSpec.call s 0)
        (fun _ => "{}").

Definition concierge : Agent Foodie.world :=
  MkAgent [count_rows] [Message "system" "tools"] [] 0.

End Samples.

(* ===================================================================== *)
(** * Facts about the Python fragment *)
(* ===================================================================== *)

Module PyFacts.
Import Py.

Section SortFacts.
Context {A : Type} (key : A -> nat).

Lemma insert_desc_perm (x : A) (l : list A) :
  Permutation (insert_desc key x l) (x :: l).
Proof.
  induction l as [|y t IH]; simpl.
  - apply Permutation_refl.
  - destruct (key x <? key y).
    + eapply Permutation_trans; [apply perm_skip, IH | apply perm_swap].
    + apply Permutation_refl.
Qed.

Lemma sort_desc_perm (l : list A) : Permutation (sort_desc key l) l.
Proof.
  induction l as [|x t IH]; simpl.
  - constructor.
  - eapply Permutation_trans; [apply insert_desc_perm | now apply perm_skip].
Qed.

(** The sort is stable: rows of one key keep their order. *)
Lemma insert_desc_stable (n : nat) (x : A) (l : list A) :
  filter (fun z => key z =? n) (insert_desc key x l)
  = filter (fun z => key z =? n) (x :: l).
Proof.
  induction l as [|y t IH].
  - reflexivity.
  - cbn [insert_desc]. destruct (key x <? key y) eqn:Hlt.
    + apply Nat.ltb_lt in Hlt. cbn [filter] in *.
      rewrite IH.
      destruct (key y =? n) eqn:Hy, (key x =? n) eqn:Hx; try reflexivity.
      apply Nat.eqb_eq in Hy, Hx. lia.
    + reflexivity.
Qed.

Lemma sort_desc_stable (n : nat) (l : list A) :
  filter (fun z => key z =? n) (sort_desc key l)
  = filter (fun z => key z =? n) l.
Proof.
  induction l as [|x t IH].
  - reflexivity.
  - cbn [sort_desc fold_right]. rewrite insert_desc_stable.
    cbn [filter]. fold (sort_desc key t). now rewrite IH.
Qed.

(** Sorting on a key that does not tell the rows apart changes nothing. *)
Lemma sort_desc_const (l : list A) :
  (forall x y, key x = key y) -> sort_desc key l = l.
Proof.
  intros Hc. induction l as [|x t IH]; [reflexivity|].
  cbn [sort_desc fold_right]. fold (sort_desc key t). rewrite IH.
  destruct t as [|y t']; [reflexivity|].
  cbn [insert_desc]. rewrite (Hc x y), Nat.ltb_irrefl. reflexivity.
Qed.

(** A later sort dominates: on a list in [R]-order it yields the order
    [lex R]. *)
Lemma insert_desc_lex (R : A -> A -> Prop) (x : A) (l : list A) :
  StronglySorted (lex key R) l -> Forall (R x) l ->
  StronglySorted (lex key R) (insert_desc key x l).
Proof.
  induction l as [|y t IH]; intros Hs Hx; cbn [insert_desc].
  - repeat constructor.
  - inversion Hs as [|? ? Hst Hy]; subst.
    inversion Hx as [|? ? Hxy Hxt]; subst.
    destruct (key x <? key y) eqn:Hlt.
    + apply Nat.ltb_lt in Hlt. constructor.
      * now apply IH.
      * eapply Permutation_Forall;
          [apply Permutation_sym, insert_desc_perm|].
        constructor; [left; lia | assumption].
    + apply Nat.ltb_ge in Hlt. constructor; [assumption|].
      constructor.
      * destruct (Nat.eq_dec (key x) (key y)) as [E|E];
          [right; split; assumption | left; lia].
      * rewrite Forall_forall in *. intros z Hz.
        specialize (Hy z Hz). specialize (Hxt z Hz).
        unfold lex in *.
        destruct (Nat.eq_dec (key x) (key z)) as [E|E];
          [right; split; assumption | left; lia].
Qed.

Lemma sort_desc_lex (R : A -> A -> Prop) (l : list A) :
  StronglySorted R l -> StronglySorted (lex key R) (sort_desc key l).
Proof.
  induction l as [|x t IH]; intros Hs.
  - constructor.
  - inversion Hs as [|? ? Hst Hx]; subst.
    cbn [sort_desc fold_right]. fold (sort_desc key t).
    apply insert_desc_lex; [now apply IH|].
    eapply Permutation_Forall; [apply Permutation_sym, sort_desc_perm|].
    assumption.
Qed.
End SortFacts.

Lemma insert_str_perm (x : string) (l : list string) :
  Permutation (insert_str x l) (x :: l).
Proof.
  induction l as [|y t IH]; simpl.
  - apply Permutation_refl.
  - destruct (String.ltb y x).
    + eapply Permutation_trans; [apply perm_skip, IH | apply perm_swap].
    + apply Permutation_refl.
Qed.

Lemma sorted_perm (l : list string) : Permutation (sorted l) l.
Proof.
  induction l as [|x t IH]; simpl.
  - constructor.
  - eapply Permutation_trans; [apply insert_str_perm | now apply perm_skip].
Qed.

Lemma ltb_leb (a b : string) : String.ltb a b = true -> String.leb a b = true.
Proof.
  unfold String.ltb, String.leb. now destruct (String.compare a b).
Qed.

Lemma not_ltb_leb (a b : string) :
  String.ltb a b = false -> String.leb b a = true.
Proof.
  unfold String.ltb, String.leb. rewrite (String.compare_antisym b a).
  now destruct (String.compare a b).
Qed.

Lemma insert_str_sorted (x : string) (l : list string) :
  Sorted (fun a b => String.leb a b = true) l ->
  Sorted (fun a b => String.leb a b = true) (insert_str x l).
Proof.
  induction l as [|y t IH]; intros Hs; cbn [insert_str].
  - repeat constructor.
  - inversion Hs as [|? ? Hst Hy]; subst.
    destruct (String.ltb y x) eqn:Hlt.
    + constructor; [now apply IH|].
      destruct t as [|z t']; cbn [insert_str].
      * constructor. now apply ltb_leb.
      * destruct (String.ltb z x).
        -- inversion Hy; subst. now constructor.
        -- constructor. now apply ltb_leb.
    + constructor; [assumption|]. constructor. now apply not_ltb_leb.
Qed.

Lemma sorted_Sorted (l : list string) :
  Sorted (fun a b => String.leb a b = true) (sorted l).
Proof.
  induction l as [|x t IH]; cbn [sorted fold_right].
  - constructor.
  - now apply insert_str_sorted.
Qed.

Lemma Sorted_firstn {A : Type} (R : A -> A -> Prop) (n : nat) (l : list A) :
  Sorted R l -> Sorted R (firstn n l).
Proof.
  revert l. induction n as [|n IH]; intros l Hs; [constructor|].
  destruct l as [|x t]; [constructor|].
  inversion Hs as [|? ? Hst Hx]; subst. cbn [firstn].
  constructor; [now apply IH|].
  destruct n, t as [|y t']; cbn [firstn]; try constructor.
  now inversion Hx.
Qed.

Lemma firstn_In {A : Type} (n : nat) (l : list A) (x : A) :
  In x (firstn n l) -> In x l.
Proof.
  revert l. induction n as [|n IH]; intros [|y t] H; cbn [firstn] in H;
    try contradiction.
  destruct H as [H|H]; [now left | right; now apply IH].
Qed.

Lemma sort_desc_ext {A : Type} (k1 k2 : A -> nat) (l : list A) :
  (forall x, k1 x = k2 x) -> sort_desc k1 l = sort_desc k2 l.
Proof.
  intros H. induction l as [|x t IH]; [reflexivity|].
  cbn [sort_desc fold_right]. fold (sort_desc k1 t) (sort_desc k2 t).
  rewrite IH. generalize (sort_desc k2 t) as u.
  induction u as [|y u IHu]; [reflexivity|].
  cbn [insert_desc]. now rewrite !H, IHu.
Qed.

Lemma StronglySorted_impl {A : Type} (R S : A -> A -> Prop) (l : list A) :
  (forall x y, R x y -> S x y) -> StronglySorted R l -> StronglySorted S l.
Proof.
  intros H. induction 1 as [|x t Hs IH Hx]; constructor; [assumption|].
  eapply Forall_impl; [|exact Hx]. intros y. apply H.
Qed.

Lemma StronglySorted_True {A : Type} (l : list A) :
  StronglySorted (fun _ _ => True) l.
Proof.
  induction l; constructor; [assumption|].
  apply Forall_forall. intros. exact I.
Qed.

Lemma length_append (a b : string) :
  String.length (a ++ b)%string = String.length a + String.length b.
Proof.
  induction a as [|c a IH]; cbn; [reflexivity | now rewrite IH].
Qed.

Lemma repr_char_length (q c : ascii) : 1 <= String.length (repr_char q c).
Proof.
  unfold repr_char.
  repeat match goal with |- context [if ?b then _ else _] => destruct b end;
    cbn; lia.
Qed.

Lemma repr_body_length (q : ascii) (s : string) :
  String.length s <= String.length (repr_body q s).
Proof.
  induction s as [|c s IH]; cbn [repr_body String.length]; [lia|].
  rewrite length_append. pose proof (repr_char_length q c). lia.
Qed.

(** [repr] puts the text between quotes: it is longer by two at least. *)
Lemma repr_str_length (s : string) :
  String.length s + 2 <= String.length (repr_str s).
Proof.
  unfold repr_str. cbn [String.length]. rewrite length_append.
  cbn [String.length].
  pose proof (repr_body_length
                (if has_char squote s && negb (has_char dquote s)
                 then dquote else squote) s). lia.
Qed.

(** The fragment at work. *)
Example python_samples :
  lower "Family DINNER" = "family dinner"
  /\ contains "date" "a date night" = true
  /\ int (PStr " 1_0 ") = Some 10%Z
  /\ int (PStr "4x") = None
  /\ int (PBool true) = Some 1%Z
  /\ repr_str "foo" = "'foo'"
  /\ exn_str (KeyError "name") = "'name'"
  /\ sort_desc (fun x => x) [2; 5; 3; 5] = [5; 5; 3; 2]
  /\ sorted ["b"; "a"; "c"; "a"] = ["a"; "a"; "b"; "c"].
Proof.
  repeat split.
Qed.

(** What [int] strips is the ASCII whitespace and the two spaces of
    Latin-1; the separators U+001C to U+001F it refuses. *)
Example int_whitespace :
  int (PStr (String (ascii_of_nat 12) "42 ")) = Some 42%Z
  /\ int (PStr (String (ascii_of_nat 160) "42")) = Some 42%Z
  /\ int (PStr (String (ascii_of_nat 28) "42")) = None
  /\ int (PStr (String (ascii_of_nat 31) "42")) = None.
Proof. repeat split. Qed.

(** Past 4300 digits [int] refuses the text, whatever the digits. *)
Lemma int_of_digits_limit (t : string) :
  int_max_str_digits < count_digits t -> int_of_digits t = None.
Proof.
  intros H. unfold int_of_digits.
  destruct (count_digits t <=? int_max_str_digits) eqn:E; [|reflexivity].
  apply Nat.leb_le in E. lia.
Qed.

Example int_digit_limit :
  let ones n := string_of_list_ascii (repeat "1"%char n) in
  int (PStr (ones 4301)) = None
  /\ exists z, int (PStr (ones 4300)) = Some z.
Proof.
  split; [vm_compute; reflexivity|].
  eexists. vm_compute. reflexivity.
Qed.

End PyFacts.

(* ===================================================================== *)
(** * The ranking of get_recommendations *)
(* ===================================================================== *)

Module Ranking.
Import Py Foodie Spec PyFacts.

Lemma rank_three_sorts (mood cuisine : option string) (data : list Row.t) :
  rank mood cuisine data
  = sort_desc (fun x => Nat.b2n (cuisine_flag cuisine x))
      (sort_desc (fun x => Nat.b2n (mood_flag mood x))
         (sort_desc slots data)).
Proof.
  destruct data as [|r data]; [reflexivity|].
  unfold rank. cbn [empty].
  set (d1 := sort_desc slots (r :: data)).
  assert (Hm : match mood with
               | Some m => if str_truthy m
                           then sort_desc (fun x => Nat.b2n (mood_matches m x)) d1
                           else d1
               | None => d1
               end = sort_desc (fun x => Nat.b2n (mood_flag mood x)) d1).
  { destruct mood as [m|]; cbn [mood_flag].
    - destruct (str_truthy m); cbn [andb].
      + reflexivity.
      + symmetry. now apply sort_desc_const.
    - symmetry. now apply sort_desc_const. }
  rewrite Hm. set (d2 := sort_desc _ d1).
  destruct cuisine as [c|]; cbn [cuisine_flag].
  - destruct (str_truthy c); cbn [andb].
    + reflexivity.
    + symmetry. now apply sort_desc_const.
  - symmetry. now apply sort_desc_const.
Qed.

Lemma rank_perm (mood cuisine : option string) (data : list Row.t) :
  Permutation (rank mood cuisine data) data.
Proof.
  rewrite rank_three_sorts.
  repeat (eapply Permutation_trans; [apply sort_desc_perm|]).
  apply Permutation_refl.
Qed.

Lemma rank_sorted (mood cuisine : option string) (data : list Row.t) :
  StronglySorted (ranked_before mood cuisine) (rank mood cuisine data).
Proof.
  rewrite rank_three_sorts.
  eapply StronglySorted_impl;
    [| apply sort_desc_lex, sort_desc_lex, sort_desc_lex,
         (StronglySorted_True data)].
  unfold lex, ranked_before. intros x y H. lia.
Qed.

(** C1. For every result set, the order [get_recommendations] gives it is
    the one of three stable descending sorts run one after the other: by
    number of open slots, then by "has the requested mood", then by "has the
    requested cuisine". The result holds the same rows, and a cuisine match
    stands before a mood match, which stands before a larger slot count.
    With 2, 5 and 3 slots, the second row alone of the requested mood and
    the first alone of the requested cuisine, the cuisine match comes
    first. *)
Theorem ranking_is_three_stable_sorts :
  forall (mood cuisine : option string) (data : list Row.t),
    let by_slots := sort_desc slots data in
    let by_mood := sort_desc (fun x => Nat.b2n (mood_flag mood x)) by_slots in
    let by_cuisine :=
      sort_desc (fun x => Nat.b2n (cuisine_flag cuisine x)) by_mood in
    rank mood cuisine data = by_cuisine
    /\ Permutation (rank mood cuisine data) data
    /\ StronglySorted (ranked_before mood cuisine) (rank mood cuisine data)
    /\ (map slots [Demo.trattoria; Demo.chandelier; Demo.cantina] = [2; 5; 3]
        /\ map (mood_flag (Some "romantic"))
               [Demo.trattoria; Demo.chandelier; Demo.cantina]
           = [false; true; false]
        /\ map (cuisine_flag (Some "italian"))
               [Demo.trattoria; Demo.chandelier; Demo.cantina]
           = [true; false; false]
        /\ sort_desc slots [Demo.trattoria; Demo.chandelier; Demo.cantina]
           = [Demo.chandelier; Demo.cantina; Demo.trattoria]
        /\ rank (Some "romantic") (Some "italian")
                [Demo.trattoria; Demo.chandelier; Demo.cantina]
           = [Demo.trattoria; Demo.chandelier; Demo.cantina]).
Proof.
  intros mood cuisine data. cbv zeta.
  split; [apply rank_three_sorts|].
  split; [apply rank_perm|].
  split; [apply rank_sorted|].
  repeat split; vm_compute; reflexivity.
Qed.

End Ranking.

(* ===================================================================== *)
(** * The mood derived from the occasion *)
(* ===================================================================== *)

Module MoodFacts.
Import Py Foodie Spec.

Lemma derive_mood_find (o : string) :
  derive_mood (Some o)
  = option_map snd
      (find (fun kv : string * string => contains (fst kv) (lower o))
            mood_mapping).
Proof.
  unfold derive_mood. destruct o as [|c o]; reflexivity.
Qed.

(** C6, as the code has it. The keys are tried in the order the table
    declares them (date, business, family, friends, celebration), on the
    lower-cased occasion, and the first one contained in it gives the mood;
    an occasion that is absent or contains no key gives no mood. *)
Theorem derive_mood_declaration_order :
  forall o : string,
    let has k := contains k (lower o) in
    derive_mood None = None
    /\ derive_mood (Some o)
       = (if has "date" then Some "romantic"
          else if has "business" then Some "sophisticated"
          else if has "family" then Some "casual"
          else if has "friends" then Some "casual"
          else if has "celebration" then Some "lively"
          else None)
    /\ (derive_mood (Some o) = None
        <-> forall k m, In (k, m) mood_mapping -> has k = false).
Proof.
  intros o has. split; [reflexivity|].
  rewrite derive_mood_find. unfold mood_mapping. cbn [find fst snd option_map].
  fold (has "date") (has "business") (has "family") (has "friends")
       (has "celebration").
  split.
  - destruct (has "date"), (has "business"), (has "family"), (has "friends"),
      (has "celebration"); reflexivity.
  - split.
    + intros H k m Hin.
      destruct (has "date") eqn:H1; [discriminate|].
      destruct (has "business") eqn:H2; [discriminate|].
      destruct (has "family") eqn:H3; [discriminate|].
      destruct (has "friends") eqn:H4; [discriminate|].
      destruct (has "celebration") eqn:H5; [discriminate|].
      cbn [In] in Hin.
      repeat (destruct Hin as [Hin|Hin];
              [injection Hin as <- <-; assumption|]).
      contradiction.
    + intros H.
      rewrite (H "date" "romantic"), (H "business" "sophisticated"),
        (H "family" "casual"), (H "friends" "casual"),
        (H "celebration" "lively"); cbn [In]; auto 10.
Qed.

(** C6, as the specification words it, fails: in "family celebration" the
    longest key is "celebration", yet the code answers with the mood of
    "family", declared earlier. *)
Lemma longest_first_refuted :
  derive_mood (Some "family celebration") = Some "casual"
  /\ derive_mood_longest_first (Some "family celebration") = Some "lively"
  /\ derive_mood (Some "family celebration")
     <> derive_mood_longest_first (Some "family celebration").
Proof.
  repeat split; try (vm_compute; reflexivity).
  vm_compute. discriminate.
Qed.

End MoodFacts.

(* ===================================================================== *)
(** * get_recommendations without a usable city *)
(* ===================================================================== *)

Module CityFacts.
Import Py Foodie Spec PyFacts.

(** C5. A recommendation request (a connection at hand; a group size that
    is absent, a number or the text of a number, as the inputs of the tool
    are declared) for which no usable city is resolved is answered at once
    with [insufficient_info] and the first ten available cities in ascending
    order: no statement is executed and the world is as before, whatever
    the occasion and the cuisine. *)
Theorem no_usable_city_insufficient_info :
  forall (cat : catalog) (city occasion cuisine_preference : option string)
         (group_size : pyval) (w : world),
    connected w = true ->
    coerce_group_size group_size <> None ->
    usable_city cat city = false ->
    exists cities,
      get_recommendations cat city occasion cuisine_preference group_size w
      = (InsufficientInfo cities, w)
      /\ rec_status (InsufficientInfo cities) = "insufficient_info"
      /\ cities = firstn 10 (sorted (AVAILABLE_CITIES cat))
      /\ List.length cities <= 10
      /\ Sorted str_le cities
      /\ (forall c, In c cities -> In c (AVAILABLE_CITIES cat)).
Proof.
  intros cat city occasion cuisine_preference group_size w Hc Hg Hu.
  exists (firstn 10 (sorted (AVAILABLE_CITIES cat))).
  split.
  - unfold get_recommendations. rewrite Hc. cbn [negb].
    destruct (coerce_group_size group_size) as [g|]; [|congruence].
    unfold usable_city, resolved_city in Hu. rewrite Hu. reflexivity.
  - split; [reflexivity|]. split; [reflexivity|].
    split; [apply firstn_le_length|].
    split; [apply Sorted_firstn, sorted_Sorted|].
    intros c Hin. apply firstn_In in Hin.
    eapply Permutation_in; [apply sorted_perm | exact Hin].
Qed.

Lemma no_usable_city_witness :
  exists cities,
    get_recommendations Demo.cat None (Some "date night") (Some "italian")
                        (PStr "2") (Demo.online Demo.chicago)
    = (InsufficientInfo cities, Demo.online Demo.chicago)
    /\ rec_status (InsufficientInfo cities) = "insufficient_info"
    /\ cities = firstn 10 (sorted (AVAILABLE_CITIES Demo.cat))
    /\ List.length cities <= 10
    /\ Sorted str_le cities
    /\ (forall c, In c cities -> In c (AVAILABLE_CITIES Demo.cat)).
Proof.
  apply no_usable_city_insufficient_info;
    [reflexivity | discriminate | reflexivity].
Defined.

(** The group size is checked before the city: with a group size that is
    not a number the answer is [error], city or not. *)
Lemma group_size_checked_before_city :
  usable_city Demo.cat None = false
  /\ rec_status (fst (get_recommendations Demo.cat None None None (PStr "abc")
                                          (Demo.online Demo.chicago)))
     = "error".
Proof.
  split; reflexivity.
Qed.

End CityFacts.

(* ===================================================================== *)
(** * The relaxation of get_recommendations *)
(* ===================================================================== *)

Module RelaxFacts.
Import Py Foodie Spec PyFacts.

Lemma derive_mood_truthy (o : option string) (m : string) :
  derive_mood o = Some m -> str_truthy m = true.
Proof.
  destruct o as [o|]; [|discriminate].
  rewrite MoodFacts.derive_mood_find. unfold mood_mapping. cbn [find fst].
  repeat match goal with |- context [if ?b then _ else _] => destruct b end;
    cbn; intros H; inversion H; reflexivity.
Qed.

Lemma derive_mood_nul_free (o : option string) (m : string) :
  derive_mood o = Some m -> nul_free m = true.
Proof.
  destruct o as [o|]; [|discriminate].
  rewrite MoodFacts.derive_mood_find. unfold mood_mapping. cbn [find fst].
  repeat match goal with |- context [if ?b then _ else _] => destruct b end;
    cbn; intros H; inversion H; reflexivity.
Qed.

(** Booleans of a conjunction, one hypothesis each. *)
Ltac bools H :=
  repeat match type of H with
         | (_ && _)%bool = true =>
             let H1 := fresh "Hb" in
             apply andb_prop in H as [H1 H]; bools H1
         | negb _ = true => apply negb_true_iff in H
         | (_ || _)%bool = false =>
             let H1 := fresh "Hb" in
             apply orb_false_iff in H as [H1 H]; bools H1
         end.

(** Every known difference of two strings, read both ways. *)
Ltac both_ways :=
  repeat match goal with
         | H : (?a =? ?b)%string = false |- _ =>
             lazymatch goal with
             | _ : (b =? a)%string = false |- _ => fail
             | _ => let H' := fresh H in
                    assert (H' : (b =? a)%string = false)
                      by (rewrite String.eqb_sym; exact H)
             end
         end.

Ltac eqbs :=
  repeat match goal with
         | H : (_ =? _)%string = false |- _ => rewrite !H
         end;
  rewrite ?String.eqb_refl.

Ltac step := cbn -[rank city_cuisines firstn nul_free].

(** The texts known to hold no NUL pass the driver. *)
Ltac nuls :=
  repeat match goal with
         | H : nul_free ?s = true |- context [nul_free ?s] => rewrite !H
         end.

(** Case analysis on what each query returns. *)
Ltac levels :=
  repeat match goal with
         | |- context [empty (filter ?f ?l)] =>
             let E := fresh "Hrows" in
             destruct (filter f l) eqn:E; step; nuls; step
         end;
  repeat match goal with
         | H : filter _ _ = _ |- _ => rewrite ?H
         end;
  unfold log, query_of; step; nuls; step; rewrite <- ?app_assoc; reflexivity.

(** The string surgery of the source on its query and its parameters
    computes the levels of [relax], as long as the values are distinct. *)
Lemma search_relax (city occasion cuisine_preference : option string)
    (g : pyval) (c : string) (cu : option string) (w : world) :
  (g = PNone \/ exists z, g = PInt z) ->
  str_truthy c = true ->
  distinct_values c cu (derive_mood occasion) = true ->
  texts_sendable c cu = true ->
  let mood := derive_mood occasion in
  let rx := relax (db w) (capacity_constraint g) (constraint_on City (Some c))
                  (constraint_on Cuisine cu) (constraint_on Mood mood) in
  let result_data := rank mood cu (produced rx) in
  search city occasion cuisine_preference g (Some c) cu w
  = (Ok (Recommendations
           (if empty result_data then "no_results" else "success")
           (List.length result_data)
           (QueryParams city (Some c) occasion mood cuisine_preference cu g)
           (normalization_of city (Some c) cuisine_preference cu)
           (option_map (fun rs => Fallback (city_cuisines rs) (List.length rs))
                       (city_rows rx))
           (firstn 5 result_data)),
     World (connected w) (db w) (executed w ++ trace rx)).
Proof.
  intros Hg Hc Hd Hs mood rx result_data.
  subst result_data rx. unfold search. fold mood.
  pose proof (derive_mood_truthy occasion) as Hm.
  pose proof (derive_mood_nul_free occasion) as Hn. fold mood in Hm, Hn, Hd.
  unfold distinct_values, present in Hd.
  unfold texts_sendable, present in Hs.
  unfold relax, opt_clause, opt_param, constraint_on, capacity_constraint,
    matching, bind, execute_select, select_rows, ret, opt_truthy.
  destruct mood as [m|];
    [specialize (Hm m eq_refl); specialize (Hn m eq_refl); rewrite Hm in Hd |];
    (destruct cu as [x|]; [destruct (str_truthy x) eqn:Hx|]);
    cbn in Hd; bools Hd; both_ways;
    cbn -[nul_free] in Hs; bools Hs;
    destruct Hg as [-> | [z ->]];
    rewrite ?Hc, ?Hm; step; nuls; step; eqbs; step; levels.
Qed.

Lemma coerce_group_size_shape (group_size g : pyval) :
  coerce_group_size group_size = Some g ->
  (forall b, g <> PBool b) ->
  g = PNone \/ exists z, g = PInt z.
Proof.
  intros H Hb. destruct group_size as [|b|z|s|l|d]; cbn in H.
  - injection H as <-. now left.
  - injection H as <-. now destruct (Hb b).
  - injection H as <-. right. now exists z.
  - destruct (int_of_str s) as [z|]; [|discriminate].
    injection H as <-. right. now exists z.
  - discriminate.
  - discriminate.
Qed.

Lemma rank_empty (mood cuisine : option string) (l : list Row.t) :
  empty (rank mood cuisine l) = empty l.
Proof.
  pose proof (Ranking.rank_perm mood cuisine l) as Hp.
  destruct l as [|x t]; [reflexivity|].
  destruct (rank mood cuisine (x :: t)) eqn:E; [|reflexivity].
  apply Permutation_nil in Hp. discriminate.
Qed.

(** The city-only level is the one that returns no row. *)
Lemma level_3_iff (d : database) (capacity city cuisine mood : list constraint) :
  let rx := relax d capacity city cuisine mood in
  (level rx = 3 <-> produced rx = [])
  /\ (level rx = 3 <-> city_rows rx = Some (matching d city))
  /\ (level rx <> 3 -> city_rows rx = None).
Proof.
  unfold relax.
  destruct (matching d (capacity ++ city ++ cuisine ++ mood)) eqn:E0; cbn.
  - destruct (if empty mood then [] else matching d (capacity ++ city ++ cuisine))
      eqn:E1; cbn.
    + destruct (if empty cuisine then [] else matching d (capacity ++ city))
        eqn:E2; cbn.
      * repeat split; auto; congruence.
      * repeat split; auto; discriminate.
    + repeat split; auto; discriminate.
  - repeat split; auto; discriminate.
Qed.

(** A city or a cuisine with the character NUL in it: the driver refuses
    the first query, and nothing was read. *)
Lemma search_refused (city occasion cuisine_preference : option string)
    (g : pyval) (c : string) (cu : option string) (w : world) :
  (g = PNone \/ exists z, g = PInt z) ->
  str_truthy c = true ->
  texts_sendable c cu = false ->
  exists st,
    search city occasion cuisine_preference g (Some c) cu w
    = (Raise nul_error, World (connected w) (db w) (executed w ++ [st])).
Proof.
  intros Hg Hc Hs. unfold search, bind, execute_select, select_rows.
  pose proof (derive_mood_nul_free occasion) as Hm.
  unfold texts_sendable, present in Hs.
  assert (E : forallb sendable
                ((if is_None g then [] else [g]) ++ opt_param (Some c)
                 ++ opt_param cu ++ opt_param (derive_mood occasion)) = false).
  { rewrite !forallb_app. cbn [opt_param]. rewrite Hc.
    cbn [forallb sendable app] in Hs |- *.
    destruct (nul_free c); cbn [andb] in Hs |- *;
      [|now rewrite andb_false_r].
    destruct cu as [s|]; [|discriminate Hs]. cbn [opt_param].
    destruct (str_truthy s); [|discriminate Hs].
    cbn [forallb sendable] in Hs |- *. rewrite andb_true_r in Hs. rewrite Hs.
    cbn. now rewrite andb_false_r. }
  rewrite E. cbn [negb]. unfold log. eexists. reflexivity.
Qed.

(** C2, as the code has it. For a request with a connection, a group size
    that is absent or a number, a usable city, and city, cuisine and mood
    that are different strings. When city and cuisine are texts the driver
    sends, the queries run are those of [relax], in its
    order (the full query; without the mood, if one was derived and nothing
    was found; without cuisine and mood, if a cuisine was given and still
    nothing was found; the city alone, if still nothing was found), the
    tables are untouched, and the answer holds the first five rows of the
    level that produced any, ranked. Only the city-only level shows in the
    answer: it returns no row, its status is [no_results], and
    [fallback_suggestions] holds the cuisines and the number of restaurants
    of the city; at every other level [fallback_suggestions] is [None], and
    the mood and the cuisine of [query_params] are the requested ones
    whatever was dropped. When the city or the cuisine holds the character
    NUL, the driver refuses the first query: the answer is an error and the
    tables are untouched. *)
Theorem relaxation_order :
  forall (cat : catalog) (city occasion cuisine_preference : option string)
         (group_size g : pyval) (c : string) (w : world),
    connected w = true ->
    coerce_group_size group_size = Some g ->
    (forall b, g <> PBool b) ->
    resolved_city cat city = Some c ->
    str_truthy c = true ->
    distinct_values c (resolved_cuisine cat cuisine_preference)
                    (derive_mood occasion) = true ->
    let mood := derive_mood occasion in
    let cuisine := resolved_cuisine cat cuisine_preference in
    let rx := relax (db w) (capacity_constraint g)
                    (constraint_on City (Some c))
                    (constraint_on Cuisine cuisine)
                    (constraint_on Mood mood) in
    let answer :=
      get_recommendations cat city occasion cuisine_preference group_size w in
    (texts_sendable c cuisine = true ->
     exists count qp norm w',
       answer
       = (Recommendations
            (if level rx =? 3 then "no_results" else "success")
            count qp norm
            (option_map (fun rs => Fallback (city_cuisines rs) (List.length rs))
                        (city_rows rx))
            (firstn 5 (rank mood cuisine (produced rx))),
          w')
       /\ executed w' = executed w ++ trace rx
       /\ db w' = db w
       /\ qp_derived_mood qp = mood
       /\ qp_normalized_cuisine qp = cuisine
       /\ (level rx = 3 <-> produced rx = [])
       /\ (level rx = 3
           <-> city_rows rx = Some (matching (db w) [(City, PStr c)]))
       /\ (level rx <> 3 -> city_rows rx = None))
    /\ (texts_sendable c cuisine = false ->
        fst answer = RecError (Exception nul_error)
        /\ db (snd answer) = db w).
Proof.
  intros cat city occasion cuisine_preference group_size g c w
         Hw Hg Hb Hcity Hc Hd mood cuisine rx answer.
  pose proof (coerce_group_size_shape _ _ Hg Hb) as Hshape.
  assert (Hanswer :
            answer
            = match search city occasion cuisine_preference g (Some c) cuisine
                           w with
              | (Ok r, w') => (r, w')
              | (Raise e, w') => (RecError (Exception e), w')
              end).
  { subst answer. unfold get_recommendations. rewrite Hw, Hg. cbn [negb].
    unfold resolved_city in Hcity. rewrite Hcity.
    cbn [opt_truthy]. rewrite Hc. cbn [negb]. reflexivity. }
  split; [|intros Hn;
           destruct (search_refused city occasion cuisine_preference g c
                       cuisine w Hshape Hc Hn) as [st Hr];
           rewrite Hanswer, Hr; now split].
  intros Hn.
  pose proof (search_relax city occasion cuisine_preference g c cuisine w
                           Hshape Hc Hd Hn) as Hs.
  cbv zeta in Hs. fold mood rx in Hs.
  destruct (level_3_iff (db w) (capacity_constraint g)
                        (constraint_on City (Some c))
                        (constraint_on Cuisine cuisine)
                        (constraint_on Mood mood)) as (L1 & L2 & L3).
  fold rx in L1, L2, L3.
  eexists _, _, _, _. split.
  - rewrite Hanswer, Hs. rewrite rank_empty.
    replace (empty (produced rx)) with (level rx =? 3); [reflexivity|].
    destruct (level rx =? 3) eqn:E.
    + apply Nat.eqb_eq, L1 in E. now rewrite E.
    + apply Nat.eqb_neq in E. destruct (produced rx); [|reflexivity].
      destruct E. now apply L1.
  - cbn [executed db qp_derived_mood qp_normalized_cuisine].
    assert (E : constraint_on City (Some c) = [(City, PStr c)])
      by (unfold constraint_on; now rewrite Hc).
    rewrite <- E.
    repeat split; try tauto; apply L2.
Qed.

Lemma relaxation_order_witness :
  exists count qp norm w',
    get_recommendations Demo.cat (Some "Chicago") (Some "business lunch")
                        (Some "Thai") (PStr "4") (Demo.online Demo.chicago)
    = (Recommendations "success" count qp norm None
                       [Demo.chandelier; Demo.cantina; Demo.trattoria],
       w')
    /\ executed w'
       = [Select [Capacity; City; Cuisine; Mood]
                 [PInt 4; PStr "chicago"; PStr "Thai"; PStr "sophisticated"];
          Select [Capacity; City; Cuisine]
                 [PInt 4; PStr "chicago"; PStr "Thai"];
          Select [Capacity; City] [PInt 4; PStr "chicago"]]
    /\ db w' = Demo.chicago
    /\ qp_derived_mood qp = Some "sophisticated"
    /\ qp_normalized_cuisine qp = Some "Thai".
Proof.
  assert (Hb : forall b, PInt 4 <> PBool b) by (intros b; discriminate).
  destruct (proj1 (relaxation_order Demo.cat (Some "Chicago")
                     (Some "business lunch") (Some "Thai") (PStr "4") (PInt 4)
                     "chicago" (Demo.online Demo.chicago)
                     eq_refl eq_refl Hb eq_refl eq_refl eq_refl) eq_refl)
    as (count & qp & norm & w' & H1 & H2 & H3 & H4 & H5 & _).
  exists count, qp, norm, w'.
  split; [exact H1|]. split; [exact H2|]. split; [exact H3|].
  split; [exact H4 | exact H5].
Defined.

(** C2, as the specification words it, fails: the answer does not tell which
    level produced the rows. Asked for a date in Chicago, a table with one
    romantic restaurant answers from the full query, a table with one
    casual restaurant from the query without the mood; the two answers
    differ in the row alone: same status, same count, the same
    [query_params] with the mood still in, and no [fallback_suggestions]. *)
Lemma level_not_reported :
  let ask := get_recommendations Demo.cat (Some "Chicago") (Some "date night")
                                 None (PInt 2) in
  let qp := QueryParams (Some "Chicago") (Some "chicago") (Some "date night")
                        (Some "romantic") None None (PInt 2) in
  let norm := Normalization None None in
  let full := Select [Capacity; City; Mood]
                     [PInt 2; PStr "chicago"; PStr "romantic"] in
  let without_mood := Select [Capacity; City] [PInt 2; PStr "chicago"] in
  ask (Demo.online Demo.romantic_only)
  = (Recommendations "success" 1 qp norm None [Demo.chandelier],
     World true Demo.romantic_only [full])
  /\ ask (Demo.online Demo.casual_only)
     = (Recommendations "success" 1 qp norm None [Demo.trattoria],
        World true Demo.casual_only [full; without_mood]).
Proof.
  split; vm_compute; reflexivity.
Qed.

(** The values are compared, not the positions: when the cuisine asked for
    is the very word of the derived mood, dropping the mood drops the
    cuisine parameter as well and the second query fails. *)
Lemma relaxation_fails_on_equal_values :
  distinct_values "chicago" (resolved_cuisine Demo.cat (Some "casual"))
                  (derive_mood (Some "family dinner")) = false
  /\ get_recommendations Demo.cat (Some "Chicago") (Some "family dinner")
                         (Some "casual") PNone (Demo.online Demo.chicago)
     = (RecError (Exception driver_error),
        World true Demo.chicago
              [Select [City; Cuisine; Mood]
                      [PStr "chicago"; PStr "casual"; PStr "casual"];
               Select [City; Cuisine] [PStr "chicago"]]).
Proof.
  split; vm_compute; reflexivity.
Qed.

End RelaxFacts.

(* ===================================================================== *)
(** * book_restaurant *)
(* ===================================================================== *)

Module BookingFacts.
Import Py Foodie Spec PyFacts.

Lemma str_in_In (x : string) (l : list string) :
  str_in x l = true <-> In x l.
Proof.
  unfold str_in. rewrite existsb_exists. split.
  - intros (y & Hy & E). apply String.eqb_eq in E. now subst.
  - intros H. exists x. split; [assumption | apply String.eqb_refl].
Qed.

(** [remove_first] takes out the first occurrence and nothing else. *)
Lemma remove_first_spec (x : string) (l : list string) :
  In x l ->
  exists before after,
    l = before ++ x :: after
    /\ ~ In x before
    /\ remove_first x l = before ++ after.
Proof.
  induction l as [|y t IH]; intros Hin; [contradiction|].
  cbn [remove_first]. destruct (String.eqb y x) eqn:E.
  - apply String.eqb_eq in E. subst y.
    exists [], t. repeat split. intros [].
  - apply String.eqb_neq in E.
    destruct Hin as [Hin|Hin]; [congruence|].
    destruct (IH Hin) as (b & a & -> & Hnot & Hr).
    exists (y :: b), a. cbn. rewrite Hr. repeat split.
    intros [H|H]; [congruence | contradiction].
Qed.

(** With no field missing the party size is a number. *)
Lemma missing_fields_nil_int
    (restaurant_name reservation_time : option string) (party_size : pyval)
    (customer_name contact_number : option string) :
  booking_missing_fields restaurant_name reservation_time party_size
                         customer_name contact_number = [] ->
  exists P, int party_size = Some P.
Proof.
  unfold booking_missing_fields, when. intros H.
  destruct (int party_size) as [P|]; [now exists P|].
  repeat match type of H with
         | context [if ?b then _ else _] => destruct b
         end; discriminate.
Qed.

Ltac absurd_case :=
  solve [ match goal with H : _ = _ |- _ => discriminate H end
        | contradiction
        | lia ].

Lemma has_char_append (q : ascii) (a b : string) :
  has_char q (a ++ b) = has_char q a || has_char q b.
Proof.
  induction a as [|c a IH]; cbn; [reflexivity|].
  now rewrite IH, orb_assoc.
Qed.

(** The pattern of a lookup holds a NUL when the name does. *)
Lemma nul_free_pattern (s : string) :
  nul_free ("%" ++ s ++ "%") = nul_free s.
Proof.
  unfold nul_free. rewrite !has_char_append. cbn.
  now rewrite orb_false_r.
Qed.

(** The table after an update has the rows of the table, the updated ones
    in their new state. *)
Lemma update_table_perm (cap : Z) (sl : list string) (id : Z)
    (rows : list Row.t) :
  Permutation (update_table cap sl id rows) (map (update_row cap sl id) rows).
Proof.
  unfold update_table. induction rows as [|x t IH]; [constructor|].
  cbn [filter map].
  destruct (Row.id x =? id)%Z eqn:E; cbn [negb app map].
  - apply Permutation_sym.
    eapply Permutation_trans; [|apply Permutation_middle].
    apply perm_skip, Permutation_sym. exact IH.
  - replace (update_row cap sl id x) with x
      by (unfold update_row; now rewrite E).
    now apply perm_skip.
Qed.

(** C4. A booking that reaches the restaurant (every required field given,
    a connection at hand, a restaurant fetched) with party size [P], at a
    restaurant of available capacity [C] and slots [L], for the time [T].
    When the name or the city holds the character NUL the driver refuses
    the lookup: the answer is an error and the tables are as they were.
    Otherwise:
    - when it succeeds, [T] was in [L] and [P <= C], the restaurant has
      capacity [C - P] and the slots [L] without the first occurrence of
      [T], every other restaurant is as before (the table reads the rows
      that stayed first, the updated one after them), and one reservation
      is added; it does succeed when [T] is in [L], [P <= C] and the
      values are sent and fit their columns;
    - when [T] is not in [L], answers [unavailable_time] and leaves the
      tables as they were;
    - when [T] is in [L] and [P > C], answers [insufficient_capacity] and
      leaves the tables as they were. *)
Theorem booking_round_trip :
  forall (cat : catalog) (restaurant_name reservation_time : option string)
         (party_size : pyval) (customer_name contact_number city : option string)
         (w : world) (r : Row.t) (P : Z),
    booking_missing_fields restaurant_name reservation_time party_size
                           customer_name contact_number = [] ->
    int party_size = Some P ->
    connected w = true ->
    fetched cat restaurant_name city (db w) = Some r ->
    let T := text reservation_time in
    let C := Row.available_capacity r in
    let L := Row.available_reservations r in
    let answer := book_restaurant cat restaurant_name reservation_time
                                  party_size customer_name contact_number
                                  city w in
    let b := fst answer in
    let d' := db (snd answer) in
    (sendable_lookup cat (text restaurant_name) city = false ->
     b = BookingError (Exception nul_error) /\ d' = db w)
    /\ (sendable_lookup cat (text restaurant_name) city = true ->
    (booking_status b = "success" ->
     In T L /\ (P <= C)%Z
     /\ restaurants d'
        = update_table (C - P) (remove_first T L) (Row.id r)
                       (restaurants (db w))
     /\ Permutation (restaurants d')
                    (map (update_row (C - P) (remove_first T L) (Row.id r))
                         (restaurants (db w)))
     /\ Row.available_capacity
          (update_row (C - P) (remove_first T L) (Row.id r) r) = (C - P)%Z
     /\ Row.available_reservations
          (update_row (C - P) (remove_first T L) (Row.id r) r)
        = remove_first T L
     /\ (exists before after,
           L = before ++ T :: after
           /\ ~ In T before
           /\ remove_first T L = before ++ after)
     /\ List.length (reservations d')
        = S (List.length (reservations (db w))))
    /\ (In T L -> (P <= C)%Z ->
        storable (text customer_name) (text contact_number) T P (C - P) = true ->
        booking_status b = "success")
    /\ (~ In T L -> b = UnavailableTime L /\ d' = db w)
    /\ (In T L -> (P > C)%Z -> b = InsufficientCapacity C P /\ d' = db w)).
Proof.
  intros cat restaurant_name reservation_time party_size customer_name
         contact_number city w r P Hm Hi Hw Hf T C L answer b d'.
  subst b d' answer. unfold book_restaurant. rewrite Hm, Hi, Hw. cbn [negb].
  unfold book, bind, execute_select_by_name.
  unfold fetched, lookup_city, usable_city, resolved_city in Hf.
  unfold sendable_lookup, lookup_city, usable_city, resolved_city.
  rewrite <- (nul_free_pattern (text restaurant_name)).
  split; intros Hs; rewrite Hs; [now split|].
  rewrite Hf. fold T C L.
  destruct (str_in T L) eqn:Hin; cbn [negb].
  - assert (HT : In T L) by now apply str_in_In.
    destruct (C <? P)%Z eqn:Hcap.
    + apply Z.ltb_lt in Hcap. cbn.
      repeat split; try discriminate; try tauto; intros; lia.
    + apply Z.ltb_ge in Hcap.
      assert (Hu : forall cap sl,
                 update_row cap sl (Row.id r) r
                 = Row.Make (Row.id r) (Row.name r) (Row.city r)
                            (Row.address r) (Row.cuisine r)
                            (Row.seating_capacity r) cap sl (Row.mood r)).
      { intros. unfold update_row. now rewrite Z.eqb_refl. }
      rewrite !Hu. unfold storable, execute_insert, execute_update.
      destruct (nul_free (text customer_name) && nul_free (text contact_number)
                && nul_free T);
        cbn [negb andb]; [|cbn; repeat split; intros; absurd_case].
      destruct (varchar 255 (text customer_name)) as [customer|];
        [|cbn; repeat split; intros; absurd_case].
      destruct (varchar 20 (text contact_number)) as [contact|];
        [|cbn; repeat split; intros; absurd_case].
      destruct (varchar 20 T) as [time|];
        [|cbn; repeat split; intros; absurd_case].
      destruct (int4 P);
        [|cbn; repeat split; intros; absurd_case].
      cbn -[update_row update_table int4].
      destruct (int4 (C - P));
        [|cbn; repeat split; intros; absurd_case].
      cbn -[update_row update_table]. rewrite length_app, Nat.add_comm.
      cbn -[update_row update_table].
      repeat split; intros; auto; try absurd_case.
      * apply update_table_perm.
      * apply remove_first_spec. exact HT.
  - assert (HT : ~ In T L).
    { intros H. apply str_in_In in H. congruence. }
    cbn. repeat split; try discriminate; tauto.
Qed.

Lemma booking_round_trip_witness :
  let answer := book_restaurant Demo.cat (Some "cantina") (Some "7:00 PM")
                                (PStr "4") (Some "Ann") (Some "555-0100")
                                (Some "Chicago") (Demo.online Demo.chicago) in
  let b := fst answer in
  let d' := db (snd answer) in
  let L := ["6:00 PM"; "7:00 PM"; "7:00 PM"] in
  (booking_status b = "success" ->
   In "7:00 PM" L /\ (4 <= 30)%Z
   /\ restaurants d'
      = update_table (30 - 4) ["6:00 PM"; "7:00 PM"] 3
                     (restaurants Demo.chicago)
   /\ Permutation (restaurants d')
                  (map (update_row (30 - 4) ["6:00 PM"; "7:00 PM"] 3)
                       (restaurants Demo.chicago))
   /\ Row.available_capacity
        (update_row (30 - 4) ["6:00 PM"; "7:00 PM"] 3 Demo.cantina)
      = (30 - 4)%Z
   /\ Row.available_reservations
        (update_row (30 - 4) ["6:00 PM"; "7:00 PM"] 3 Demo.cantina)
      = ["6:00 PM"; "7:00 PM"]
   /\ (exists before after,
         L = before ++ "7:00 PM" :: after
         /\ ~ In "7:00 PM" before
         /\ remove_first "7:00 PM" L = before ++ after)
   /\ List.length (reservations d') = 1)
  /\ (In "7:00 PM" L -> (4 <= 30)%Z ->
      storable "Ann" "555-0100" "7:00 PM" 4 (30 - 4) = true ->
      booking_status b = "success")
  /\ (~ In "7:00 PM" L -> b = UnavailableTime L /\ d' = Demo.chicago)
  /\ (In "7:00 PM" L -> (4 > 30)%Z ->
      b = InsufficientCapacity 30 4 /\ d' = Demo.chicago).
Proof.
  exact (proj2 (booking_round_trip Demo.cat (Some "cantina") (Some "7:00 PM")
                  (PStr "4") (Some "Ann") (Some "555-0100") (Some "Chicago")
                  (Demo.online Demo.chicago) Demo.cantina 4
                  eq_refl eq_refl eq_refl eq_refl) eq_refl).
Defined.

(** The three outcomes on the sample table. *)
Example booking_outcomes :
  let book t p :=
    fst (book_restaurant Demo.cat (Some "cantina") (Some t) p (Some "Ann")
                         (Some "555-0100") None (Demo.online Demo.chicago)) in
  booking_status (book "7:00 PM" (PInt 4)) = "success"
  /\ booking_status (book "9:00 PM" (PInt 4)) = "unavailable_time"
  /\ booking_status (book "7:00 PM" (PInt 31)) = "insufficient_capacity"
  /\ booking_status (book "9:00 PM" (PInt 31)) = "unavailable_time".
Proof.
  repeat split; vm_compute; reflexivity.
Qed.

End BookingFacts.

(* ===================================================================== *)
(** * The tool agent *)
(* ===================================================================== *)

Module AgentFacts.
Import Py ToolAgent AgentSpec PyFacts.

Lemma okey_eqb_eq (a b : okey) : okey_eqb a b = true <-> a = b.
Proof.
  destruct a as [n|s], b as [m|t]; cbn; split; intros H;
    try discriminate; try congruence.
  - apply Nat.eqb_eq in H. now subst.
  - injection H as ->. apply Nat.eqb_refl.
  - apply String.eqb_eq in H. now subst.
  - injection H as ->. apply String.eqb_refl.
Qed.

Lemma obs_set_In (k k' : okey) (v v' : pyval) (o : observations) :
  In (k, v) (obs_set k' v' o) -> (k = k' /\ v = v') \/ In (k, v) o.
Proof.
  unfold obs_set. induction o as [|[k0 v0] t IH]; cbn [set]; intros H.
  - destruct H as [H|[]]. injection H as <- <-. now left.
  - destruct (okey_eqb k' k0) eqn:E.
    + destruct H as [H|H].
      * injection H as <- <-. now left.
      * right. now right.
    + destruct H as [H|H].
      * right. now left.
      * destruct (IH H) as [?|?]; [now left | right; now right].
Qed.





Lemma obs_get_set (k : okey) (v : pyval) (o : observations) :
  obs_get k (obs_set k v o) = Some v.
Proof.
  unfold obs_get, obs_set. induction o as [|[k0 v0] rest IH]; cbn.
  - now rewrite (proj2 (okey_eqb_eq k k) eq_refl).
  - destruct (okey_eqb k k0) eqn:E; cbn.
    + now rewrite (proj2 (okey_eqb_eq k k) eq_refl).
    + now rewrite E.
Qed.

Lemma obs_get_set_other (k k' : okey) (v : pyval) (o : observations) :
  k <> k' -> obs_get k (obs_set k' v o) = obs_get k o.
Proof.
  intros Hk. unfold obs_get, obs_set.
  assert (E : okey_eqb k k' = false).
  { destruct (okey_eqb k k') eqn:E; [|reflexivity].
    apply okey_eqb_eq in E. contradiction. }
  induction o as [|[k0 v0] rest IH]; cbn.
  - now rewrite E.
  - destruct (okey_eqb k' k0) eqn:E0; cbn.
    + apply okey_eqb_eq in E0. subst k0. now rewrite E.
    + destruct (okey_eqb k k0); [reflexivity | exact IH].
Qed.

Lemma obs_set_twice (k : okey) (v v' : pyval) (o : observations) :
  obs_set k v' (obs_set k v o) = obs_set k v' o.
Proof.
  unfold obs_set. induction o as [|[k0 v0] rest IH]; cbn.
  - now rewrite (proj2 (okey_eqb_eq k k) eq_refl).
  - destruct (okey_eqb k k0) eqn:E; cbn.
    + now rewrite (proj2 (okey_eqb_eq k k) eq_refl).
    + now rewrite E, IH.
Qed.

Lemma obs_get_In (k : okey) (v : pyval) (o : observations) :
  obs_get k o = Some v -> In (k, v) o.
Proof.
  unfold obs_get. induction o as [|[k0 v0] rest IH]; cbn; [discriminate|].
  destruct (okey_eqb k k0) eqn:E.
  - apply okey_eqb_eq in E. subst k0. intros H. injection H as <-. now left.
  - intros H. right. now apply IH.
Qed.




Lemma dict_get_set_other {V : Type} (k k' : string) (v : V)
    (d : list (string * V)) :
  k <> k' -> dict_get k (dict_set k' v d) = dict_get k d.
Proof.
  intros Hk. unfold dict_get, dict_set.
  induction d as [|[k0 v0] t IH]; cbn.
  - apply String.eqb_neq in Hk. now rewrite Hk.
  - destruct (String.eqb k' k0) eqn:E; cbn.
    + apply String.eqb_eq in E. subst k0.
      apply String.eqb_neq in Hk. now rewrite Hk.
    + destruct (String.eqb k k0); [reflexivity | exact IH].
Qed.


(** A list that ends in [b], cut at one of its elements. *)
Lemma snoc_split {A : Type} (content pre post : list A) (b x : A) :
  content ++ [b] = pre ++ x :: post ->
  (pre = content /\ x = b /\ post = [])
  \/ exists post', post = post' ++ [b] /\ content = pre ++ x :: post'.
Proof.
  destruct post as [|y post] using rev_ind; intros H.
  - left. apply app_inj_tail in H as [-> ->]. auto.
  - right.
    change (pre ++ x :: post ++ [y]) with (pre ++ (x :: post) ++ [y]) in H.
    rewrite app_assoc in H. apply app_inj_tail in H as [-> ->].
    now exists post.
Qed.

Section Turn.
Context {W : Type}.
Variable validate_arguments : pyval -> signature -> result ToolCall.
Implicit Types (t : turn W) (td : list (string * Tool W)).


(** ** One block *)

Lemma step_answered (tools : list (Tool W)) (b : block) t (v : ToolCall)
    (r : pyval) :
  answer validate_arguments tools b (world t) = Some (v, r) ->
  exists tool w',
    checked validate_arguments tools b = Some (tool, v)
    /\ process_tool_call validate_arguments (tools_dict tools) b t
       = MkTurn (obs_set (KId (tc_id v)) r (obs t)) (validated t ++ [v]) w'.
Proof.
  unfold AgentSpec.answer, AgentSpec.checked, ToolAgent.process_tool_call.
  destruct b as [msg|tool_call]; [discriminate|].
  destruct (subscript_name tool_call) as [tool_name|e]; [|discriminate].
  destruct (resolve _ tool_name) as [tool|e]; [|discriminate].
  destruct (validate_arguments _ _) as [v'|e]; [|discriminate].
  destruct (run_tool tool _ (world t)) as [[r'|e] w']; [|discriminate].
  intros H. injection H as <- <-. now exists tool, w'.
Qed.

Lemma step_failed (tools : list (Tool W)) (b : block) t :
  answer validate_arguments tools b (world t) = None ->
  exists e w',
    process_tool_call validate_arguments (tools_dict tools) b t
    = MkTurn (obs_set (KStr "error")
                      (if is_KeyError e then tool_not_found e
                       else error_message e) (obs t))
             (validated t ++ match checked validate_arguments tools b with
                             | Some (_, v) => [v]
                             | None => []
                             end) w'.
Proof.
  unfold AgentSpec.answer, AgentSpec.checked, ToolAgent.process_tool_call,
    handle.
  destruct b as [msg|tool_call];
    [intros _; eexists _, _; now rewrite app_nil_r|].
  destruct (subscript_name tool_call) as [tool_name|e];
    [|intros _; eexists _, _; now rewrite app_nil_r].
  destruct (resolve _ tool_name) as [tool|e];
    [|intros _; eexists _, _; now rewrite app_nil_r].
  destruct (validate_arguments _ _) as [v'|e];
    [|intros _; eexists _, _; now rewrite app_nil_r].
  destruct (run_tool tool _ (world t)) as [[r'|e] w']; [discriminate|].
  intros _. now eexists _, _.
Qed.

Lemma answer_checked (tools : list (Tool W)) (b : block) (w : W)
    (v : ToolCall) (r : pyval) :
  answer validate_arguments tools b w = Some (v, r) -> exists tool, checked
      validate_arguments tools b = Some (tool, v).
Proof.
  unfold AgentSpec.answer. destruct (checked validate_arguments tools b) as
      [[tool v']|];
    [|discriminate].
  destruct (run_tool tool _ w) as [[r'|e] w']; [|discriminate].
  intros H. injection H as <- <-. now exists tool.
Qed.

Lemma step_validated (tools : list (Tool W)) (b : block) t :
  validated (process_tool_call validate_arguments (tools_dict tools) b t)
  = validated t ++ match checked validate_arguments tools b with
                   | Some (_, v) => [v]
                   | None => []
                   end.
Proof.
  destruct (answer validate_arguments tools b (world t)) as [[v r]|] eqn:E.
  - destruct (step_answered tools b t v r E) as (tool & w' & -> & ->).
    reflexivity.
  - destruct (step_failed tools b t E) as (e & w' & ->). reflexivity.
Qed.


(** ** The blocks of a turn *)

Lemma process_from_app (tools : list (Tool W)) (c1 c2 : list block) t :
  process_from validate_arguments tools (c1 ++ c2) t
  = process_from validate_arguments tools c2 (process_from validate_arguments
      tools c1 t).
Proof. unfold ToolAgent.process_from. apply fold_left_app. Qed.

Lemma process_tool_calls_snoc (tools : list (Tool W)) (content : list block)
    (b : block) (w : W) :
  process_tool_calls validate_arguments tools (content ++ [b]) w
  = process_tool_call validate_arguments (tools_dict tools) b
      (process_tool_calls validate_arguments tools content w).
Proof.
  unfold ToolAgent.process_tool_calls. now rewrite process_from_app.
Qed.

Lemma process_from_validated (tools : list (Tool W)) (content : list block) t :
  validated (process_from validate_arguments tools content t)
  = validated t ++ validated_calls validate_arguments tools content.
Proof.
  unfold ToolAgent.process_from, AgentSpec.validated_calls. revert t.
  induction content as [|b rest IH]; intros t; cbn [fold_left flat_map].
  - now rewrite app_nil_r.
  - now rewrite IH, step_validated, <- app_assoc.
Qed.



(** Every result under an id is the result of a block whose call has that
    id. *)
Lemma stored_is_answer (tools : list (Tool W)) (content : list block) (w : W)
    (k : nat) (r : pyval) :
  In (KId k, r) (obs (process_tool_calls validate_arguments tools content w)) ->
  exists pre b post v,
    content = pre ++ b :: post
    /\ answer validate_arguments tools b (reached validate_arguments tools pre
        w) = Some (v, r)
    /\ tc_id v = k.
Proof.
  induction content as [|b content IH] using rev_ind; [intros []|].
  rewrite process_tool_calls_snoc.
  set (t := process_tool_calls validate_arguments tools content w) in *.
  assert (Hold : In (KId k, r) (obs t) ->
                 exists pre b0 post v,
                   content ++ [b] = pre ++ b0 :: post
                   /\ answer validate_arguments tools b0 (reached
                       validate_arguments tools pre w) = Some (v, r)
                   /\ tc_id v = k).
  { intros Hin. destruct (IH Hin) as (pre & b0 & post & v & -> & Ha & Hk).
    exists pre, b0, (post ++ [b]), v. rewrite <- app_assoc. now repeat split. }
  destruct (answer validate_arguments tools b (world t)) as [[v r']|] eqn:E.
  - destruct (step_answered tools b t v r' E) as (tool & w' & _ & ->).
    cbn [obs]. intros Hin.
    apply obs_set_In in Hin as [[Hk ->]|Hin]; [|now apply Hold].
    injection Hk as ->. exists content, b, [], v. now repeat split.
  - destruct (step_failed tools b t E) as (e & w' & ->).
    cbn [obs]. intros Hin.
    apply obs_set_In in Hin as [[Hk _]|Hin]; [discriminate Hk|now apply Hold].
Qed.

Lemma process_from_id_free (tools : list (Tool W)) (post : list block) t
    (k : nat) :
  id_free validate_arguments tools k post ->
  obs_get (KId k) (obs (process_from validate_arguments tools post t)) =
      obs_get (KId k) (obs t).
Proof.
  unfold ToolAgent.process_from, AgentSpec.id_free. revert t.
  induction post as [|b rest IH]; intros t Hf; cbn [fold_left];
    [reflexivity|].
  inversion Hf as [|? ? Hb Hrest]; subst. rewrite (IH _ Hrest).
  destruct (answer validate_arguments tools b (world t)) as [[v r]|] eqn:E.
  - destruct (step_answered tools b t v r E) as (tool & w' & Hc & ->).
    cbn [obs]. apply obs_get_set_other. specialize (Hb tool v Hc). congruence.
  - destruct (step_failed tools b t E) as (e & w' & ->).
    cbn [obs]. now apply obs_get_set_other.
Qed.

(** The result of a block is under the id of its call, unless a later
    block has a call of the same id. *)
Lemma answer_is_stored (tools : list (Tool W)) (pre post : list block)
    (b : block) (w : W) (v : ToolCall) (r : pyval) :
  answer validate_arguments tools b (reached validate_arguments tools pre w) =
      Some (v, r) ->
  id_free validate_arguments tools (tc_id v) post ->
  obs_get (KId (tc_id v)) (obs (process_tool_calls validate_arguments tools
      (pre ++ b :: post) w))
  = Some r.
Proof.
  intros Ha Hf. unfold ToolAgent.process_tool_calls.
  rewrite process_from_app.
  change (ToolAgent.process_from validate_arguments tools (b :: post) ?t)
    with (process_from validate_arguments tools post (process_tool_call
        validate_arguments (tools_dict tools) b t)).
  rewrite process_from_id_free by exact Hf.
  destruct (step_answered tools b _ v r Ha) as (tool & w' & _ & E).
  unfold AgentSpec.reached, ToolAgent.process_tool_calls in E. rewrite E.
  cbn [obs]. apply obs_get_set.
Qed.

(** There is no [error] entry exactly when every block was answered. *)
Lemma no_error_iff (tools : list (Tool W)) (content : list block) (w : W) :
  obs_get (KStr "error") (obs (process_tool_calls validate_arguments tools
      content w)) = None
  <-> forall pre b post,
        content = pre ++ b :: post ->
        exists v r, answer validate_arguments tools b (reached
            validate_arguments tools pre w) = Some (v, r).
Proof.
  induction content as [|b content IH] using rev_ind.
  - split; [|reflexivity]. intros _ pre b post H.
    now destruct pre.
  - rewrite process_tool_calls_snoc.
    set (t := process_tool_calls validate_arguments tools content w) in *.
    destruct (answer validate_arguments tools b (world t)) as [[v r]|] eqn:E.
    + destruct (step_answered tools b t v r E) as (tool & w' & _ & ->).
      cbn [obs]. rewrite obs_get_set_other by discriminate. rewrite IH.
      split.
      * intros H pre b0 post Hc.
        apply snoc_split in Hc as [(-> & -> & ->)|(post' & -> & Hc)].
        -- now exists v, r.
        -- now apply (H pre b0 post').
      * intros H pre b0 post ->. apply (H pre b0 (post ++ [b])).
        now rewrite <- app_assoc.
    + destruct (step_failed tools b t E) as (e & w' & ->).
      cbn [obs]. rewrite obs_get_set. split; [discriminate|].
      intros H. destruct (H content b [] eq_refl) as (v & r & Ha).
      unfold AgentSpec.reached in Ha. fold t in Ha. congruence.
Qed.





(** C10, as the code has it. A block that parses to an object without a
    [name], and a resolved and validated call whose tool raises a
    [KeyError], both end in the handler of unresolved tools: the ["error"]
    entry is set to the text of that handler around the [str()] of the
    exception, the world is the one the tool left, and the next block is
    processed from there. *)
Theorem key_errors_read_as_unknown_tools :
  forall (tools : list (Tool W)) (t : turn W) (rest : list block),
    (forall d : dict,
        dict_get "name" d = None ->
        let t' := process_tool_call validate_arguments (tools_dict tools)
            (Parsed (PDict d)) t in
        t' = MkTurn (obs_set (KStr "error") (tool_not_found (KeyError "name"))
                             (obs t))
                    (validated t) (world t)
        /\ process_from validate_arguments tools (Parsed (PDict d) :: rest) t
           = process_from validate_arguments tools rest t')
    /\ (forall (tool_call tool_name : pyval) (tool : Tool W) (v : ToolCall)
               (e : exn) (w' : W),
          subscript_name tool_call = Ok tool_name ->
          resolve (tools_dict tools) tool_name = Ok tool ->
          validate_arguments tool_call (fn_signature tool) = Ok v ->
          run_tool tool (coerce_group_size (tc_arguments v)) (world t)
          = (Raise e, w') ->
          is_KeyError e = true ->
          let t' := process_tool_call validate_arguments (tools_dict tools)
              (Parsed tool_call) t in
          t' = MkTurn (obs_set (KStr "error") (tool_not_found e) (obs t))
                      (validated t ++ [v]) w'
          /\ process_from validate_arguments tools (Parsed tool_call :: rest) t
             = process_from validate_arguments tools rest t').
Proof.
  intros tools t rest. split.
  - intros d Hd t'. subst t'. split; [|reflexivity].
    unfold ToolAgent.process_tool_call, subscript_name. rewrite Hd.
    reflexivity.
  - intros tool_call tool_name tool v e w' Hn Hr Hv Hrun He t'. subst t'.
    split; [|reflexivity].
    unfold ToolAgent.process_tool_call. rewrite Hn, Hr, Hv, Hrun.
    unfold handle. cbn. now rewrite He.
Qed.

(** What [run] does with the blocks it extracts is [observe]. *)
Lemma run_observes (env : Env) (a : Agent W) (user_msg : string) (w : W) :
  let th := tool_chat_history a ++ [Message "user" user_msg] in
  let tool_calls := extract_tag_content env (completions_create env th) in
  let t := observe validate_arguments a (map (json_loads env) (tag_content
      tool_calls)) w in
  found tool_calls = true ->
  snd (run validate_arguments env a user_msg w) = world t
  /\ In (Message "user" ("Observation: " ++ json_dumps env (obs t)))
        (agent_chat_history (snd (fst (run validate_arguments env a user_msg
            w)))).
Proof.
  intros th tool_calls t Hf. unfold ToolAgent.run. fold th. fold tool_calls.
  rewrite Hf. fold t. cbn. repeat split.
  apply in_or_app. left. apply in_or_app. right. now left.
Qed.

Lemma unresolved_tool_recorded (tools : list (Tool W)) (t : turn W)
    (d : dict) (n : string) :
  dict_get "name" d = Some (PStr n) ->
  dict_get n (tools_dict tools) = None ->
  process_tool_call validate_arguments (tools_dict tools) (Parsed (PDict d)) t
  = MkTurn (obs_set (KStr "error")
                    (PStr ("Tool '" ++ repr_str n ++ "' not found"))
                    (obs t))
           (validated t) (world t).
Proof.
  intros Hn Ht. unfold ToolAgent.process_tool_call, subscript_name.
  rewrite Hn. unfold resolve. rewrite Ht. reflexivity.
Qed.

(** Of two unresolved calls in a row the second alone leaves a trace. *)
Lemma last_unresolved_survives (tools : list (Tool W)) (t : turn W)
    (d1 d2 : dict) (n1 n2 : string) :
  dict_get "name" d1 = Some (PStr n1) ->
  dict_get n1 (tools_dict tools) = None ->
  dict_get "name" d2 = Some (PStr n2) ->
  dict_get n2 (tools_dict tools) = None ->
  process_from validate_arguments tools [Parsed (PDict d1); Parsed (PDict d2)] t
  = process_from validate_arguments tools [Parsed (PDict d2)] t.
Proof.
  intros H1 T1 H2 T2. unfold ToolAgent.process_from. cbn [fold_left].
  rewrite (unresolved_tool_recorded tools t d1 n1 H1 T1).
  rewrite !(unresolved_tool_recorded tools _ d2 n2 H2 T2).
  cbn [obs validated world]. now rewrite obs_set_twice.
Qed.

End Turn.

Lemma message_length (a b : string) :
  PStr ("Tool '" ++ a ++ "' not found") = PStr ("Tool '" ++ b ++ "' not found") ->
  String.length a = String.length b.
Proof.
  intros H. injection H as H. apply (f_equal String.length) in H.
  rewrite !length_append in H. lia.
Qed.

(** The message never is the name between one pair of quotes. *)
Lemma unresolved_message_has_two_pairs (n : string) :
  PStr ("Tool '" ++ repr_str n ++ "' not found")
  <> PStr ("Tool '" ++ n ++ "' not found").
Proof.
  intros H. apply message_length in H.
  pose proof (repr_str_length n). lia.
Qed.

(** A turn of four blocks, with a validator that keeps the id of the
    block: the calls have the ids the blocks carry (7, 3, 7); the unknown
    tool has no call; the second result under 7 replaces the first; the
    two empty searches bring one reminder. *)
Example sample_turn :
  let t := observe keeps_id (MkAgent registry [] [] 5)
                   [call "get_recommendations" 7; call "nope" 7;
                    call "get_available_options" 3;
                    call "get_recommendations" 7] tt in
  map tc_id (validated t) = [7; 3; 7]
  /\ map fst (obs t) = [KId 7; KStr "error"; KId 3; KStr "reminder"]
  /\ count_key (KStr "reminder") (obs t) = 1.
Proof.
  repeat split.
Qed.


Lemma key_errors_witness :
  let t0 := MkTurn [] [] tt in
  let no_name := PDict [("arguments", PDict [])] in
  process_tool_call keeps_id (tools_dict registry) (Parsed no_name) t0
  = MkTurn [(KStr "error", tool_not_found (KeyError "name"))] [] tt
  /\ process_tool_call keeps_id (tools_dict registry) (call "get_menu" 0) t0
     = MkTurn [(KStr "error", tool_not_found (KeyError "menu"))]
              [MkToolCall 0 "get_menu" []] tt.
Proof.
  destruct (key_errors_read_as_unknown_tools keeps_id registry
              (MkTurn [] [] tt) []) as [H1 H2].
  split.
  - exact (proj1 (H1 [("arguments", PDict [])] eq_refl)).
  - exact (proj1 (H2 (PDict [("name", PStr "get_menu");
                             ("arguments", PDict []); ("id", PInt 0)])
                     (PStr "get_menu") get_menu (MkToolCall 0 "get_menu" [])
                     (KeyError "menu") tt
                     eq_refl eq_refl eq_refl eq_refl eq_refl)).
Defined.

(** C10, as it is worded, fails: a block that is JSON but not an object has
    no [name] either, and it ends in the other handler, whatever the
    validator. *)
Lemma not_every_nameless_block :
  (forall validate_arguments : pyval -> signature -> result ToolCall,
      obs (process_tool_calls validate_arguments registry
                              [Parsed (PList [])] tt)
      = [(KStr "error",
          error_message
            (TypeError "list indices must be integers or slices, not str"))])
  /\ error_message
       (TypeError "list indices must be integers or slices, not str")
     = PStr "Error: list indices must be integers or slices, not str"
  /\ forall e : exn,
       error_message
         (TypeError "list indices must be integers or slices, not str")
       <> tool_not_found e.
Proof.
  repeat split. intros e H. discriminate.
Qed.

(** C7 at two unresolved calls, whatever the validator: the second message
    replaces the first, and the name stands in it between two pairs of
    quotes, those of the handler and those [str()] puts around the key of
    a [KeyError]. *)
Lemma unresolved_tool_message :
  forall validate_arguments : pyval -> signature -> result ToolCall,
    obs (process_tool_calls validate_arguments registry
                            [call "foo" 0; call "bar" 1] tt)
    = [(KStr "error", PStr "Tool ''bar'' not found")]
    /\ obs (process_tool_calls validate_arguments registry
                               [call "foo" 0] tt)
       = [(KStr "error", PStr "Tool ''foo'' not found")]
    /\ PStr "Tool ''foo'' not found" <> PStr "Tool 'foo' not found".
Proof.
  intros va. repeat split. discriminate.
Qed.

End AgentFacts.

(* ===================================================================== *)
(** * validate_booking_info *)
(* ===================================================================== *)

Module ValidationFacts.
Import Py Foodie.

(** C9. Two calls of [validate_booking_info] with the same arguments give
    the same [missing_fields] and the same [provided_fields], whatever
    happened to the world between them, and neither call changes it. *)
Theorem validate_booking_info_deterministic :
  forall (restaurant_name reservation_time : option string)
         (party_size : pyval)
         (customer_name contact_number city : option string)
         (w w2 : world),
    let first := validate_booking_info_tool restaurant_name reservation_time
                   party_size customer_name contact_number city w in
    let second := validate_booking_info_tool restaurant_name reservation_time
                    party_size customer_name contact_number city w2 in
    v_missing_fields (fst first) = v_missing_fields (fst second)
    /\ v_provided_fields (fst first) = v_provided_fields (fst second)
    /\ v_status (fst first) = v_status (fst second)
    /\ snd first = w
    /\ snd second = w2.
Proof.
  intros. repeat split.
Qed.

(** A text that is no number is reported and not provided; a number given
    as text is provided as a number. *)
Example validate_booking_info_samples :
  validate_booking_info (Some "Cantina") None (PStr "four") (Some "Ann")
                        None (Some "Chicago")
  = Validation "missing_fields"
               ["reservation_time"; "valid_party_size"; "contact_number"]
               [("restaurant_name", PStr "Cantina");
                ("customer_name", PStr "Ann"); ("city", PStr "Chicago")]
  /\ validate_booking_info (Some "Cantina") (Some "7:00 PM") (PStr "4")
                           (Some "Ann") (Some "555-0100") (Some "Chicago")
     = Validation "complete" []
                  [("restaurant_name", PStr "Cantina");
                   ("reservation_time", PStr "7:00 PM");
                   ("party_size", PInt 4);
                   ("customer_name", PStr "Ann");
                   ("contact_number", PStr "555-0100");
                   ("city", PStr "Chicago")].
Proof.
  split; reflexivity.
Qed.

End ValidationFacts.

(* ===================================================================== *)
(** * Strings, lookups and lists *)
(* ===================================================================== *)

Module StringFacts.
Import Py.

Lemma lower_char_idem (c : ascii) : lower_char (lower_char c) = lower_char c.
Proof. destruct c as [[] [] [] [] [] [] [] []]; reflexivity. Qed.

Lemma lower_idem (s : string) : lower (lower s) = lower s.
Proof.
  induction s as [|c s IH]; cbn; [reflexivity|].
  now rewrite lower_char_idem, IH.
Qed.

Lemma lower_truthy (s : string) : str_truthy (lower s) = str_truthy s.
Proof. now destruct s. Qed.

Lemma lower_append (a b : string) : lower (a ++ b) = (lower a ++ lower b)%string.
Proof. induction a as [|c a IH]; cbn; [reflexivity | now rewrite IH]. Qed.

Lemma dict_get_set_same {V : Type} k (v : V) m :
  dict_get k (dict_set k v m) = Some v.
Proof.
  induction m as [|[k' v'] t IH]; cbn.
  - now rewrite String.eqb_refl.
  - destruct (String.eqb k k') eqn:E; cbn.
    + now rewrite String.eqb_refl.
    + now rewrite E.
Qed.

Lemma opt_truthy_Some (o : option string) :
  opt_truthy o = true -> exists s, o = Some s /\ str_truthy s = true.
Proof.
  destruct o as [s|]; cbn; [|discriminate]. intros H. now exists s.
Qed.

Lemma find_ext {A : Type} (f g : A -> bool) (l : list A) :
  (forall x, f x = g x) -> find f l = find g l.
Proof.
  intros H. induction l as [|x t IH]; cbn; [reflexivity|].
  now rewrite H, IH.
Qed.

Lemma find_map {A : Type} (p : A -> bool) (f : A -> A) (l : list A) :
  (forall x, p (f x) = p x) ->
  find p (map f l) = option_map f (find p l).
Proof.
  intros H. induction l as [|x t IH]; cbn; [reflexivity|].
  rewrite H. now destruct (p x).
Qed.

Lemma find_app_none {A : Type} (p : A -> bool) (l1 l2 : list A) :
  (forall x, In x l1 -> p x = false) -> find p (l1 ++ l2) = find p l2.
Proof.
  induction l1 as [|a t IH]; intros H; [reflexivity|].
  cbn. rewrite (H a) by now left. apply IH. intros x Hx. apply H. now right.
Qed.

Lemma NoDup_map_eq {A B : Type} (f : A -> B) (l : list A) (x y : A) :
  NoDup (map f l) -> In x l -> In y l -> f x = f y -> x = y.
Proof.
  induction l as [|a t IH]; intros Hn Hx Hy E; [contradiction|].
  cbn in Hn. inversion Hn as [|? ? Hnot Hn']; subst.
  destruct Hx as [->|Hx], Hy as [->|Hy]; auto.
  - destruct Hnot. rewrite E. now apply in_map.
  - destruct Hnot. rewrite <- E. now apply in_map.
Qed.

End StringFacts.

(* ===================================================================== *)
(** * What get_recommendations answers *)
(* ===================================================================== *)

Module RecommendFacts.
Import Py Foodie Spec Laws PyFacts RelaxFacts.

Ltac absurd_eqb :=
  match goal with
  | E : (?a =? ?a)%string = false |- _ =>
      rewrite String.eqb_refl in E; discriminate E
  end.

(** The strings compared by the queries, equal or not. *)
Ltac closed_eqbs :=
  repeat (rewrite ?String.eqb_refl;
          match goal with
          | |- context [String.eqb ?a ?b] =>
              is_var a; is_var b;
              let E := fresh "E" in
              destruct (String.eqb a b) eqn:E;
              [apply String.eqb_eq in E; subst; try absurd_eqb |]
          end).

(** The texts sent hold a NUL, or none. *)
Ltac nul_cases :=
  nuls; step; try discriminate;
  repeat (match goal with
          | |- context [nul_free ?s] => destruct (nul_free s) eqn:?
          end;
          step; nuls; step; try discriminate).

Lemma rank_length (mood cuisine : option string) (l : list Row.t) :
  List.length (rank mood cuisine l) = List.length l.
Proof. apply Permutation_length, Ranking.rank_perm. Qed.

Ltac rows_in_city :=
  match goal with
  | Hr : filter ?f ?l = ?t :: ?rest |- Forall _ (?t :: ?rest) =>
      rewrite <- Hr; apply Forall_forall; intros r Hr';
      apply filter_In in Hr' as [Hin Hf]; bools Hf;
      repeat match goal with
             | Hq : (_ =? _)%string = true |- _ => apply String.eqb_eq in Hq
             | Hq : (_ <=? _)%Z = true |- _ => apply Z.leb_le in Hq
             end;
      unfold in_city; repeat split; try assumption;
      try (intros z' Hz; first [discriminate Hz | injection Hz as <-; assumption])
  end.

(** What a search returns, whatever the values: the rows of one of its
    queries, all of the city and with room for the group, ranked and cut
    to five; with no row, the cuisines of the city. *)
Lemma search_shape city occasion cuisine_preference g c cu w st n qp ni fb data w' :
  str_truthy c = true ->
  search city occasion cuisine_preference g (Some c) cu w
  = (Ok (Recommendations st n qp ni fb data), w') ->
  exists rows,
    st = (if empty rows then "no_results" else "success")
    /\ n = List.length rows
    /\ qp = QueryParams city (Some c) occasion (derive_mood occasion)
                        cuisine_preference cu g
    /\ data = firstn 5 (rank (derive_mood occasion) cu rows)
    /\ fb = (if empty rows
             then Some (Fallback (city_cuisines (matching (db w) [(City, PStr c)]))
                                 (List.length (matching (db w) [(City, PStr c)])))
             else None)
    /\ Forall (in_city (db w) c g) rows.
Proof.
  intros Hc. unfold search.
  pose proof (derive_mood_truthy occasion) as Hm.
  pose proof (derive_mood_nul_free occasion) as Hn.
  destruct (derive_mood occasion) as [m|];
    [specialize (Hm m eq_refl); specialize (Hn m eq_refl)|clear Hm Hn];
    (destruct cu as [x|]; [destruct (str_truthy x) eqn:Hx|]);
    destruct g as [|b|z|s|l|d];
    unfold opt_clause, opt_param, bind, execute_select, select_rows, ret,
      opt_truthy, matching;
    rewrite ?Hc, ?Hm, ?Hx; step; nuls; step; try discriminate.
  all: nul_cases.
  all: closed_eqbs; step; try discriminate.
  all: nul_cases.
  all: repeat match goal with
         | |- context [empty (filter ?f ?l)] =>
             let E := fresh "Hrows" in destruct (filter f l) eqn:E; step
         end; try discriminate.
  all: nul_cases.
  all: intros H; injection H as <- <- <- <- <- <-.
  all: repeat match goal with
              | Hr : filter _ _ = _ |- _ => rewrite ?Hr; revert Hr
              end; intros.
  all: try (exists []; repeat split; constructor).
  all: match goal with
       | Hr : filter ?f ?l = ?t :: ?rest |- _ =>
           exists (t :: rest); rewrite ?rank_empty, ?rank_length;
           repeat split; try rows_in_city
       end.
Qed.

Lemma recommendations_from_search cat city occasion cuisine_preference
    group_size w st n qp ni fb data w' :
  get_recommendations cat city occasion cuisine_preference group_size w
  = (Recommendations st n qp ni fb data, w') ->
  exists g c,
    coerce_group_size group_size = Some g
    /\ resolved_city cat city = Some c
    /\ str_truthy c = true
    /\ search city occasion cuisine_preference g (Some c)
              (resolved_cuisine cat cuisine_preference) w
       = (Ok (Recommendations st n qp ni fb data), w').
Proof.
  unfold get_recommendations, resolved_city, resolved_cuisine.
  destruct (connected w); cbn [negb]; [|discriminate].
  destruct (coerce_group_size group_size) as [g|]; [|discriminate].
  destruct (if opt_truthy city then normalize_city cat city else None)
    as [c|] eqn:Ec; cbn [opt_truthy negb]; [|discriminate].
  destruct (str_truthy c) eqn:Hc; cbn [negb]; [|discriminate].
  intros H. exists g, c.
  split; [reflexivity|]. split; [reflexivity|]. split; [exact Hc|].
  destruct (search _ _ _ _ _ _ _) as [[r|e] w1]; [|discriminate].
  now injection H as -> ->.
Qed.

Lemma recommendations_rows cat city occasion cuisine_preference group_size w
    st n qp ni fb data w' :
  get_recommendations cat city occasion cuisine_preference group_size w
  = (Recommendations st n qp ni fb data, w') ->
  exists g c rows,
    coerce_group_size group_size = Some g
    /\ resolved_city cat city = Some c
    /\ data = firstn 5 (rank (derive_mood occasion)
                             (resolved_cuisine cat cuisine_preference) rows)
    /\ fb = (if empty rows
             then Some (Fallback (city_cuisines (matching (db w) [(City, PStr c)]))
                                 (List.length (matching (db w) [(City, PStr c)])))
             else None)
    /\ Forall (in_city (db w) c g) rows.
Proof.
  intros H.
  apply recommendations_from_search in H as (g & c & Hg & Hrc & Hc & H).
  apply (search_shape _ _ _ _ _ _ _ _ _ _ _ _ _ _ Hc) in H
    as (rows & _ & _ & _ & Hd & Hfb & Hrows).
  now exists g, c, rows.
Qed.

(** X1. An answer of [get_recommendations] that carries rows has at most
    five of them and never more than its [count]; its status is [success]
    with at least one row and no [fallback_suggestions], or [no_results]
    with no row, a count of 0 and [fallback_suggestions]. *)
Theorem recommendations_shape :
  forall cat city occasion cuisine_preference group_size w st n qp ni fb data w',
    get_recommendations cat city occasion cuisine_preference group_size w
    = (Recommendations st n qp ni fb data, w') ->
    List.length data <= 5
    /\ List.length data <= n
    /\ ((st = "success" /\ data <> [] /\ fb = None)
        \/ (st = "no_results" /\ data = [] /\ n = 0 /\ exists f, fb = Some f)).
Proof.
  intros * H.
  apply recommendations_from_search in H as (g & c & _ & _ & Hc & H).
  apply (search_shape _ _ _ _ _ _ _ _ _ _ _ _ _ _ Hc) in H
    as (rows & -> & -> & _ & -> & -> & _).
  split; [apply firstn_le_length|].
  split.
  - rewrite length_firstn, rank_length. lia.
  - destruct rows as [|r rows]; cbn [empty].
    + right. repeat split. eexists. reflexivity.
    + left. repeat split.
      pose proof (rank_empty (derive_mood occasion)
                    (resolved_cuisine cat cuisine_preference) (r :: rows)) as E.
      destruct (rank _ _ (r :: rows)); [discriminate E | discriminate].
Qed.

Lemma recommendations_shape_witness :
  exists st n qp ni fb data w',
    get_recommendations Demo.cat (Some "Chicago") (Some "date night") None
                        (PInt 2) (Demo.online Demo.chicago)
    = (Recommendations st n qp ni fb data, w')
    /\ List.length data <= 5
    /\ List.length data <= n
    /\ ((st = "success" /\ data <> [] /\ fb = None)
        \/ (st = "no_results" /\ data = [] /\ n = 0
            /\ exists f, fb = Some f)).
Proof.
  do 7 eexists. split; [reflexivity|].
  eapply (recommendations_shape Demo.cat (Some "Chicago") (Some "date night")
           None (PInt 2) (Demo.online Demo.chicago)).
  reflexivity.
Defined.

(** X2. Every restaurant [get_recommendations] returns is a row of the
    table, lies in the resolved city (letter case apart) and, when a group
    size is given, has at least that many free seats: the relaxation drops
    the mood and the cuisine, never the city or the capacity. *)
Theorem recommendations_in_city :
  forall cat city occasion cuisine_preference group_size w st n qp ni fb data w',
    get_recommendations cat city occasion cuisine_preference group_size w
    = (Recommendations st n qp ni fb data, w') ->
    exists g c,
      coerce_group_size group_size = Some g
      /\ resolved_city cat city = Some c
      /\ Forall (in_city (db w) c g) data.
Proof.
  intros * H.
  apply recommendations_rows in H as (g & c & rows & Hg & Hc & -> & _ & Hrows).
  exists g, c. split; [exact Hg|]. split; [exact Hc|].
  rewrite Forall_forall in *. intros r Hr. apply Hrows.
  apply firstn_In in Hr.
  eapply Permutation_in; [apply Ranking.rank_perm | exact Hr].
Qed.

Lemma recommendations_in_city_witness :
  exists st n qp ni fb data w',
    get_recommendations Demo.cat (Some "Chicago") (Some "business lunch")
                        (Some "Thai") (PStr "4") (Demo.online Demo.chicago)
    = (Recommendations st n qp ni fb data, w')
    /\ exists g c,
         coerce_group_size (PStr "4") = Some g
         /\ resolved_city Demo.cat (Some "Chicago") = Some c
         /\ Forall (in_city (db (Demo.online Demo.chicago)) c g) data.
Proof.
  do 7 eexists. split; [reflexivity|].
  eapply (recommendations_in_city Demo.cat (Some "Chicago")
           (Some "business lunch") (Some "Thai") (PStr "4")
           (Demo.online Demo.chicago)).
  reflexivity.
Defined.

Lemma matching_city (d : database) (c : string) (r : Row.t) :
  In r (matching d [(City, PStr c)])
  <-> In r (restaurants d) /\ lower (Row.city r) = lower c.
Proof.
  unfold matching. rewrite filter_In. cbn [forallb holds].
  rewrite andb_true_r, String.eqb_eq. reflexivity.
Qed.

(** X3. When [get_recommendations] answers with [fallback_suggestions],
    it returns no row; [city_restaurant_count] is the number of rows of the
    resolved city; and [available_cuisines] lists, in ascending order and
    once each, exactly the lower-cased non-empty cuisines of those rows. *)
Theorem fallback_lists_city_cuisines :
  forall cat city occasion cuisine_preference group_size w st n qp ni f data w',
    get_recommendations cat city occasion cuisine_preference group_size w
    = (Recommendations st n qp ni (Some f) data, w') ->
    exists c,
      resolved_city cat city = Some c
      /\ data = []
      /\ city_restaurant_count f
         = List.length (filter (fun r => String.eqb (lower (Row.city r)) (lower c))
                               (restaurants (db w)))
      /\ (forall x,
             In x (available_cuisines f)
             <-> exists r, In r (restaurants (db w))
                           /\ lower (Row.city r) = lower c
                           /\ str_truthy (Row.cuisine r) = true
                           /\ x = lower (Row.cuisine r))
      /\ NoDup (available_cuisines f)
      /\ Sorted str_le (available_cuisines f).
Proof.
  intros * H.
  apply recommendations_rows in H as (g & c & rows & _ & Hc & -> & Hfb & _).
  exists c. split; [exact Hc|].
  destruct rows as [|r0 rows]; cbn [empty] in Hfb; [|discriminate Hfb].
  injection Hfb as ->. cbn [available_cuisines city_restaurant_count].
  split; [reflexivity|].
  split.
  { unfold matching. f_equal. apply filter_ext. intros r. cbn [forallb holds].
    apply andb_true_r. }
  unfold city_cuisines.
  split; [|split].
  - intros x. split.
    + intros Hx.
      apply (Permutation_in _ (sorted_perm _)) in Hx.
      apply nodup_In, in_map_iff in Hx as (r & <- & Hr).
      apply filter_In in Hr as [Hr Ht]. apply matching_city in Hr as [Hr Hcity].
      now exists r.
    + intros (r & Hr & Hcity & Ht & ->).
      apply (Permutation_in _ (Permutation_sym (sorted_perm _))).
      apply nodup_In, in_map_iff. exists r. split; [reflexivity|].
      apply filter_In. split; [|exact Ht]. apply matching_city. now split.
  - eapply Permutation_NoDup; [apply Permutation_sym, sorted_perm|].
    apply NoDup_nodup.
  - apply sorted_Sorted.
Qed.

Lemma fallback_lists_city_cuisines_witness :
  exists st n qp ni f data w',
    get_recommendations Demo.cat (Some "Chicago") None None (PInt 100)
                        (Demo.online Demo.chicago)
    = (Recommendations st n qp ni (Some f) data, w')
    /\ exists c,
         resolved_city Demo.cat (Some "Chicago") = Some c
         /\ data = []
         /\ city_restaurant_count f
            = List.length
                (filter (fun r => String.eqb (lower (Row.city r)) (lower c))
                        (restaurants (db (Demo.online Demo.chicago))))
         /\ (forall x,
                In x (available_cuisines f)
                <-> exists r, In r (restaurants (db (Demo.online Demo.chicago)))
                              /\ lower (Row.city r) = lower c
                              /\ str_truthy (Row.cuisine r) = true
                              /\ x = lower (Row.cuisine r))
         /\ NoDup (available_cuisines f)
         /\ Sorted str_le (available_cuisines f).
Proof.
  do 7 eexists. split; [reflexivity|].
  eapply (fallback_lists_city_cuisines Demo.cat (Some "Chicago") None None
           (PInt 100) (Demo.online Demo.chicago)).
  reflexivity.
Defined.

Lemma search_only_read city occasion cuisine_preference g nc cu w :
  only_read w (snd (search city occasion cuisine_preference g nc cu w)) 4.
Proof.
  unfold only_read, search, bind, execute_select, ret, log.
  repeat (cbn -[rank city_cuisines firstn select_rows];
          match goal with
          | |- context [match select_rows ?q ?p ?d with _ => _ end] =>
              destruct (select_rows q p d)
          | |- context [if ?b then _ else _] => destruct b
          end);
    cbn -[rank city_cuisines firstn select_rows];
    (split; [reflexivity|]); (split; [reflexivity|]);
    eexists; (split; [rewrite <- ?app_assoc; reflexivity|]);
    (split; [cbn; lia|]); repeat constructor.
Qed.

(** X4. [get_recommendations] only reads: whatever it is asked and whatever
    it answers, the tables and the connection are as before, and it has
    executed at most four statements, all of them [SELECT]s. *)
Theorem get_recommendations_only_reads :
  forall cat city occasion cuisine_preference group_size w,
    only_read w (snd (get_recommendations cat city occasion cuisine_preference
                                          group_size w)) 4.
Proof.
  intros. unfold get_recommendations.
  assert (Hsame : only_read w w 4).
  { repeat split. exists []. rewrite app_nil_r. repeat split; [cbn; lia | constructor]. }
  destruct (connected w); cbn [negb snd]; [|exact Hsame].
  destruct (coerce_group_size group_size) as [g|]; cbn [snd]; [|exact Hsame].
  destruct (negb _); cbn [snd]; [exact Hsame|].
  pose proof (search_only_read city occasion cuisine_preference g
                (if opt_truthy city then normalize_city cat city else None)
                (if opt_truthy cuisine_preference
                 then normalize_cuisine cat cuisine_preference else None) w) as H.
  destruct (search _ _ _ _ _ _ _) as [[r|e] w1]; exact H.
Qed.

End RecommendFacts.

(* ===================================================================== *)
(** * search_restaurants and get_restaurant_details *)
(* ===================================================================== *)

Module LookupFacts.
Import Py Foodie Spec Laws PyFacts StringFacts BookingFacts.

Lemma like_percent (rest t : string) :
  like (String "%" rest) t
  = like rest t
    || match t with
       | EmptyString => false
       | String _ t' => like (String "%" rest) t'
       end.
Proof. destruct t; reflexivity. Qed.

Lemma like_any (t : string) : like "%" t = true.
Proof.
  induction t as [|a t IH]; [reflexivity|].
  rewrite like_percent, IH. apply orb_true_r.
Qed.

Lemma like_plain_char (c : ascii) (rest t : string) :
  plain_char c = true ->
  like (String c rest) t
  = match t with
    | EmptyString => false
    | String a t' => Ascii.eqb a c && like rest t'
    end.
Proof.
  unfold plain_char. intros H.
  apply andb_prop in H as [H H3]. apply andb_prop in H as [H1 H2].
  apply negb_true_iff in H1, H2, H3.
  cbn [like]. rewrite H1, H2, H3. destruct t; reflexivity.
Qed.

Lemma prefix_cons (c a : ascii) (s t : string) :
  String.prefix (String c s) (String a t) = Ascii.eqb a c && String.prefix s t.
Proof.
  cbn [String.prefix]. destruct (ascii_dec c a) as [->|n].
  - now rewrite Ascii.eqb_refl.
  - destruct (Ascii.eqb a c) eqn:E; [|reflexivity].
    apply Ascii.eqb_eq in E. congruence.
Qed.

Lemma like_prefix (s t : string) :
  plain s = true -> like (s ++ "%") t = String.prefix s t.
Proof.
  revert t. induction s as [|c s IH]; intros t H.
  - cbn [append]. rewrite like_any. now destruct t.
  - cbn [plain] in H. apply andb_prop in H as [Hc Hs].
    cbn [append]. rewrite (like_plain_char _ _ _ Hc).
    destruct t as [|a t]; [reflexivity|].
    now rewrite prefix_cons, IH.
Qed.

(** Between two [%] a plain text is looked for anywhere. *)
Lemma like_contains (s t : string) :
  plain s = true -> like ("%" ++ s ++ "%") t = contains s t.
Proof.
  intros H. induction t as [|a t IH].
  - cbn [append]. rewrite like_percent, (like_prefix _ _ H). cbn [contains].
    now rewrite orb_false_r.
  - cbn [append] in *. rewrite like_percent, (like_prefix _ _ H), IH.
    reflexivity.
Qed.

Lemma plain_lower_char (c : ascii) :
  plain_char c = true -> plain_char (lower_char c) = true.
Proof.
  destruct c as [[] [] [] [] [] [] [] []]; vm_compute; intros H;
    first [reflexivity | discriminate H].
Qed.

Lemma plain_lower (s : string) : plain s = true -> plain (lower s) = true.
Proof.
  induction s as [|c s IH]; cbn; [reflexivity|]. intros H.
  apply andb_prop in H as [Hc Hs]. now rewrite plain_lower_char, IH.
Qed.

Lemma name_matches_named (n : string) (city : option string) (r : Row.t) :
  plain n = true ->
  name_matches ("%" ++ n ++ "%") city r = named n city r.
Proof.
  intros H. unfold name_matches, named.
  rewrite !lower_append. change (lower "%") with "%".
  now rewrite like_contains by now apply plain_lower.
Qed.

Lemma agrees_constraint (c : clause) (column : Row.t -> string)
    (o : option string) (r : Row.t) :
  (forall s, holds r (c, PStr s) = String.eqb (lower (column r)) (lower s)) ->
  forallb (holds r) (constraint_on c o) = true <-> agrees column o r.
Proof.
  intros Hh. unfold constraint_on, agrees.
  destruct o as [s|]; [destruct (str_truthy s) eqn:Hs|]; cbn [forallb].
  - rewrite Hh, andb_true_r, String.eqb_eq. split.
    + intros H s' E _. now injection E as <-.
    + intros H. now apply H.
  - split; [|reflexivity]. intros _ s' E Hs'. injection E as <-. congruence.
  - split; [|reflexivity]. intros _ s' E. discriminate E.
Qed.

(** X5. With a connection [search_restaurants] answers [error] exactly
    when one of the texts it sends (the resolved city, the resolved
    cuisine, the mood, each when it is set) holds a NUL, which the driver
    refuses; otherwise it answers [success], its rows are, in table order,
    the rows of the table that have every value that is set in its column,
    letter case apart, and [count] is their number. *)
Theorem search_restaurants_exact :
  forall cat city cuisine mood w,
    connected w = true ->
    let texts := sent (resolved_city cat city) (resolved_cuisine cat cuisine)
                      mood in
    let rows := matching (db w)
                  (constraint_on City (resolved_city cat city)
                   ++ constraint_on Cuisine (resolved_cuisine cat cuisine)
                   ++ constraint_on Mood mood) in
    let answer := fst (search_restaurants cat city cuisine mood w) in
    (forallb nul_free texts = true ->
     answer = Found (List.length rows)
                    (SearchParams city (resolved_city cat city) cuisine
                                  (resolved_cuisine cat cuisine) mood)
                    (normalization_of city (resolved_city cat city)
                                      cuisine (resolved_cuisine cat cuisine))
                    rows)
    /\ (forallb nul_free texts = false ->
        answer = SearchError (Exception nul_error))
    /\ (forall r,
          In r rows
          <-> In r (restaurants (db w))
              /\ agrees Row.city (resolved_city cat city) r
              /\ agrees Row.cuisine (resolved_cuisine cat cuisine) r
              /\ agrees Row.mood mood r).
Proof.
  intros cat city cuisine mood w Hw texts rows answer.
  subst texts rows answer. split; [|split].
  1, 2: unfold search_restaurants; rewrite Hw; cbn [negb];
    fold (resolved_city cat city); fold (resolved_cuisine cat cuisine);
    unfold execute_select, select_rows, matching, opt_clause, opt_param,
      constraint_on, sent, present, opt_truthy;
    destruct (resolved_city cat city) as [a|]; [destruct (str_truthy a)|];
    (destruct (resolved_cuisine cat cuisine) as [b|];
     [destruct (str_truthy b)|]);
    (destruct mood as [m|]; [destruct (str_truthy m)|]);
    cbn -[nul_free normalization_of];
    repeat match goal with
           | |- context [nul_free ?s] => destruct (nul_free s)
           end;
    cbn -[normalization_of]; intros H;
    first [reflexivity | discriminate H].
  intros r. unfold matching. rewrite filter_In, !forallb_app, !andb_true_iff.
  rewrite (agrees_constraint City Row.city) by reflexivity.
  rewrite (agrees_constraint Cuisine Row.cuisine) by reflexivity.
  rewrite (agrees_constraint Mood Row.mood) by reflexivity.
  reflexivity.
Qed.

Lemma search_restaurants_exact_witness :
  fst (search_restaurants Demo.cat (Some "Chicago") (Some "Italian") None
                          (Demo.online Demo.chicago))
  = Found 1
          (SearchParams (Some "Chicago") (Some "chicago") (Some "Italian")
                        (Some "italian") None)
          (Normalization None None)
          [Demo.trattoria].
Proof.
  exact (proj1 (search_restaurants_exact Demo.cat (Some "Chicago")
                  (Some "Italian") None (Demo.online Demo.chicago) eq_refl)
               eq_refl).
Defined.

(** X6. With a connection and a name without the wildcard characters of
    [LIKE], [get_restaurant_details] answers with the first row of the
    table whose name contains the given one, letter case apart, in the
    resolved city when one is usable; and with [not_found] when there is no
    such row. When the name or the city holds the character NUL, the driver
    refuses the lookup and the answer is that error. *)
Theorem details_by_name :
  forall cat restaurant_name city w,
    connected w = true ->
    plain (fstr restaurant_name) = true ->
    fst (get_restaurant_details cat restaurant_name city w)
    = if sendable_lookup cat (fstr restaurant_name) city then
        match find (named (fstr restaurant_name) (lookup_city cat city))
                   (restaurants (db w)) with
        | Some r => Details restaurant_name city (resolved_city cat city) r
        | None => DetailsNotFound restaurant_name city (resolved_city cat city)
        end
      else DetailsError (Exception nul_error).
Proof.
  intros cat restaurant_name city w Hw Hp.
  unfold get_restaurant_details, execute_select_by_name. rewrite Hw. cbn [negb].
  fold (resolved_city cat city). fold (usable_city cat city).
  fold (lookup_city cat city).
  unfold sendable_lookup.
  rewrite <- (nul_free_pattern (fstr restaurant_name)).
  destruct (nul_free _ && _); [|reflexivity].
  rewrite (find_ext _ (named (fstr restaurant_name) (lookup_city cat city))
             (restaurants (db w)))
    by (intros r; now apply name_matches_named).
  now destruct (find _ _).
Qed.

Lemma details_by_name_witness :
  fst (get_restaurant_details Demo.cat (Some "cant") (Some "Chicago")
                              (Demo.online Demo.chicago))
  = Details (Some "cant") (Some "Chicago") (Some "chicago") Demo.cantina.
Proof.
  exact (details_by_name Demo.cat (Some "cant") (Some "Chicago")
           (Demo.online Demo.chicago) eq_refl eq_refl).
Defined.

Lemma only_read_one (w : world) (s : statement) :
  is_select s -> only_read w (log s w) 1.
Proof.
  intros Hs. unfold only_read, log. cbn.
  split; [reflexivity|]. split; [reflexivity|].
  exists [s]. split; [reflexivity|]. split; [cbn; lia|]. now constructor.
Qed.

Lemma only_read_refl (w : world) (n : nat) : only_read w w n.
Proof.
  unfold only_read. split; [reflexivity|]. split; [reflexivity|].
  exists []. rewrite app_nil_r. split; [reflexivity|].
  split; [cbn; lia | constructor].
Qed.

(** X7. [search_restaurants] and [get_restaurant_details] only read: the
    tables and the connection are as before, and each has executed at most
    one statement, a [SELECT]. *)
Theorem lookups_only_read :
  forall cat a b c w,
    only_read w (snd (search_restaurants cat a b c w)) 1
    /\ only_read w (snd (get_restaurant_details cat a b w)) 1.
Proof.
  intros. split.
  - unfold search_restaurants.
    destruct (negb (connected w)); [apply only_read_refl|].
    unfold execute_select.
    destruct (select_rows _ _ _); cbn [snd]; now apply only_read_one.
  - unfold get_restaurant_details.
    destruct (negb (connected w)); [apply only_read_refl|].
    unfold execute_select_by_name.
    destruct (nul_free _ && _); [destruct (find _ _)|]; cbn [snd];
      now apply only_read_one.
Qed.

End LookupFacts.

(* ===================================================================== *)
(** * The reservations book_restaurant writes *)
(* ===================================================================== *)

Module ReservationFacts.
Import Py Foodie Spec Laws PyFacts StringFacts BookingFacts.

(** All the ways through [book_restaurant]. *)
Ltac book_cases :=
  unfold book_restaurant, book, bind, execute_select_by_name, execute_insert,
    execute_update, ret, log;
  repeat match goal with
         | |- context [match booking_missing_fields ?a ?b ?c ?d ?e with _ => _ end] =>
             destruct (booking_missing_fields a b c d e) eqn:?
         | |- context [match int ?p with _ => _ end] => destruct (int p) eqn:?
         | |- context [match find ?f ?l with _ => _ end] => destruct (find f l) eqn:?
         | |- context [match varchar ?n ?s with _ => _ end] => destruct (varchar n s) eqn:?
         | |- context [if ?b then _ else _] => destruct b eqn:?
         | |- context [match ?b with true => _ | false => _ end] => destruct b eqn:?
         end.

Lemma refused_booking cat restaurant_name reservation_time party_size
    customer_name contact_number city w :
  booking_status (fst (book_restaurant cat restaurant_name reservation_time
                         party_size customer_name contact_number city w))
  <> "success" ->
  restaurants (db (snd (book_restaurant cat restaurant_name reservation_time
                          party_size customer_name contact_number city w)))
  = restaurants (db w).
Proof.
  book_cases; cbn; intros; try reflexivity; congruence.
Qed.

(** X8. A booking that is not confirmed leaves the restaurants as they
    were: an [incomplete] request does not reach the database at all, and
    [not_found], [unavailable_time] and [insufficient_capacity] leave both
    tables untouched. Only an [error] may leave a reservation behind. *)
Theorem refused_booking_writes_nothing :
  forall cat restaurant_name reservation_time party_size customer_name
         contact_number city w,
    let answer := book_restaurant cat restaurant_name reservation_time
                    party_size customer_name contact_number city w in
    (booking_status (fst answer) = "incomplete" -> snd answer = w)
    /\ (booking_status (fst answer) <> "success" ->
        restaurants (db (snd answer)) = restaurants (db w))
    /\ (booking_status (fst answer) <> "success" ->
        booking_status (fst answer) <> "error" ->
        db (snd answer) = db w).
Proof.
  intros. subst answer. book_cases; cbn; repeat split; intros;
    try reflexivity; try discriminate; try congruence.
Qed.

Lemma reserved_new (rs : list Row.t) (res : list reservation) (seq : Z)
    (rs' : list Row.t) (seq' : Z) (x : reservation) (id : Z) :
  reserved (Database rs' (res ++ [x]) seq') id
  = (reserved (Database rs res seq) id
     + if (restaurant_id x =? id)%Z then party_size x else 0)%Z.
Proof.
  unfold reserved. cbn [reservations].
  induction res as [|y t IH]; cbn [app fold_right].
  - destruct (restaurant_id x =? id)%Z; lia.
  - rewrite IH. destruct (restaurant_id y =? id)%Z; lia.
Qed.

Lemma seats_after_booking (d : database) (r : Row.t) (P : Z)
    (slots : list string) (x : reservation) (seq' : Z) :
  unique_ids d -> In r (restaurants d) ->
  restaurant_id x = Row.id r -> party_size x = P ->
  let d' := Database (update_table (Row.available_capacity r - P) slots
                                   (Row.id r) (restaurants d))
                     (reservations d ++ [x]) seq' in
  Permutation (map (fun y => (Row.id y, seats d' y)) (restaurants d'))
              (map (fun y => (Row.id y, seats d y)) (restaurants d)).
Proof.
  intros Hu Hr Hx HP d'. subst d'. cbn [restaurants].
  eapply Permutation_trans; [apply Permutation_map, update_table_perm|].
  rewrite map_map.
  match goal with
  | |- Permutation ?l ?l' => replace l with l'; [apply Permutation_refl|]
  end.
  apply map_ext_in. intros y Hy. unfold seats.
  destruct d as [rs res seq]. cbn [restaurants reservations] in *.
  unfold update_row. destruct (Row.id y =? Row.id r)%Z eqn:E.
  - apply Z.eqb_eq in E.
    assert (y = r) by (eapply NoDup_map_eq; eauto). subst y.
    cbn [Row.available_capacity Row.id].
    rewrite (reserved_new rs res seq), Hx, Z.eqb_refl. f_equal. lia.
  - rewrite (reserved_new rs res seq), Hx, Z.eqb_sym, E. f_equal. lia.
Qed.

(** X9. As long as the ids of the restaurants differ, a booking that does
    not end in [error] conserves the seats of every restaurant: the free
    seats and the seats of its reservations add up to what they added up
    to before. The table has the same restaurants, each, by its id, with
    the seats it had; the order in which it reads them may change. *)
Theorem seats_conserved :
  forall cat restaurant_name reservation_time party_size customer_name
         contact_number city w,
    unique_ids (db w) ->
    let answer := book_restaurant cat restaurant_name reservation_time
                    party_size customer_name contact_number city w in
    booking_status (fst answer) <> "error" ->
    Permutation
      (map (fun r => (Row.id r, seats (db (snd answer)) r))
           (restaurants (db (snd answer))))
      (map (fun r => (Row.id r, seats (db w) r)) (restaurants (db w))).
Proof.
  intros * Hu answer. subst answer. book_cases; cbn -[seats update_table];
    intros Hs; try apply Permutation_refl; try (now destruct Hs).
  all: match goal with
       | Hf : find _ _ = Some ?r |- _ =>
           apply find_some in Hf as [Hin _];
           apply (seats_after_booking (db w) r); auto
       end.
Qed.

Lemma chicago_unique_ids : unique_ids Demo.chicago.
Proof.
  unfold unique_ids. cbn.
  repeat (constructor; [cbn; intuition discriminate|]). constructor.
Qed.

Lemma chicago_ids_issued : ids_issued Demo.chicago.
Proof. constructor. Qed.

Lemma seats_conserved_witness :
  let w := Demo.online Demo.chicago in
  let answer := book_restaurant Demo.cat (Some "cantina") (Some "7:00 PM")
                                (PInt 4) (Some "Ann") (Some "555-0100")
                                None w in
  Permutation
    (map (fun r => (Row.id r, seats (db (snd answer)) r))
         (restaurants (db (snd answer))))
    (map (fun r => (Row.id r, seats (db w) r)) (restaurants (db w))).
Proof.
  apply (seats_conserved Demo.cat (Some "cantina") (Some "7:00 PM") (PInt 4)
           (Some "Ann") (Some "555-0100") None (Demo.online Demo.chicago)).
  - exact chicago_unique_ids.
  - vm_compute. discriminate.
Defined.

(** The lookup of a confirmed booking was one the driver sends. *)
Lemma success_sendable cat restaurant_name reservation_time party_size
    customer_name contact_number city w :
  booking_status (fst (book_restaurant cat restaurant_name reservation_time
                         party_size customer_name contact_number city w))
  = "success" ->
  sendable_lookup cat (text restaurant_name) city = true.
Proof.
  unfold book_restaurant, sendable_lookup, lookup_city, usable_city,
    resolved_city.
  rewrite <- nul_free_pattern.
  destruct (booking_missing_fields _ _ _ _ _); [|cbn; discriminate].
  destruct (int party_size); [|cbn; discriminate].
  destruct (negb (connected w)); [cbn; discriminate|].
  unfold book, bind, execute_select_by_name.
  destruct (nul_free _ && _); [reflexivity | cbn; discriminate].
Qed.

(** What a confirmed booking leaves behind. *)
Lemma booking_success_state cat restaurant_name reservation_time party_size
    customer_name contact_number city w :
  let answer := book_restaurant cat restaurant_name reservation_time
                  party_size customer_name contact_number city w in
  booking_status (fst answer) = "success" ->
  exists r P customer contact time,
    fetched cat restaurant_name city (db w) = Some r
    /\ booking_missing_fields restaurant_name reservation_time party_size
                              customer_name contact_number = []
    /\ int party_size = Some P
    /\ connected w = true
    /\ In (text reservation_time) (Row.available_reservations r)
    /\ (P <= Row.available_capacity r)%Z
    /\ varchar 255 (text customer_name) = Some customer
    /\ varchar 20 (text contact_number) = Some contact
    /\ varchar 20 (text reservation_time) = Some time
    /\ fst answer
       = Success (Confirmation (reservations_id_seq (db w)) (Row.id r)
                    (Row.name r) (Row.address r) (Row.city r)
                    (text reservation_time) P (text customer_name)
                    (text contact_number))
    /\ connected (snd answer) = true
    /\ db (snd answer)
       = Database
           (update_table (Row.available_capacity r - P)
                         (remove_first (text reservation_time)
                                       (Row.available_reservations r))
                         (Row.id r)
                         (restaurants (db w)))
           (reservations (db w)
            ++ [Reservation (reservations_id_seq (db w)) (Row.id r) customer
                            contact P time])
           (reservations_id_seq (db w) + 1).
Proof.
  intros answer. subst answer.
  unfold fetched, lookup_city, usable_city, resolved_city.
  book_cases; cbn -[update_table]; intros Hs; try discriminate Hs.
  all: match goal with
       | Hc : negb (connected _) = false,
         Ht : negb (str_in _ _) = false,
         Hp : (_ <? _)%Z = false |- _ =>
           apply negb_false_iff in Hc, Ht; apply str_in_In in Ht;
           apply Z.ltb_ge in Hp
       end.
  all: do 5 eexists; repeat split; try eassumption; try reflexivity.
Qed.

(** X10. No booking oversells: when no restaurant has a negative number of
    free seats, none has after [book_restaurant], whatever it was asked and
    whatever it answers. *)
Theorem capacity_never_negative :
  forall cat restaurant_name reservation_time party_size customer_name
         contact_number city w,
    Forall (fun r => (0 <= Row.available_capacity r)%Z) (restaurants (db w)) ->
    Forall (fun r => (0 <= Row.available_capacity r)%Z)
           (restaurants
              (db (snd (book_restaurant cat restaurant_name reservation_time
                          party_size customer_name contact_number city w)))).
Proof.
  intros cat rn rt ps cn ct city w Hall.
  destruct (string_dec
              (booking_status (fst (book_restaurant cat rn rt ps cn ct city w)))
              "success") as [Hs|Hs].
  - destruct (booking_success_state _ _ _ _ _ _ _ _ Hs)
      as (r & P & cu & co & ti & _ & _ & _ & _ & _ & HP & _ & _ & _ & _ & _
          & Hd).
    rewrite Hd. cbn [restaurants].
    eapply Permutation_Forall; [apply Permutation_sym, update_table_perm|].
    rewrite Forall_forall in *.
    intros y Hy. apply in_map_iff in Hy as (x & <- & Hx).
    unfold update_row. destruct (Row.id x =? Row.id r)%Z.
    + cbn [Row.available_capacity]. lia.
    + now apply Hall.
  - now rewrite refused_booking.
Qed.

Lemma capacity_never_negative_witness :
  Forall (fun r => (0 <= Row.available_capacity r)%Z)
         (restaurants
            (db (snd (book_restaurant Demo.cat (Some "cantina")
                        (Some "7:00 PM") (PInt 30) (Some "Ann")
                        (Some "555-0100") None (Demo.online Demo.chicago))))).
Proof.
  apply capacity_never_negative.
  repeat (constructor; [cbn; lia|]). constructor.
Defined.

Lemma name_matches_update (p : string) (c : option string) (cap : Z)
    (sl : list string) (id : Z) (x : Row.t) :
  name_matches p c (update_row cap sl id x) = name_matches p c x.
Proof.
  unfold name_matches, update_row. now destruct (Row.id x =? id)%Z.
Qed.

Lemma count_occ_remove_first (x : string) (l : list string) :
  In x l ->
  S (count_occ string_dec (remove_first x l) x) = count_occ string_dec l x.
Proof.
  induction l as [|y t IH]; intros Hin; [contradiction|].
  cbn [remove_first count_occ].
  destruct (String.eqb y x) eqn:E.
  - apply String.eqb_eq in E. subst y.
    destruct (string_dec x x); [reflexivity | congruence].
  - apply String.eqb_neq in E. destruct Hin as [Hin|Hin]; [congruence|].
    cbn [count_occ]. destruct (string_dec y x); [congruence | now apply IH].
Qed.

(** The lookup after the update of the one restaurant it matches: the
    restaurant again, as updated. *)
Lemma find_after_update (p : Row.t -> bool) (cap : Z) (sl : list string)
    (r : Row.t) (rows : list Row.t) :
  (forall x, p (update_row cap sl (Row.id r) x) = p x) ->
  (forall x, In x rows -> p x = true -> Row.id x = Row.id r) ->
  find p rows = Some r ->
  exists r', In r' rows /\ Row.id r' = Row.id r
             /\ find p (update_table cap sl (Row.id r) rows)
                = Some (update_row cap sl (Row.id r) r').
Proof.
  intros Hp Hone Hf. unfold update_table.
  rewrite find_app_none.
  - rewrite find_map by exact Hp.
    destruct (find p (filter (fun x => (Row.id x =? Row.id r)%Z) rows))
      as [r'|] eqn:E.
    + apply find_some in E as [Hin _]. apply filter_In in Hin as [Hin Hid].
      apply Z.eqb_eq in Hid. now exists r'.
    + apply find_some in Hf as [Hin Hr].
      assert (Hin' : In r (filter (fun x => (Row.id x =? Row.id r)%Z) rows)).
      { apply filter_In. split; [exact Hin | apply Z.eqb_refl]. }
      pose proof (find_none _ _ E _ Hin') as Hn. congruence.
  - intros x Hx. apply filter_In in Hx as [Hx Hid].
    destruct (p x) eqn:E; [|reflexivity].
    apply Hone in E; [|exact Hx]. apply Z.eqb_eq in E.
    rewrite E in Hid. discriminate Hid.
Qed.

(** X11. A slot a restaurant lists once is booked once: when the lookup
    matches that restaurant and no other, after a confirmed booking of the
    slot a second complete request for the same restaurant and time is
    answered [unavailable_time], with the slots that are left. *)
Theorem slot_booked_once :
  forall cat restaurant_name reservation_time party_size customer_name
         contact_number party_size2 customer_name2 contact_number2 city w r,
    fetched cat restaurant_name city (db w) = Some r ->
    only_named cat restaurant_name city (db w) r ->
    count_occ string_dec (Row.available_reservations r)
              (text reservation_time) = 1 ->
    let first := book_restaurant cat restaurant_name reservation_time
                   party_size customer_name contact_number city w in
    booking_status (fst first) = "success" ->
    booking_missing_fields restaurant_name reservation_time party_size2
                           customer_name2 contact_number2 = [] ->
    fst (book_restaurant cat restaurant_name reservation_time party_size2
                         customer_name2 contact_number2 city (snd first))
    = UnavailableTime (remove_first (text reservation_time)
                                    (Row.available_reservations r)).
Proof.
  intros cat rn rt ps cn ct ps2 cn2 ct2 city w r Hf Hone Hcount first Hs Hm2.
  pose proof (success_sendable _ _ _ _ _ _ _ _ Hs) as Hsend.
  destruct (booking_success_state _ _ _ _ _ _ _ _ Hs)
    as (r' & P & cu & co & ti & Hf' & _ & _ & _ & HT & _ & _ & _ & _ & _
        & Hc & Hd).
  fold first in Hc, Hd. rewrite Hf in Hf'. injection Hf' as <-.
  destruct (missing_fields_nil_int _ _ _ _ _ Hm2) as [P2 HP2].
  unfold book_restaurant. rewrite Hm2, HP2, Hc. cbn [negb].
  unfold book, bind, execute_select_by_name. rewrite Hd. cbn [restaurants db].
  unfold fetched in Hf. unfold only_named in Hone.
  unfold sendable_lookup in Hsend.
  rewrite <- (nul_free_pattern (text rn)) in Hsend.
  unfold lookup_city, usable_city, resolved_city in Hf, Hone, Hsend.
  rewrite Hsend.
  destruct (find_after_update _ (Row.available_capacity r - P)
              (remove_first (text rt) (Row.available_reservations r))
              r (restaurants (db w))
              (fun x => name_matches_update _ _ _ _ _ x) Hone Hf)
    as (r' & _ & Hid & ->).
  unfold update_row. rewrite Hid, Z.eqb_refl.
  cbn [Row.available_reservations].
  pose proof (count_occ_remove_first _ _ HT) as Hc1. rewrite Hcount in Hc1.
  injection Hc1 as Hc1.
  apply (count_occ_not_In string_dec) in Hc1.
  destruct (str_in _ _) eqn:E; [apply str_in_In in E; contradiction|].
  reflexivity.
Qed.

Lemma trattoria_only_named :
  only_named Demo.cat (Some "trattoria") None Demo.chicago Demo.trattoria.
Proof.
  intros x [<-|[<-|[<-|[]]]] H; first [reflexivity | discriminate H].
Qed.

Lemma slot_booked_once_witness :
  fst (book_restaurant Demo.cat (Some "trattoria") (Some "6:00 PM") (PInt 2)
         (Some "Bob") (Some "555-0101") None
         (snd (book_restaurant Demo.cat (Some "trattoria") (Some "6:00 PM")
                 (PInt 4) (Some "Ann") (Some "555-0100") None
                 (Demo.online Demo.chicago))))
  = UnavailableTime ["8:00 PM"].
Proof.
  exact (slot_booked_once Demo.cat (Some "trattoria") (Some "6:00 PM")
           (PInt 4) (Some "Ann") (Some "555-0100")
           (PInt 2) (Some "Bob") (Some "555-0101") None
           (Demo.online Demo.chicago) Demo.trattoria
           eq_refl trattoria_only_named eq_refl eq_refl eq_refl).
Defined.

Lemma update_row_id (cap : Z) (sl : list string) (id : Z) (x : Row.t) :
  Row.id (update_row cap sl id x) = Row.id x.
Proof. unfold update_row. now destruct (Row.id x =? id)%Z. Qed.

Lemma unique_ids_update (rs : list Row.t) (res res' : list reservation)
    (seq seq' cap id : Z) (sl : list string) :
  unique_ids (Database rs res seq) ->
  unique_ids (Database (update_table cap sl id rs) res' seq').
Proof.
  unfold unique_ids. cbn [restaurants]. intros H.
  eapply Permutation_NoDup;
    [apply Permutation_sym, Permutation_map, update_table_perm|].
  rewrite map_map.
  now rewrite (map_ext (fun x => Row.id (update_row cap sl id x)) Row.id)
    by (intros; apply update_row_id).
Qed.

Lemma ids_issued_insert (rs rs' : list Row.t) (res : list reservation)
    (seq : Z) (x : reservation) :
  ids_issued (Database rs res seq) -> reservation_id x = seq ->
  ids_issued (Database rs' (res ++ [x]) (seq + 1)).
Proof.
  unfold ids_issued. cbn [reservations reservations_id_seq]. intros H Hx.
  apply Forall_app. split.
  - eapply Forall_impl; [|exact H]. cbn. intros. lia.
  - constructor; [lia | constructor].
Qed.

(** X12. [book_restaurant] keeps the keys in order, whatever it answers:
    the ids of the restaurants stay different, and every reservation has an
    id below the next one the sequence gives. *)
Theorem booking_keeps_ids_in_order :
  forall cat restaurant_name reservation_time party_size customer_name
         contact_number city w,
    unique_ids (db w) ->
    ids_issued (db w) ->
    unique_ids
      (db (snd (book_restaurant cat restaurant_name reservation_time
                  party_size customer_name contact_number city w)))
    /\ ids_issued
         (db (snd (book_restaurant cat restaurant_name reservation_time
                     party_size customer_name contact_number city w))).
Proof.
  intros cat rn rt ps cn ct city w Hu Hi.
  destruct (db w) as [rs res seq] eqn:Hd.
  revert Hd. book_cases; intros Hd; cbn -[update_table]; rewrite ?Hd;
    cbn -[update_table];
    (split;
     [first [exact Hu | now apply (unique_ids_update rs res _ seq)]
     |first [exact Hi | now apply (ids_issued_insert rs)]]).
Qed.

Lemma booking_keeps_ids_in_order_witness :
  let w' := snd (book_restaurant Demo.cat (Some "cantina") (Some "7:00 PM")
                   (PInt 4) (Some "Ann") (Some "555-0100") None
                   (Demo.online Demo.chicago)) in
  unique_ids (db w') /\ ids_issued (db w').
Proof.
  exact (booking_keeps_ids_in_order Demo.cat (Some "cantina")
           (Some "7:00 PM") (PInt 4) (Some "Ann") (Some "555-0100") None
           (Demo.online Demo.chicago) chicago_unique_ids chicago_ids_issued).
Defined.

(** The rows of the join for a reservation at [r], after the update of
    [r]: the updated row comes first. *)
Lemma joined_rows_of (rs : list Row.t) (r : Row.t) (cap : Z)
    (sl : list string) :
  NoDup (map Row.id rs) -> In r rs ->
  exists rest,
    filter (fun res => (Row.id res =? Row.id r)%Z)
           (update_table cap sl (Row.id r) rs)
    = update_row cap sl (Row.id r) r :: rest.
Proof.
  intros Hn Hr.
  set (F := filter _ _).
  assert (Hall : forall y, In y F -> y = update_row cap sl (Row.id r) r).
  { intros y Hy. apply filter_In in Hy as [Hy E].
    apply (Permutation_in _ (update_table_perm _ _ _ _)) in Hy.
    apply in_map_iff in Hy as (x & <- & Hx).
    rewrite update_row_id in E. apply Z.eqb_eq in E.
    now rewrite (NoDup_map_eq Row.id rs x r Hn Hx Hr E). }
  assert (Hin : In (update_row cap sl (Row.id r) r) F).
  { apply filter_In. split.
    - apply (Permutation_in _ (Permutation_sym (update_table_perm _ _ _ _))).
      now apply in_map.
    - rewrite update_row_id. apply Z.eqb_refl. }
  destruct F as [|y rest]; [contradiction|].
  exists rest. f_equal. apply Hall. now left.
Qed.

(** X13. A confirmed booking can be checked: with the keys in order,
    [check_reservation] of the confirmation number, in the world the
    booking left, finds the reservation, with the party size, the
    restaurant, its address and its city of the confirmation, and the name,
    the number and the time as their columns store them. *)
Theorem booking_can_be_checked :
  forall cat restaurant_name reservation_time party_size customer_name
         contact_number city w data,
    unique_ids (db w) ->
    ids_issued (db w) ->
    let answer := book_restaurant cat restaurant_name reservation_time
                    party_size customer_name contact_number city w in
    fst answer = Success data ->
    exists customer contact time,
      varchar 255 (conf_customer_name data) = Some customer
      /\ varchar 20 (conf_contact_number data) = Some contact
      /\ varchar 20 (conf_time data) = Some time
      /\ check_reservation (confirmation_id data) (snd answer)
         = ReservationFound
             (ReservationDetails (confirmation_id data) customer contact
                                 (conf_party_size data) time
                                 (conf_restaurant_name data)
                                 (conf_address data) (conf_city data)).
Proof.
  intros cat rn rt ps cn ct city w data Hu Hi answer Ha.
  assert (Hs : booking_status (fst answer) = "success") by now rewrite Ha.
  destruct (booking_success_state _ _ _ _ _ _ _ _ Hs)
    as (r & P & cu & co & ti & Hf & _ & _ & _ & _ & _ & Hcu & Hco & Hti & Hd'
        & Hc & Hd).
  fold answer in Hd', Hc, Hd. rewrite Ha in Hd'. injection Hd' as ->.
  cbn [conf_customer_name conf_contact_number conf_time confirmation_id
       conf_party_size conf_restaurant_name conf_address conf_city].
  exists cu, co, ti. repeat (split; [assumption|]).
  unfold check_reservation. rewrite Hc, Hd. cbn [negb].
  unfold joined. cbn [restaurants reservations]. rewrite flat_map_app.
  rewrite find_app_none.
  - cbn [flat_map restaurant_id]. rewrite app_nil_r.
    apply find_some in Hf as [Hin _].
    destruct (joined_rows_of (restaurants (db w)) r
                (Row.available_capacity r - P)
                (remove_first (text rt) (Row.available_reservations r))
                Hu Hin)
      as [rest ->].
    cbn [map find fst reservation_id]. rewrite Z.eqb_refl.
    unfold update_row. rewrite Z.eqb_refl. reflexivity.
  - intros [x y] Hx. apply in_flat_map in Hx as (x' & Hx' & Hxy).
    apply in_map_iff in Hxy as (y' & E & _). injection E as <- <-.
    unfold ids_issued in Hi. rewrite Forall_forall in Hi.
    specialize (Hi _ Hx'). cbn [fst]. apply Z.eqb_neq. lia.
Qed.

Lemma booking_can_be_checked_witness :
  let answer := book_restaurant Demo.cat (Some "cantina") (Some "7:00 PM")
                                (PInt 4) (Some "Ann") (Some "555-0100")
                                None (Demo.online Demo.chicago) in
  exists customer contact time,
    varchar 255 "Ann" = Some customer
    /\ varchar 20 "555-0100" = Some contact
    /\ varchar 20 "7:00 PM" = Some time
    /\ check_reservation 100 (snd answer)
       = ReservationFound
           (ReservationDetails 100 customer contact 4 time "Cantina"
                               "1 Main St" "Chicago").
Proof.
  exact (booking_can_be_checked Demo.cat (Some "cantina") (Some "7:00 PM")
           (PInt 4) (Some "Ann") (Some "555-0100") None
           (Demo.online Demo.chicago)
           (Confirmation 100 3 "Cantina" "1 Main St" "Chicago" "7:00 PM" 4
                         "Ann" "555-0100")
           chicago_unique_ids chicago_ids_issued eq_refl).
Defined.

End ReservationFacts.

(* ===================================================================== *)
(** * validate_booking_info against book_restaurant *)
(* ===================================================================== *)

Module BookingValidation.
Import Py Foodie Spec PyFacts StringFacts BookingFacts.

Lemma validation_complete_iff rn rt ps cn ct city :
  v_status (validate_booking_info rn rt ps cn ct city) = "complete"
  <-> booking_missing_fields rn rt ps cn ct = [] /\ opt_truthy city = true.
Proof.
  unfold validate_booking_info, booking_missing_fields, when.
  cbn [v_status].
  destruct (opt_truthy rn), (opt_truthy rt), (truthy ps), (int ps),
    (opt_truthy cn), (opt_truthy ct), (opt_truthy city); cbn;
    split; intros H; try discriminate H; try (destruct H; discriminate);
    auto.
Qed.

(** X14. [validate_booking_info] and [book_restaurant] agree on what a
    complete request is: the validation answers [complete] exactly when the
    booking of the same values is not answered [incomplete] and a city is
    given, which the booking does not ask for. *)
Theorem validated_booking_is_not_incomplete :
  forall cat rn rt ps cn ct city w,
    v_status (validate_booking_info rn rt ps cn ct city) = "complete"
    <-> booking_status (fst (book_restaurant cat rn rt ps cn ct city w))
        <> "incomplete"
        /\ opt_truthy city = true.
Proof.
  intros. rewrite validation_complete_iff.
  assert (E : booking_missing_fields rn rt ps cn ct = []
              <-> booking_status (fst (book_restaurant cat rn rt ps cn ct city w))
                  <> "incomplete").
  { unfold book_restaurant.
    destruct (booking_missing_fields rn rt ps cn ct) as [|f l] eqn:Hm.
    - destruct (missing_fields_nil_int _ _ _ _ _ Hm) as [P ->].
      split; [intros _|reflexivity].
      destruct (negb (connected w)); [discriminate|].
      unfold book, bind, execute_select_by_name, execute_insert,
        execute_update, ret.
      repeat match goal with
             | |- context [match find ?f ?l with _ => _ end] => destruct (find f l)
             | |- context [match varchar ?n ?s with _ => _ end] => destruct (varchar n s)
             | |- context [if ?b then _ else _] => destruct b
             | |- context [match ?b with true => _ | false => _ end] => destruct b
             end; cbn; discriminate.
    - split; [discriminate|]. cbn. intros H. now destruct H. }
  now rewrite E.
Qed.

(** X15. A validation that answers [complete] has no missing field and
    hands back all six fields in the order of the parameters, the party
    size as the [int] it converts to. *)
Theorem complete_validation_fields :
  forall rn rt ps cn ct city,
    v_status (validate_booking_info rn rt ps cn ct city) = "complete" ->
    exists name time size customer contact c,
      int ps = Some size
      /\ v_missing_fields (validate_booking_info rn rt ps cn ct city) = []
      /\ v_provided_fields (validate_booking_info rn rt ps cn ct city)
         = [("restaurant_name", PStr name); ("reservation_time", PStr time);
            ("party_size", PInt size); ("customer_name", PStr customer);
            ("contact_number", PStr contact); ("city", PStr c)]
      /\ rn = Some name /\ rt = Some time /\ cn = Some customer
      /\ ct = Some contact /\ city = Some c.
Proof.
  intros * H.
  unfold validate_booking_info, when in *. cbn [v_status v_missing_fields v_provided_fields] in *.
  unfold checked_party_size.
  destruct (opt_truthy rn) eqn:H1, (opt_truthy rt) eqn:H2,
    (truthy ps) eqn:H3, (int ps) as [z|] eqn:H4,
    (opt_truthy cn) eqn:H5, (opt_truthy ct) eqn:H6,
    (opt_truthy city) eqn:H7; cbn in H; try discriminate H.
  apply opt_truthy_Some in H1 as (a & -> & _), H2 as (b & -> & _),
    H5 as (c & -> & _), H6 as (d & -> & _), H7 as (e & -> & _).
  exists a, b, z, c, d, e. cbn. repeat split.
Qed.

Lemma complete_validation_fields_witness :
  let v := validate_booking_info (Some "Cantina") (Some "7:00 PM") (PStr "4")
                                 (Some "Ann") (Some "555-0100")
                                 (Some "Chicago") in
  exists name time size customer contact c,
    int (PStr "4") = Some size
    /\ v_missing_fields v = []
    /\ v_provided_fields v
       = [("restaurant_name", PStr name); ("reservation_time", PStr time);
          ("party_size", PInt size); ("customer_name", PStr customer);
          ("contact_number", PStr contact); ("city", PStr c)]
    /\ Some "Cantina" = Some name /\ Some "7:00 PM" = Some time
    /\ Some "Ann" = Some customer /\ Some "555-0100" = Some contact
    /\ Some "Chicago" = Some c.
Proof.
  exact (complete_validation_fields (Some "Cantina") (Some "7:00 PM")
           (PStr "4") (Some "Ann") (Some "555-0100") (Some "Chicago")
           eq_refl).
Defined.

End BookingValidation.

(* ===================================================================== *)
(** * The catalog initialize_db_metadata fills *)
(* ===================================================================== *)

Module CatalogFacts.
Import Py Foodie Spec Laws PyFacts StringFacts BookingFacts.

Lemma dict_set_maps_into cities k v m :
  maps_into cities m -> In v cities -> maps_into cities (dict_set k v m).
Proof.
  unfold maps_into. intros Hm Hv.
  induction m as [|[k' v'] t IH]; cbn.
  - now repeat constructor.
  - inversion Hm as [|? ? Hk Ht]; subst.
    destruct (String.eqb k k'); constructor; auto.
Qed.

Lemma dict_get_maps_into cities k v m :
  maps_into cities m -> dict_get k m = Some v -> In v cities.
Proof.
  unfold maps_into. intros Hm.
  induction m as [|[k' v'] t IH]; cbn; [discriminate|].
  inversion Hm as [|? ? Hk Ht]; subst.
  destruct (String.eqb k k'); [|now apply IH].
  intros E. now injection E as <-.
Qed.

Lemma dict_set_keeps {V : Type} k k' (v : V) m :
  dict_get k m <> None -> dict_get k (dict_set k' v m) <> None.
Proof.
  destruct (String.eqb k k') eqn:E.
  - apply String.eqb_eq in E. subst. now rewrite dict_get_set_same.
  - induction m as [|[k2 v2] t IH]; cbn; [congruence|].
    destruct (String.eqb k' k2) eqn:E2; cbn.
    + apply String.eqb_eq in E2. subst k2. now rewrite E.
    + destruct (String.eqb k k2); [congruence | exact IH].
Qed.

Lemma fold_set_keeps {A V : Type} (key : A -> string) (val : A -> V) k l m :
  dict_get k m <> None ->
  dict_get k (fold_left (fun m x => dict_set (key x) (val x) m) l m) <> None.
Proof.
  revert m. induction l as [|x l IH]; intros m H; cbn; [exact H|].
  apply IH. now apply dict_set_keeps.
Qed.

Lemma fold_set_maps_into {A : Type} (key val : A -> string) cities l m :
  maps_into cities m -> (forall x, In x l -> In (val x) cities) ->
  maps_into cities (fold_left (fun m x => dict_set (key x) (val x) m) l m).
Proof.
  revert m. induction l as [|x l IH]; intros m Hm H; cbn; [exact Hm|].
  apply IH.
  - apply dict_set_maps_into; [exact Hm | apply H; now left].
  - intros y Hy. apply H. now right.
Qed.

Lemma fold_set_has {A V : Type} (key : A -> string) (val : A -> V) x l m :
  In x l ->
  dict_get (key x) (fold_left (fun m x => dict_set (key x) (val x) m) l m)
  <> None.
Proof.
  revert m. induction l as [|y l IH]; intros m H; [contradiction|]. cbn.
  destruct H as [->|H]; [|now apply IH].
  apply fold_set_keeps. now rewrite dict_get_set_same.
Qed.

(** What the two loops leave in the mapping. *)
Lemma fill_city_mappings_spec cities m :
  maps_into cities m ->
  maps_into cities (fill_city_mappings cities m)
  /\ forall c, In c cities ->
               dict_get c (fill_city_mappings cities m) <> None.
Proof.
  intros Hm. unfold fill_city_mappings.
  set (m1 := fold_left (fun m city => dict_set city city m) cities m).
  assert (H1 : maps_into cities m1).
  { apply (fold_set_maps_into (fun c => c) (fun c => c)); auto. }
  assert (H2 : forall c, In c cities -> dict_get c m1 <> None).
  { intros c Hc. apply (fold_set_has (fun c => c) (fun c => c)), Hc. }
  clearbody m1. clear Hm m.
  generalize city_variations as vs. intros vs. revert m1 H1 H2.
  induction vs as [|[city variations] vs IH]; intros m1 H1 H2; cbn [fold_left fst snd].
  - now split.
  - apply IH.
    + destruct (str_in city cities) eqn:E; [|exact H1].
      apply str_in_In in E.
      apply (fold_set_maps_into (fun v => v) (fun _ => city)); auto.
    + intros c Hc. destruct (str_in city cities); [|now apply H2].
      apply (fold_set_keeps (fun v => v) (fun _ => city)). now apply H2.
Qed.

Lemma In_distinct_lower (column : Row.t -> string) (d : database) (r : Row.t) :
  In r (restaurants d) -> In (lower (column r)) (distinct_lower column d).
Proof.
  intros H. unfold distinct_lower. apply in_map, nodup_In. now apply in_map.
Qed.

(** X16. After [initialize_db_metadata] on an open connection, starting
    from the empty mapping of the module, whatever the iteration order of
    the sets: [normalize_city] yields an available city or the text it was
    given, and the city of any row of the table, in any letter case,
    resolves to an available city. *)
Theorem initialized_cities_resolve :
  forall set_of cat w,
    connected w = true ->
    keeps_elements set_of ->
    CITY_MAPPINGS cat = [] ->
    let cat' := initialize_db_metadata set_of cat w in
    (forall city m,
        normalize_city cat' city = Some m ->
        In m (AVAILABLE_CITIES cat') \/ city = Some m)
    /\ (forall r c,
           In r (restaurants (db w)) ->
           str_truthy c = true ->
           lower c = lower (Row.city r) ->
           exists m, normalize_city cat' (Some c) = Some m
                     /\ In m (AVAILABLE_CITIES cat')).
Proof.
  intros set_of cat w Hw Hs Hm cat'. subst cat'.
  unfold initialize_db_metadata. rewrite Hw, Hm. cbn [negb].
  set (cities := set_of (distinct_lower Row.city (db w))).
  destruct (fill_city_mappings_spec cities []) as [Hinto Hkeys];
    [constructor|].
  set (mp := fill_city_mappings cities []) in *.
  cbn [AVAILABLE_CITIES]. split.
  - intros [c|] m; [|discriminate]. unfold normalize_city.
    cbn [CITY_MAPPINGS].
    destruct (negb (str_truthy c)); [discriminate|].
    destruct (dict_get (lower c) mp) as [x|] eqn:E.
    + intros H. injection H as <-. left. eapply dict_get_maps_into; eauto.
    + destruct (find _ mp) as [[k x]|] eqn:F.
      * intros H. injection H as <-. left.
        apply find_some in F as [F _].
        unfold maps_into in Hinto. rewrite Forall_forall in Hinto.
        apply (Hinto _ F).
      * intros H. now right.
  - intros r c Hr Hc Hl. unfold normalize_city. cbn [CITY_MAPPINGS].
    rewrite Hc. cbn [negb].
    assert (Hin : In (lower c) cities).
    { apply Hs. rewrite Hl. now apply In_distinct_lower. }
    specialize (Hkeys _ Hin).
    destruct (dict_get (lower c) mp) as [x|] eqn:E; [|congruence].
    exists x. split; [reflexivity|]. eapply dict_get_maps_into; eauto.
Qed.

Lemma initialized_cities_resolve_witness :
  let cat' := initialize_db_metadata Samples.in_order Samples.at_import
                                     (Demo.online Demo.chicago) in
  (forall city m,
      normalize_city cat' city = Some m ->
      In m (AVAILABLE_CITIES cat') \/ city = Some m)
  /\ (forall r c,
         In r (restaurants (db (Demo.online Demo.chicago))) ->
         str_truthy c = true ->
         lower c = lower (Row.city r) ->
         exists m, normalize_city cat' (Some c) = Some m
                   /\ In m (AVAILABLE_CITIES cat')).
Proof.
  exact (initialized_cities_resolve Samples.in_order Samples.at_import
           (Demo.online Demo.chicago) eq_refl
           (fun l x => conj (fun H => H) (fun H => H)) eq_refl).
Defined.

Lemma nul_free_lower (s : string) : nul_free (lower s) = nul_free s.
Proof.
  unfold nul_free. f_equal.
  induction s as [|c s IH]; cbn; [reflexivity|]. rewrite IH. f_equal.
  destruct c as [[] [] [] [] [] [] [] []]; reflexivity.
Qed.

(** X17. After [initialize_db_metadata] on an open connection, a search by
    cuisine alone, spelled in any letter case like the cuisine of a row of
    the table, succeeds, and its rows are exactly the rows of that cuisine,
    the row itself among them. That is so for a cuisine as a table stores
    it, without the character NUL; a text with that character the driver
    refuses, and the answer is that error. *)
Theorem table_cuisine_is_found :
  forall set_of cat w r c,
    connected w = true ->
    keeps_elements set_of ->
    In r (restaurants (db w)) ->
    str_truthy c = true ->
    lower c = lower (Row.cuisine r) ->
    let answer := fst (search_restaurants (initialize_db_metadata set_of cat w)
                                          None (Some c) None w) in
    (nul_free (Row.cuisine r) = true ->
     exists n qp ni data,
       answer = Found n qp ni data
       /\ In r data
       /\ forall x, In x data <-> In x (restaurants (db w))
                                  /\ lower (Row.cuisine x) = lower c)
    /\ (nul_free (Row.cuisine r) = false ->
        answer = SearchError (Exception nul_error)).
Proof.
  intros set_of cat w r c Hw Hs Hr Hc Hl answer. subst answer.
  rewrite <- (nul_free_lower (Row.cuisine r)), <- Hl.
  unfold search_restaurants, initialize_db_metadata. rewrite Hw. cbn [negb].
  cbn [opt_truthy]. rewrite Hc. unfold normalize_cuisine. rewrite Hc.
  cbn [negb AVAILABLE_CUISINES].
  assert (Hin : str_in (lower c)
                       (set_of (distinct_lower Row.cuisine (db w))) = true).
  { apply str_in_In, Hs. rewrite Hl. now apply In_distinct_lower. }
  rewrite Hin. unfold opt_clause, opt_param, opt_truthy.
  rewrite lower_truthy, Hc. cbn [app].
  unfold execute_select, select_rows. cbn [List.length combine forallb fst snd
    well_typed Nat.eqb andb sendable].
  split; intros Hn; rewrite Hn; cbn [andb negb fst]; [|reflexivity].
  do 4 eexists. split; [reflexivity|].
  assert (E : forall x, In x (filter (fun r0 => forallb (holds r0) [(Cuisine, PStr (lower c))])
                                     (restaurants (db w)))
                        <-> In x (restaurants (db w))
                            /\ lower (Row.cuisine x) = lower c).
  { intros x. rewrite filter_In. cbn [forallb holds].
    now rewrite andb_true_r, String.eqb_eq, lower_idem. }
  split; [|exact E]. apply E. split; [exact Hr | now symmetry].
Qed.

Lemma table_cuisine_is_found_witness :
  exists n qp ni data,
    fst (search_restaurants
           (initialize_db_metadata Samples.in_order Samples.at_import
                                   (Demo.online Demo.chicago))
           None (Some "ITALIAN") None (Demo.online Demo.chicago))
    = Found n qp ni data
    /\ In Demo.trattoria data
    /\ forall x, In x data
                 <-> In x (restaurants (db (Demo.online Demo.chicago)))
                     /\ lower (Row.cuisine x) = lower "ITALIAN".
Proof.
  exact (proj1 (table_cuisine_is_found Samples.in_order Samples.at_import
                  (Demo.online Demo.chicago) Demo.trattoria "ITALIAN" eq_refl
                  (fun l x => conj (fun H => H) (fun H => H))
                  (or_introl eq_refl) eq_refl eq_refl) eq_refl).
Defined.

(** X18. [get_available_options] lists what the catalog holds: each of its
    three lists has the elements of the set it is taken from, and is in
    ascending order. *)
Theorem available_options_sorted :
  forall cat : catalog,
    let o := get_available_options cat in
    (Permutation (opt_cities o) (AVAILABLE_CITIES cat)
     /\ Sorted str_le (opt_cities o))
    /\ (Permutation (opt_cuisines o) (AVAILABLE_CUISINES cat)
        /\ Sorted str_le (opt_cuisines o))
    /\ (Permutation (opt_moods o) (AVAILABLE_MOODS cat)
        /\ Sorted str_le (opt_moods o)).
Proof.
  intros cat o. subst o. unfold get_available_options.
  cbn [opt_cities opt_cuisines opt_moods].
  repeat split; first [apply sorted_perm | apply sorted_Sorted].
Qed.

End CatalogFacts.

(* ===================================================================== *)
(** * progressive_restaurant_inquiry *)
(* ===================================================================== *)

Module InquiryFacts.
Import Py Foodie Spec PyFacts StringFacts.

(** X19. [progressive_restaurant_inquiry] asks for the city first: the
    next field is [city] exactly when no recommendation can be made;
    nothing is asked next exactly when nothing is missing; a missing field
    is never a known one; without a booking intent only the city and the
    cuisine can be missing, and with one every field of the four that is not
    known is; and the intent does not depend on the letter case of the
    query. *)
Theorem inquiry_asks_city_first :
  forall (query : string) (known_info : option dict),
    let i := progressive_restaurant_inquiry query known_info in
    (can_recommend i = false <-> next_field_to_ask i = Some "city")
    /\ (next_field_to_ask i = None <-> missing_info i = [])
    /\ (forall f, In f (missing_info i) -> known f (inq_known_info i) = false)
    /\ (is_booking_intent i = false ->
        forall f, In f (missing_info i) -> f = "city" \/ f = "cuisine")
    /\ (is_booking_intent i = true ->
        forall f, In f ["city"; "party_size"; "cuisine"; "time"] ->
                  known f (inq_known_info i) = false ->
                  In f (missing_info i))
    /\ is_booking_intent (progressive_restaurant_inquiry (lower query) known_info)
       = is_booking_intent i.
Proof.
  intros query known_info i. subst i.
  unfold progressive_restaurant_inquiry.
  cbn [can_recommend next_field_to_ask missing_info inq_known_info
       is_booking_intent].
  rewrite lower_idem.
  set (ki := match known_info with Some (kv :: rest) => kv :: rest | _ => [] end).
  set (booking := contains "book" (lower query)
                  || contains "reservation" (lower query)).
  unfold when.
  destruct (known "city" ki) eqn:K1, (known "party_size" ki) eqn:K2,
    (known "cuisine" ki) eqn:K3, (known "time" ki) eqn:K4, booking;
    cbn [negb andb app];
    repeat match goal with |- _ /\ _ => split end;
    first
      [ reflexivity
      | solve [split; intros H; first [reflexivity | discriminate H]]
      | solve [intros f Hf; cbn [In] in Hf; intuition (subst; assumption)]
      | solve [intros Hb f Hf; try discriminate Hb; cbn [In] in *;
               intuition auto]
      | solve [intros Hb f Hf Hk; try discriminate Hb; cbn [In] in *;
               intuition (subst; congruence)] ].
Qed.

End InquiryFacts.

(* ===================================================================== *)
(** * Turns and sessions of the agent *)
(* ===================================================================== *)

Module TurnFacts.
Import Py ToolAgent AgentSpec TurnLaws PyFacts StringFacts AgentFacts.

Lemma processed_prefix (lines : list string) :
  exists rest,
    lines = processed lines ++ rest
    /\ Forall (fun l => str_in (lower l) ["exit"; "quit"] = false)
              (processed lines)
    /\ match rest with
       | [] => True
       | l :: _ => str_in (lower l) ["exit"; "quit"] = true
       end.
Proof.
  induction lines as [|l t IH]; cbn [processed].
  - exists []. repeat split. constructor.
  - destruct (str_in (lower l) ["exit"; "quit"]) eqn:E.
    + exists (l :: t). repeat split; [constructor | exact E].
    + destruct IH as (rest & Hl & Hf & Hr). exists rest.
      split; [cbn [app]; now rewrite <- Hl|]. split; [|exact Hr].
      now constructor.
Qed.

Section Turn.
Context {W : Type}.
Variable validate_arguments : pyval -> signature -> result ToolCall.
Implicit Types (t : turn W) (td : list (string * Tool W)).


Lemma validated_calls_length (tools : list (Tool W)) (content : list block) :
  List.length (validated_calls validate_arguments tools content) <= List.length
      content.
Proof.
  unfold AgentSpec.validated_calls.
  induction content as [|b rest IH]; cbn [flat_map List.length]; [lia|].
  rewrite length_app. destruct (checked validate_arguments tools b) as [[tool
      v]|]; cbn; lia.
Qed.

Lemma validated_calls_all (tools : list (Tool W)) (content : list block) :
  Forall (fun b => checked validate_arguments tools b <> None) content ->
  List.length (validated_calls validate_arguments tools content) = List.length
      content.
Proof.
  unfold AgentSpec.validated_calls.
  induction 1 as [|b rest Hb Hrest IH]; cbn [flat_map List.length];
    [reflexivity|].
  rewrite length_app, IH.
  destruct (checked validate_arguments tools b) as [[tool v]|]; [reflexivity |
      contradiction].
Qed.

Lemma validated_calls_app (tools : list (Tool W)) (c1 c2 : list block) :
  validated_calls validate_arguments tools (c1 ++ c2)
  = validated_calls validate_arguments tools c1 ++ validated_calls
      validate_arguments tools c2.
Proof. unfold AgentSpec.validated_calls. apply flat_map_app. Qed.

(** Where the ids of the calls differ, no block after a block has a call
    of its id. *)
Lemma distinct_ids_free (tools : list (Tool W)) (pre post : list block)
    (b : block) (tool : Tool W) (v : ToolCall) :
  checked validate_arguments tools b = Some (tool, v) ->
  NoDup (map tc_id (validated_calls validate_arguments tools (pre ++ b ::
      post))) ->
  id_free validate_arguments tools (tc_id v) post.
Proof.
  intros Hc Hn. rewrite validated_calls_app, map_app in Hn.
  apply NoDup_app_remove_l in Hn.
  change (b :: post) with ([b] ++ post) in Hn.
  rewrite validated_calls_app, map_app in Hn.
  unfold AgentSpec.validated_calls at 1 in Hn. cbn [flat_map] in Hn.
  rewrite Hc in Hn. cbn in Hn. inversion Hn as [|? ? Hnot _]; subst.
  unfold AgentSpec.id_free. apply Forall_forall. intros b' Hb' tool' v' Hc' E.
  apply Hnot. rewrite <- E. apply in_map.
  unfold AgentSpec.validated_calls. apply in_flat_map. exists b'.
  split; [exact Hb'|]. rewrite Hc'. now left.
Qed.

(** X20. [process_tool_calls] validates at most one call for each block.
    Its observations hold no [error] entry exactly when every block was
    answered: it parsed, named a registered tool and validated, and the
    tool, run in the world the blocks before it left, returned. Then there
    are as many calls as blocks, and, where the ids of the calls differ,
    the result of every block is the entry under the id of its call. And
    every entry under an id is the result of a block whose call has that
    id. *)
Theorem no_error_means_every_block_answered :
  forall (tools : list (Tool W)) (content : list block) (w : W),
    let t := process_tool_calls validate_arguments tools content w in
    List.length (validated t) <= List.length content
    /\ (obs_get (KStr "error") (obs t) = None
        <-> forall pre b post,
              content = pre ++ b :: post ->
              exists v r,
                result_of validate_arguments tools pre b w = Some (v, r))
    /\ (obs_get (KStr "error") (obs t) = None ->
        List.length (validated t) = List.length content
        /\ (NoDup (map tc_id (validated t)) ->
            forall pre b post,
              content = pre ++ b :: post ->
              exists v r,
                result_of validate_arguments tools pre b w = Some (v, r)
                /\ obs_get (KId (tc_id v)) (obs t) = Some r))
    /\ (forall k r,
          obs_get (KId k) (obs t) = Some r ->
          exists pre b post v,
            content = pre ++ b :: post
            /\ result_of validate_arguments tools pre b w = Some (v, r)
            /\ tc_id v = k).
Proof.
  intros tools content w t. unfold result_of.
  assert (Hv : validated t = validated_calls validate_arguments tools content).
  { subst t. unfold ToolAgent.process_tool_calls.
    now rewrite process_from_validated. }
  split; [rewrite Hv; apply validated_calls_length|].
  split; [apply no_error_iff|]. split.
  - intros He. pose proof (proj1 (no_error_iff _ tools content w) He) as Ha.
    split.
    + rewrite Hv. apply validated_calls_all. apply Forall_forall.
      intros b Hb. apply in_split in Hb as (pre & post & Hc).
      destruct (Ha pre b post Hc) as (v & r & Hr).
      destruct (answer_checked _ _ _ _ _ _ Hr) as [tool ->]. discriminate.
    + intros Hn pre b post Hc. destruct (Ha pre b post Hc) as (v & r & Hr).
      exists v, r. split; [exact Hr|].
      destruct (answer_checked _ _ _ _ _ _ Hr) as [tool Hk].
      subst t. rewrite Hc. apply answer_is_stored; [exact Hr|].
      apply (distinct_ids_free tools pre post b tool v Hk).
      now rewrite <- Hc, <- Hv.
  - intros k r Hg. apply obs_get_In in Hg.
    now apply stored_is_answer.
Qed.

Lemma tools_dict_In (tools : list (Tool W)) (s : string) (tool : Tool W) :
  dict_get s (tools_dict tools) = Some tool -> In tool tools.
Proof.
  unfold tools_dict.
  assert (G : forall l d,
             (forall k v, dict_get k d = Some v -> In v tools) ->
             (forall x, In x l -> In x tools) ->
             forall k v,
               dict_get k (fold_left (fun d x => dict_set (name x) x d) l d)
               = Some v -> In v tools).
  { induction l as [|x l IH]; intros d Hd Hl k v; cbn [fold_left].
    - apply Hd.
    - apply IH.
      + intros k' v'. destruct (string_dec k' (name x)) as [->|Hne].
        * rewrite dict_get_set_same. intros E. injection E as <-.
          apply Hl. now left.
        * rewrite dict_get_set_other by exact Hne. apply Hd.
      + intros y Hy. apply Hl. now right. }
  apply (G tools []); [discriminate | auto].
Qed.

Section Frame.
Variable I : W -> Prop.
Variable tools : list (Tool W).
Hypothesis tools_keep :
  forall tool args w, In tool tools -> I w -> I (snd (run_tool tool args w)).

Lemma process_tool_call_keeps (b : block) t :
  I (world t) -> I (world (process_tool_call validate_arguments (tools_dict
      tools) b t)).
Proof.
  intros Hw. unfold ToolAgent.process_tool_call.
  destruct b as [msg|tool_call]; [exact Hw|].
  destruct (subscript_name tool_call) as [tool_name|e]; [|exact Hw].
  destruct (resolve _ tool_name) as [tool|e] eqn:Er; [|exact Hw].
  destruct (validate_arguments _ _) as [v|e]; [|exact Hw].
  assert (Hin : In tool tools).
  { unfold resolve in Er. destruct tool_name; try discriminate Er.
    destruct (dict_get s (tools_dict tools)) as [x|] eqn:Ed; [|discriminate Er].
    injection Er as <-. eapply tools_dict_In, Ed. }
  pose proof (tools_keep tool (coerce_group_size (tc_arguments v)) (world t)
                Hin Hw) as Hk.
  destruct (run_tool tool _ (world t)) as [[r|e] w']; exact Hk.
Qed.

Lemma process_from_keeps (content : list block) t :
  I (world t) -> I (world (process_from validate_arguments tools content t)).
Proof.
  unfold ToolAgent.process_from. revert t.
  induction content as [|b rest IH]; intros t Ht; cbn [fold_left];
    [exact Ht|].
  apply IH. now apply process_tool_call_keeps.
Qed.

End Frame.

(** X21. A turn changes the world through the registered tools only: a
    property of the world that every tool of the agent keeps, whatever its
    arguments and whether it returns or raises, still holds after [run];
    and [run] leaves the tools of the agent as they are. *)
Theorem turn_keeps_what_tools_keep :
  forall (I : W -> Prop) (env : Env) (a : Agent W) (user_msg : string) (w : W),
    (forall tool args w, In tool (tools a) -> I w ->
                         I (snd (run_tool tool args w))) ->
    I w ->
    I (snd (run validate_arguments env a user_msg w))
    /\ tools (snd (fst (run validate_arguments env a user_msg w))) = tools a.
Proof.
  intros I env a user_msg w Hk Hw. unfold ToolAgent.run.
  destruct (found _); cbn [fst snd tools]; split; try reflexivity;
    try exact Hw.
  unfold ToolAgent.observe. cbn [world]. unfold ToolAgent.process_tool_calls.
  apply process_from_keeps; assumption.
Qed.

(** What one [run] leaves of the agent. *)
Lemma run_agent (env : Env) (a : Agent W) (l : string) (w : W) :
  let reply := completions_create env (tool_chat_history a ++ [Message "user" l]) in
  let r := run validate_arguments env a l w in
  tools (snd (fst r)) = tools a
  /\ tool_chat_history (snd (fst r)) = tool_chat_history a ++ exchange (l, reply)
  /\ filter assistant (agent_chat_history (snd (fst r)))
     = filter assistant (agent_chat_history a)
       ++ [Message "assistant" (fst (fst r))].
Proof.
  intros reply r. subst r reply. unfold ToolAgent.run.
  destruct (found _);
    cbn [fst snd tools tool_chat_history agent_chat_history];
    rewrite <- app_assoc; repeat split;
    rewrite !filter_app; cbn; now rewrite ?app_nil_r.
Qed.

Lemma tool_replies_length (env : Env) (lines : list string)
    (th : list ChatMessage) :
  List.length (tool_replies env th lines) = List.length lines.
Proof.
  revert th. induction lines as [|l rest IH]; intros th; cbn;
    [reflexivity | now rewrite IH].
Qed.

Lemma session_agent (env : Env) (lines : list string) (a : Agent W) (w : W) :
  let r := session validate_arguments env a lines w in
  List.length (fst (fst r)) = List.length lines
  /\ tools (snd (fst r)) = tools a
  /\ tool_chat_history (snd (fst r))
     = tool_chat_history a
       ++ flat_map exchange
            (combine lines (tool_replies env (tool_chat_history a) lines))
  /\ filter assistant (agent_chat_history (snd (fst r)))
     = filter assistant (agent_chat_history a)
       ++ map (Message "assistant") (fst (fst r)).
Proof.
  revert a w. induction lines as [|l rest IH]; intros a w r; subst r.
  - cbn. now rewrite !app_nil_r.
  - cbn [TurnLaws.session tool_replies].
    destruct (run_agent env a l w) as (R1 & R2 & R3).
    destruct (ToolAgent.run validate_arguments env a l w)
      as [[response a'] w'].
    cbn [fst snd] in R1, R2, R3.
    specialize (IH a' w'). cbn zeta in IH.
    destruct (TurnLaws.session validate_arguments env a' rest w')
      as [[printed a''] w''].
    cbn [fst snd] in *. destruct IH as (I1 & I2 & I3 & I4).
    cbn [List.length combine flat_map map].
    rewrite I1, I2, I3, I4, R1, R2, R3, <- !app_assoc. repeat split.
Qed.

Lemma main_loop_session (env : Env) (lines : list string) (a : Agent W)
    (w : W) :
  Main.main_loop validate_arguments env a lines w = session validate_arguments
      env a (processed lines) w.
Proof.
  revert a w. induction lines as [|l rest IH]; intros a w;
    cbn [Main.main_loop processed]; [reflexivity|].
  destruct (str_in (lower l) ["exit"; "quit"]); [reflexivity|].
  cbn [TurnLaws.session].
  destruct (ToolAgent.run validate_arguments env a l w) as [[response a'] w'].
  now rewrite IH.
Qed.

(** X22. The loop of [main], with a provider that answers: it answers the
    lines before the first [exit] or [quit] (in any letter case) and none
    after, each with [run], from the agent and the world the line before
    left; so it prints one answer for each. The tools stay as they are;
    the tool history grows by each of these lines followed by the reply of
    the provider to it, in order; and the answers printed are the
    assistant messages the agent history gains, in order. The lines
    answered are a prefix of the lines typed, none of them is [exit] or
    [quit], and the line after them, if any, is. *)
Theorem main_loop_answers_until_exit :
  forall (env : Env) (lines : list string) (a : Agent W) (w : W),
    let r := Main.main_loop validate_arguments env a lines w in
    let replies := tool_replies env (tool_chat_history a) (processed lines) in
    r = session validate_arguments env a (processed lines) w
    /\ List.length replies = List.length (processed lines)
    /\ List.length (fst (fst r)) = List.length (processed lines)
    /\ tools (snd (fst r)) = tools a
    /\ tool_chat_history (snd (fst r))
       = tool_chat_history a
         ++ flat_map exchange (combine (processed lines) replies)
    /\ filter assistant (agent_chat_history (snd (fst r)))
       = filter assistant (agent_chat_history a)
         ++ map (Message "assistant") (fst (fst r))
    /\ (exists rest,
           lines = processed lines ++ rest
           /\ Forall (fun l => str_in (lower l) ["exit"; "quit"] = false)
                     (processed lines)
           /\ match rest with
              | [] => True
              | l :: _ => str_in (lower l) ["exit"; "quit"] = true
              end).
Proof.
  intros env lines a w r replies. subst r replies.
  rewrite main_loop_session.
  destruct (session_agent env (processed lines) a w) as (S1 & S2 & S3 & S4).
  split; [reflexivity|]. split; [apply tool_replies_length|].
  repeat (split; [assumption|]). apply processed_prefix.
Qed.

End Turn.

Lemma turn_keeps_what_tools_keep_witness :
  Foodie.db (snd (run keeps_id Samples.scripted Samples.concierge "hello"
                      (Demo.online Demo.chicago)))
  = Demo.chicago
  /\ tools (snd (fst (run keeps_id Samples.scripted Samples.concierge "hello"
                          (Demo.online Demo.chicago))))
     = tools Samples.concierge.
Proof.
  apply (turn_keeps_what_tools_keep keeps_id
           (fun w => Foodie.db w = Demo.chicago)).
  - intros tool args w [<-|[]] Hw. cbn [run_tool Samples.count_rows].
    unfold Foodie.search_restaurants.
    destruct (negb (Foodie.connected w)); cbn; exact Hw.
  - reflexivity.
Defined.

(** A session of two lines and a third after [quit]: two answers, each the
    reply of the provider. *)
Example sample_session :
  fst (fst (Main.main_loop keeps_id Samples.scripted Samples.concierge
                           ["hello"; "Quit"; "more"]
                           (Demo.online Demo.chicago)))
  = ["<tool_call>search_restaurants</tool_call>"].
Proof. reflexivity. Qed.

Lemma coerce_group_size_get (k : string) (args : dict) :
  dict_get k (coerce_group_size args)
  = option_map (fun v => if String.eqb k "group_size" then as_group_size v else v)
               (dict_get k args).
Proof.
  unfold dict_get, coerce_group_size.
  induction args as [|[k' v'] rest IH]; cbn [map get]; [reflexivity|].
  assert (E : fst (if String.eqb k' "group_size"
                   then match v' with
                        | PNone => (k', v')
                        | _ => match int v' with
                               | Some z => (k', PInt z)
                               | None => (k', v')
                               end
                        end
                   else (k', v')) = k').
  { destruct (String.eqb k' "group_size"); [|reflexivity].
    destruct v'; cbn; try reflexivity;
      match goal with |- context [match ?x with _ => _ end] => now destruct x end. }
  destruct (if String.eqb k' "group_size" then _ else _) as [k2 v2] eqn:F.
  cbn in E. subst k2. destruct (String.eqb k k') eqn:Ek; [|exact IH].
  apply String.eqb_eq in Ek. subst k'. cbn [option_map].
  destruct (String.eqb k "group_size"); [|now injection F as <-].
  unfold as_group_size.
  destruct v'; cbn in F |- *; try (now injection F as <-);
    match goal with |- context [match ?x with _ => _ end] =>
      destruct x; now injection F as <- end.
Qed.

(** X23. The type-check loop of [process_tool_calls] keeps the keys of the
    arguments and their order, changes no argument but [group_size], and
    does nothing when run twice; and the check of [get_recommendations]
    accepts the [group_size] it leaves exactly when [int] accepts the
    original, then with that integer: a boolean never reaches the query. *)
Theorem group_size_reaches_the_tool_as_int :
  forall args : dict,
    map fst (coerce_group_size args) = map fst args
    /\ (forall k, k <> "group_size" ->
                  dict_get k (coerce_group_size args) = dict_get k args)
    /\ coerce_group_size (coerce_group_size args) = coerce_group_size args
    /\ (forall v, dict_get "group_size" args = Some v ->
          exists v',
            dict_get "group_size" (coerce_group_size args) = Some v'
            /\ Foodie.coerce_group_size v'
               = match v with
                 | PNone => Some PNone
                 | _ => option_map PInt (int v)
                 end).
Proof.
  intros args. split; [|split; [|split]].
  - unfold coerce_group_size. rewrite map_map. apply map_ext.
    intros [k v]. destruct (String.eqb k "group_size"); [|reflexivity].
    destruct v; cbn; try reflexivity;
      match goal with |- context [match ?x with _ => _ end] => now destruct x end.
  - intros k Hk. rewrite coerce_group_size_get.
    apply String.eqb_neq in Hk. rewrite Hk. now destruct (dict_get k args).
  - unfold coerce_group_size. rewrite map_map. apply map_ext.
    intros [k v]. destruct (String.eqb k "group_size") eqn:E;
      [|now rewrite E].
    destruct v; cbn; rewrite ?E; try reflexivity;
      match goal with |- context [match ?x with _ => _ end] =>
        destruct x eqn:F; cbn; rewrite ?E, ?F; reflexivity end.
  - intros v Hv. rewrite coerce_group_size_get, Hv. cbn [option_map String.eqb].
    eexists. split; [reflexivity|].
    destruct v as [|b|z|s|l|d]; cbn; try reflexivity.
    destruct (int_of_str s) eqn:E; cbn; rewrite ?E; reflexivity.
Qed.

End TurnFacts.
